(** * The p5 lifecycle controller (src/core/core.js)

    A shallow embedding of the [p5] instance constructor and of the closures
    it creates ([_start], [_preload], [_setup], [_draw], [_runFrames],
    [_setProperty], [remove]), followed by the properties of the preload
    gate, the frame scheduler, the capability binding and the teardown.

    JavaScript objects used as dictionaries (the instance, [p5.prototype],
    [window]) are association lists from property names to values, in
    insertion order; the browser (timers, event listeners, the DOM tree, the
    clock) is an explicit store; code that lives outside core.js (user
    hooks, library methods, add-on hooks) is a parameter of the
    development.  A routine is a function from the world to an outcome, a
    new world and the trace of what it did. *)

From Stdlib Require Import ZArith QArith Bool List Ascii String Permutation.

From stdpp Require Import strings list.

Local Set Warnings "-register-all".

Local Open Scope Z_scope.

Local Open Scope string_scope.

Local Open Scope list_scope.

(** ** JavaScript numbers

    A number is a double.  Finite doubles are represented by the rational
    they denote, kept in lowest terms, so that rounding is abstracted away;
    the special values are kept apart.  Signed zeros are not distinguished
    (core.js only divides by differences of integer timestamps). *)

Inductive number :=
| NaN
| Inf (negative : bool)
| Fin (q : Q).

Definition num (z : Z) : number := Fin (inject_Z z).

Definition Qneg_bool (q : Q) : bool := (Qnum q <? 0)%Z.

Definition js_neg (a : number) : number :=
  match a with
  | NaN => NaN
  | Inf s => Inf (negb s)
  | Fin q => Fin (Qred (- q))
  end.

Definition js_add (a b : number) : number :=
  match a, b with
  | NaN, _ | _, NaN => NaN
  | Inf s, Inf s' => if Bool.eqb s s' then Inf s else NaN
  | Inf s, Fin _ | Fin _, Inf s => Inf s
  | Fin x, Fin y => Fin (Qred (x + y))
  end.

Definition js_sub (a b : number) : number := js_add a (js_neg b).

Definition js_div (a b : number) : number :=
  match a, b with
  | NaN, _ | _, NaN => NaN
  | Inf _, Inf _ => NaN
  | Inf s, Fin y => Inf (xorb s (Qneg_bool y))
  | Fin _, Inf _ => Fin 0
  | Fin x, Fin y =>
      if Qeq_bool y 0
      then (if Qeq_bool x 0 then NaN else Inf (Qneg_bool x))
      else Fin (Qred (x / y))
  end.

Definition is_zero (a : number) : bool :=
  match a with Fin q => Qeq_bool q 0 | _ => false end.

(** ** Values *)

Definition node := nat.

(** The identity of a function object.  [f.bind(this)] makes a new function
    object each time it is evaluated, hence the serial number. *)
Inductive fn :=
| Lib (name : string)       (* defined by another module of the library or by an add-on *)
| User (k : nat)            (* supplied by the sketch *)
| Core (name : string)      (* a closure the constructor creates *)
| Wrapper (func : string)   (* function(path) { return context._preload(func, path); } *)
| Bound (target : fn) (serial : nat).

Inductive value :=
| VUndef
| VNull
| VBool (b : bool)
| VNum (x : number)
| VStr (s : string)
| VFun (f : fn)
| VNode (n : node)
| VArr (l : list value)
| VObj (o : list (string * value)).

#[global] Instance fn_eq_dec : EqDecision fn.
Proof. solve_decision. Defined.

(** ToBoolean *)
Definition truthy (v : value) : bool :=
  match v with
  | VUndef | VNull => false
  | VBool b => b
  | VNum x => match x with NaN => false | Inf _ => true | Fin q => negb (Qeq_bool q 0) end
  | VStr s => negb (String.eqb s "")
  | VFun _ | VNode _ | VArr _ | VObj _ => true
  end.

(** [a || b] *)
Definition js_or (a b : value) : value := if truthy a then a else b.

(** [typeof v === 'function'], [typeof v === 'undefined'], [typeof v === 'string'] *)
Definition is_function (v : value) : bool :=
  match v with VFun _ => true | _ => false end.

Definition is_undefined (v : value) : bool :=
  match v with VUndef => true | _ => false end.

Definition is_string (v : value) : bool :=
  match v with VStr _ => true | _ => false end.

(** [Array.isArray(v)] *)
Definition is_array (v : value) : bool :=
  match v with VArr _ => true | _ => false end.

(** ToNumber, on the values core.js does arithmetic with (numeric strings
    are not interpreted: the counters and timestamps only ever hold numbers
    or are missing). *)
Definition to_number (v : value) : number :=
  match v with
  | VNum x => x
  | VNull => num 0
  | VBool b => if b then num 1 else num 0
  | _ => NaN
  end.

(** [v === 0] *)
Definition is_number_zero (v : value) : bool :=
  match v with VNum x => is_zero x | _ => false end.

(** ** Dictionaries

    A JavaScript object used as a dictionary keeps its keys in insertion
    order, the order in which [for ... in] visits them: it is an association
    list, read at the first entry of a key. *)

Section Dict.
Context {K V : Type} `{EqDecision K}.

(** [d[k]], when [d] has the key *)
Fixpoint assoc (k : K) (d : list (K * V)) : option V :=
  match d with
  | [] => None
  | (k', v) :: d' => if decide (k' = k) then Some v else assoc k d'
  end.

(** [d[k] = v]: in place when the key is there, at the end otherwise *)
Fixpoint update (k : K) (v : V) (d : list (K * V)) : list (K * V) :=
  match d with
  | [] => [(k, v)]
  | (k', v') :: d' =>
      if decide (k' = k) then (k, v) :: d' else (k', v') :: update k v d'
  end.

(** [delete d[k]] *)
Fixpoint without (k : K) (d : list (K * V)) : list (K * V) :=
  match d with
  | [] => []
  | (k', v') :: d' =>
      if decide (k' = k) then without k d' else (k', v') :: without k d'
  end.

End Dict.

(** A missing property reads as [undefined]. *)
Definition read (o : option value) : value := default VUndef o.

Definition obj_get (k : string) (o : list (string * value)) : value :=
  read (assoc k o).

(** [o.hasOwnProperty(k)] *)
Definition obj_has (k : string) (o : list (string * value)) : bool :=
  bool_decide (is_Some (assoc k o)).

(** ** The browser and the instance *)

Inductive target := TWindow | TNode (n : node).

#[global] Instance target_eq_dec : EqDecision target.
Proof. solve_decision. Defined.

(** A registered listener: event target, event type, callback. core.js
    always registers and unregisters with the default (bubbling) phase. *)
Definition listener : Type := target * string * fn.

Inductive callback :=
| DrawCycle    (* function() { window.requestDraw(this._draw.bind(this)); } *)
| FrameTick.   (* function() { this._setProperty('frameCount', this.frameCount + 1); } *)

#[global] Instance callback_eq_dec : EqDecision callback.
Proof. solve_decision. Defined.

Record timer := Timer {
  t_id : Z;
  t_repeat : bool;          (* setInterval (true) or setTimeout (false) *)
  t_callback : callback;
  t_delay : number
}.

(** [context = this._isGlobal ? window : this] *)
Inductive ctx := CWindow | CThis.

(** An asynchronous load whose completion callback has not run yet; the
    callback closes over the [context] of the [_preload] call. *)
Record load := Load {
  l_id : nat;
  l_func : string;
  l_path : value;
  l_context : ctx
}.

Record World := mkWorld {
  this : list (string * value);        (* own properties of the p5 instance *)
  proto : list (string * value);       (* p5.prototype, the shared capability table *)
  window : list (string * value);      (* the global namespace *)
  listeners : list listener;       (* addEventListener registrations *)
  parentNode : list (node * node);     (* child |-> parent *)
  ids : list (string * node);          (* document.getElementById *)
  hidden : list node;              (* document.getElementsByClassName('p5_hidden') *)
  visibility : list (node * string);   (* elt.style.visibility *)
  timers : list timer;             (* armed timeouts and intervals *)
  next_timer : Z;                  (* the next timer handle *)
  pending : list load;             (* loads in flight *)
  next_load : nat;
  next_bound : nat;                (* serial of the next bound function *)
  clock : Z;                       (* new Date().getTime() *)
  ready : bool                     (* document.readyState === 'complete' *)
}.

Definition set_this (f : list (string * value) -> list (string * value)) (w : World) :=
  mkWorld (f (this w)) (proto w) (window w) (listeners w) (parentNode w) (ids w)
    (hidden w) (visibility w) (timers w) (next_timer w) (pending w)
    (next_load w) (next_bound w) (clock w) (ready w).

Definition set_proto (f : list (string * value) -> list (string * value)) (w : World) :=
  mkWorld (this w) (f (proto w)) (window w) (listeners w) (parentNode w) (ids w)
    (hidden w) (visibility w) (timers w) (next_timer w) (pending w)
    (next_load w) (next_bound w) (clock w) (ready w).

Definition set_window (f : list (string * value) -> list (string * value)) (w : World) :=
  mkWorld (this w) (proto w) (f (window w)) (listeners w) (parentNode w) (ids w)
    (hidden w) (visibility w) (timers w) (next_timer w) (pending w)
    (next_load w) (next_bound w) (clock w) (ready w).

Definition set_listeners (f : list listener -> list listener) (w : World) :=
  mkWorld (this w) (proto w) (window w) (f (listeners w)) (parentNode w) (ids w)
    (hidden w) (visibility w) (timers w) (next_timer w) (pending w)
    (next_load w) (next_bound w) (clock w) (ready w).

Definition set_parentNode (f : list (node * node) -> list (node * node)) (w : World) :=
  mkWorld (this w) (proto w) (window w) (listeners w) (f (parentNode w)) (ids w)
    (hidden w) (visibility w) (timers w) (next_timer w) (pending w)
    (next_load w) (next_bound w) (clock w) (ready w).

Definition set_hidden (f : list node -> list node) (w : World) :=
  mkWorld (this w) (proto w) (window w) (listeners w) (parentNode w) (ids w)
    (f (hidden w)) (visibility w) (timers w) (next_timer w) (pending w)
    (next_load w) (next_bound w) (clock w) (ready w).

Definition set_visibility (f : list (node * string) -> list (node * string)) (w : World) :=
  mkWorld (this w) (proto w) (window w) (listeners w) (parentNode w) (ids w)
    (hidden w) (f (visibility w)) (timers w) (next_timer w) (pending w)
    (next_load w) (next_bound w) (clock w) (ready w).

Definition set_timers (f : list timer -> list timer) (w : World) :=
  mkWorld (this w) (proto w) (window w) (listeners w) (parentNode w) (ids w)
    (hidden w) (visibility w) (f (timers w)) (next_timer w) (pending w)
    (next_load w) (next_bound w) (clock w) (ready w).

Definition set_next_timer (n : Z) (w : World) :=
  mkWorld (this w) (proto w) (window w) (listeners w) (parentNode w) (ids w)
    (hidden w) (visibility w) (timers w) n (pending w)
    (next_load w) (next_bound w) (clock w) (ready w).

Definition set_pending (f : list load -> list load) (w : World) :=
  mkWorld (this w) (proto w) (window w) (listeners w) (parentNode w) (ids w)
    (hidden w) (visibility w) (timers w) (next_timer w) (f (pending w))
    (next_load w) (next_bound w) (clock w) (ready w).

Definition set_next_load (n : nat) (w : World) :=
  mkWorld (this w) (proto w) (window w) (listeners w) (parentNode w) (ids w)
    (hidden w) (visibility w) (timers w) (next_timer w) (pending w)
    n (next_bound w) (clock w) (ready w).

Definition set_next_bound (n : nat) (w : World) :=
  mkWorld (this w) (proto w) (window w) (listeners w) (parentNode w) (ids w)
    (hidden w) (visibility w) (timers w) (next_timer w) (pending w)
    (next_load w) n (clock w) (ready w).

Definition set_clock (t : Z) (w : World) :=
  mkWorld (this w) (proto w) (window w) (listeners w) (parentNode w) (ids w)
    (hidden w) (visibility w) (timers w) (next_timer w) (pending w)
    (next_load w) (next_bound w) t (ready w).

(** ** What a run does: the trace *)

Inductive event :=
| EvEnter (routine : string)                 (* a routine of core.js starts *)
| EvCall (f : fn)                            (* code outside core.js is called *)
| EvPush | EvPop                             (* this.push(), this.pop() *)
| EvScale (x y : value)                      (* this.scale(x, y) *)
| EvSetTimeout (id : Z)
| EvSetInterval (id : Z)
| EvClear (id : Z)                           (* clearInterval / clearTimeout *)
| EvLoad (id : nat) (func : string)          (* a loader is started *)
| EvLoaded                                   (* a completion callback runs *)
| EvSubscribe (t : target) (ev : string) (h : fn)
| EvUnsubscribe (t : target) (ev : string) (h : value)
| EvDetach (n : node)                        (* parentNode.removeChild(n) *)
| EvDelete (name : string).                  (* delete window[name] *)

(** Number of events of a trace that satisfy [p]. *)
Fixpoint count (p : event -> bool) (tr : list event) : nat :=
  match tr with
  | [] => 0%nat
  | e :: tr' => ((if p e then 1 else 0) + count p tr')%nat
  end.

Definition is_call (f : fn) (e : event) : bool :=
  match e with EvCall g => bool_decide (g = f) | _ => false end.

Definition is_enter (r : string) (e : event) : bool :=
  match e with EvEnter r' => String.eqb r r' | _ => false end.

Definition is_arm (e : event) : bool :=
  match e with EvSetTimeout _ | EvSetInterval _ => true | _ => false end.

Definition is_clear (e : event) : bool :=
  match e with EvClear _ => true | _ => false end.

Definition is_loaded (e : event) : bool :=
  match e with EvLoaded => true | _ => false end.

(** [a] occurs in the trace strictly before [b]. *)
Definition precedes (a b : event) (tr : list event) : Prop :=
  exists t1 t2 t3, tr = t1 ++ a :: t2 ++ b :: t3.

(** ** The monad of core.js

    A routine runs in a world, may call code that throws (the exception is
    not caught anywhere in core.js, so it ends the routine on the spot), and
    leaves a trace. *)

Inductive result (A : Type) :=
| Ok (a : A)
| Throw.

Arguments Ok {A} a.

Arguments Throw {A}.

Definition M (A : Type) : Type := World -> result A * World * list event.

Definition ret {A} (a : A) : M A := fun w => (Ok a, w, []).

Definition bind {A B} (m : M A) (k : A -> M B) : M B :=
  fun w =>
    match m w with
    | (Ok a, w1, t1) => let '(r, w2, t2) := k a w1 in (r, w2, t1 ++ t2)
    | (Throw, w1, t1) => (Throw, w1, t1)
    end.

Definition throw {A} : M A := fun w => (Throw, w, []).

Definition emit (e : event) : M unit := fun w => (Ok tt, w, [e]).

Definition gets {A} (f : World -> A) : M A := fun w => (Ok (f w), w, []).

Definition modify (f : World -> World) : M unit := fun w => (Ok tt, f w, []).

Declare Scope js_scope.

Delimit Scope js_scope with js.

Notation "'let*' x ':=' m 'in' k" := (bind m (fun x => k))
  (at level 10, x name, m at level 100, k at level 200) : js_scope.

Notation "m '>>' k" := (bind m (fun _ => k))
  (at level 100, k at level 200, right associativity) : js_scope.

Local Open Scope js_scope.

Definition when (b : bool) (m : M unit) : M unit := if b then m else ret tt.

(** The three parts of the outcome of a run. *)
Definition outcome_of {A} (x : result A * World * list event) : result A := fst (fst x).

Definition world_of {A} (x : result A * World * list event) : World := snd (fst x).

Definition trace_of {A} (x : result A * World * list event) : list event := snd x.

(** [l.forEach(body)] and [for (k in o) body]: the body runs on every item
    in order, unless one run throws. *)
Fixpoint for_each {A} (body : A -> M unit) (l : list A) : M unit :=
  match l with
  | [] => ret tt
  | a :: l' => body a >> for_each body l'
  end.

(** Property reads.  [this.p] falls back on the prototype. *)
Definition this_get (p : string) (w : World) : value :=
  match assoc p (this w) with
  | Some v => v
  | None => read (assoc p (proto w))
  end.

Definition window_get (p : string) (w : World) : value := read (assoc p (window w)).

Definition this_put (p : string) (v : value) : World -> World :=
  set_this (update p v).

Definition window_put (p : string) (v : value) : World -> World :=
  set_window (update p v).

Definition context_of (w : World) : ctx :=
  if truthy (this_get "_isGlobal" w) then CWindow else CThis.

Definition ctx_get (c : ctx) (p : string) (w : World) : value :=
  match c with CWindow => window_get p w | CThis => this_get p w end.

Definition ctx_put (c : ctx) (p : string) (v : value) : World -> World :=
  match c with CWindow => window_put p v | CThis => this_put p v end.

(** The items of an array, and the entries of an object as [for ... in]
    visits them; [for ... in] over [null] or [undefined] visits nothing.
    What is not an array has no items: the routines that loop over one
    check what they are given first, see [forEach] and [remove]. *)
Definition items (v : value) : list value :=
  match v with VArr l => l | _ => [] end.

Definition entries (v : value) : list (string * value) :=
  match v with VObj o => o | _ => [] end.

(** The names held by an array of names such as [_preloadFuncs] (only
    strings are ever registered there). *)
Fixpoint names (l : list value) : list string :=
  match l with
  | [] => []
  | VStr s :: l' => s :: names l'
  | _ :: l' => names l'
  end.

(** [v.forEach(body)] over an array of names.  Among the values of the
    model only an array has the method: [undefined] and [null] have no
    property at all, and the call on any other value finds no function; a
    TypeError either way. *)
Definition forEach (v : value) (body : string -> M unit) : M unit :=
  match v with
  | VArr l => for_each body (names l)
  | _ => throw
  end.

(** Strings hold the UTF-8 form of a JavaScript string, whose positions
    count UTF-16 code units: a character of one to three bytes is one
    unit, a character of four bytes is a pair of them. *)
Definition utf8_width (a : ascii) : nat :=
  let n := N_of_ascii a in
  if (n <? 128)%N then 1
  else if (n <? 224)%N then 2
  else if (n <? 240)%N then 3
  else 4.

Fixpoint skip (n : nat) (s : string) : string :=
  match n, s with
  | S n', String _ s' => skip n' s'
  | _, _ => s
  end.

(** The second unit of the pair a four-byte character makes, followed by
    what comes after the character: a lone surrogate, written in the same
    three-byte form (it carries the low ten bits of the code point). *)
Definition low_half (s : string) : string :=
  match s with
  | String _ (String _ (String b2 (String b3 rest))) =>
      String (ascii_of_N 237)
        (String (ascii_of_N (N.lor 176 (N.land (N_of_ascii b2) 15)))
           (String b3 rest))
  | _ => EmptyString
  end.

(** [p.substring(2)]: [p] less its first two code units. *)
Definition substring2 (p : string) : string :=
  match p with
  | EmptyString => EmptyString
  | String a _ =>
      if (utf8_width a =? 4)%nat then skip 4 p
      else
        let q := skip (utf8_width a) p in
        match q with
        | EmptyString => EmptyString
        | String b _ =>
            if (utf8_width b =? 4)%nat then low_half q
            else skip (utf8_width b) q
        end
  end.

(** ** Browser primitives *)

(** The handle a value denotes, when it is one. *)
Definition handle_of (v : value) : option Z :=
  match v with
  | VNum (Fin q) => if Pos.eqb (Qden q) 1 then Some (Qnum q) else None
  | _ => None
  end.

Definition disarm (id : Z) (l : list timer) : list timer :=
  List.filter (fun t => negb (Z.eqb (t_id t) id)) l.

(** [clearInterval(v)] and [clearTimeout(v)]: timeouts and intervals share
    one pool of handles, either call cancels either kind. *)
Definition clearTimer (v : value) : M unit :=
  match handle_of v with
  | Some id => emit (EvClear id) >> modify (set_timers (disarm id))
  | None => ret tt
  end.

Definition arm (repeat : bool) (cb : callback) (delay : number) : M Z :=
  let* id := gets next_timer in
  emit (if repeat then EvSetInterval id else EvSetTimeout id) >>
  modify (fun w => set_next_timer (id + 1)
                     (set_timers (fun l => l ++ [Timer id repeat cb delay]) w)) >>
  ret id.

Definition setTimeout := arm false.

Definition setInterval := arm true.

Definition same_listener (a b : listener) : bool :=
  bool_decide (a = b).

Definition addEventListener (t : target) (ev : string) (h : fn) : M unit :=
  emit (EvSubscribe t ev h) >>
  modify (set_listeners (fun l =>
    if existsb (same_listener (t, ev, h)) l then l else l ++ [(t, ev, h)])).

(** A callback that is not a function (the [null] of an unused slot)
    matches no registration. *)
Definition removeEventListener (t : target) (ev : string) (h : value) : M unit :=
  emit (EvUnsubscribe t ev h) >>
  match h with
  | VFun f =>
      modify (set_listeners (List.filter (fun l => negb (same_listener (t, ev, f) l))))
  | _ => ret tt
  end.

(** [n.parentNode.removeChild(n)] *)
Definition removeChild (n : node) : M unit :=
  emit (EvDetach n) >> modify (set_parentNode (without n)).

(** [delete window[p]] *)
Definition delete_global (p : string) : M unit :=
  emit (EvDelete p) >> modify (set_window (without p)).

(** [f.bind(this)] *)
Definition bind_this (f : fn) : M fn :=
  let* k := gets next_bound in
  modify (set_next_bound (S k)) >>
  ret (Bound f k).

(** ** Drawing-state scope *)

Definition styles (w : World) : list value := items (this_get "styles" w).

(** Modelled from the spec: [push] is a method of another module (absent
    from core.js); the spec describes push and pop as saving and restoring
    a drawing-state checkpoint.  The checkpoints are kept on [this.styles],
    the stack core.js creates empty. *)
Definition push : M unit :=
  emit EvPush >>
  modify (fun w => this_put "styles" (VArr (styles w ++ [VObj []])) w).

(** Modelled from the spec: [pop], the counterpart of [push] (absent from
    core.js), restores the last checkpoint and takes it off the stack. *)
Definition pop : M unit :=
  emit EvPop >>
  modify (fun w => this_put "styles" (VArr (removelast (styles w))) w).

(** Modelled from the spec: [scale] is a transform primitive of another
    module; here it only leaves its mark on the trace. *)
Definition scale (x y : value) : M unit := emit (EvScale x y).

(** ** The closures of the constructor *)

Section Controller.

(** Code outside core.js: user hooks, library methods, add-on hooks.  A
    call runs in the world and either returns or throws. *)
Variable extern : fn -> list value -> World -> result value * World.

(** The load calls a preload hook makes, in order: the capability it
    calls and the path it passes. *)
Variable preload_calls : fn -> list (string * value).

(** Whether a loader, called on a path, invokes its completion callback
    before it returns (otherwise the callback runs later, from the event
    loop). *)
Variable completes_inline : string -> value -> bool.

Definition call (f : fn) (args : list value) : M value :=
  fun w => let '(r, w') := extern f args w in (r, w', [EvCall f]).

(** Calling what is not a function is a TypeError. *)
Definition call_value (v : value) (args : list value) : M value :=
  match v with
  | VFun f => call f args
  | _ => throw
  end.

Definition call_method (name : string) (args : list value) : M value :=
  let* f := gets (this_get name) in
  call_value f args.

Definition _setProperty (prop : string) (v : value) : M unit :=
  modify (this_put prop v) >>
  let* g := gets (this_get "_isGlobal") in
  when (truthy g) (modify (window_put prop v)).

(** The loop over the live collection [canvases]: dropping the class
    takes the element out of the collection while [i] moves on. *)
Fixpoint unhide_from (fuel i : nat) (w : World) : World :=
  match fuel with
  | O => w
  | S fuel' =>
      match hidden w !! i with
      | None => w
      | Some k =>
          unhide_from fuel' (S i)
            (set_hidden (List.filter (fun n => negb (Nat.eqb n k)))
               (set_visibility (update k "") w))
      end
  end.

Definition _setup : M unit :=
  emit (EvEnter "_setup") >>
  let* context := gets context_of in
  let* pre := gets (ctx_get context "preload") in
  when (is_function pre)
    (let* funcs := gets (this_get "_preloadFuncs") in
     forEach funcs
       (fun f =>
          let* orig := gets (fun w => read (assoc f (proto w))) in
          modify (ctx_put context f orig))) >>
  let* su := gets (ctx_get context "setup") in
  when (is_function su) (call_value su [] >> ret tt) >>
  modify (fun w => unhide_from (length (hidden w)) 0 w) >>
  modify (this_put "_setupDone" (VBool true)).

Definition _draw : M unit :=
  emit (EvEnter "_draw") >>
  let* userSetup := gets (fun w => js_or (this_get "setup" w) (window_get "setup" w)) in
  let* now := gets clock in
  let* last := gets (this_get "_lastFrameTime") in
  modify (this_put "_frameRate"
            (VNum (js_div (num 1000) (js_sub (num now) (to_number last))))) >>
  modify (this_put "_lastFrameTime" (VNum (num now))) >>
  let* userDraw := gets (fun w => js_or (this_get "draw" w) (window_get "draw" w)) in
  let* loop := gets (this_get "_loop") in
  when (truthy loop)
    (let* d := gets (this_get "_drawInterval") in
     when (truthy d) (clearTimer d) >>
     let* rate := gets (this_get "_targetFrameRate") in
     let* id := setTimeout DrawCycle (js_div (num 1000) (to_number rate)) in
     modify (this_put "_drawInterval" (VNum (num id)))) >>
  when (is_function userDraw)
    (push >>
     when (is_undefined userSetup)
       (let* d := gets (this_get "_pixelDensity") in scale d d) >>
     call_value userDraw [] >>
     pop).

(** The body of the frame-count ticker. *)
Definition frame_tick : M unit :=
  let* c := gets (this_get "frameCount") in
  _setProperty "frameCount" (VNum (js_add (to_number c) (num 1))).

Definition _runFrames : M unit :=
  emit (EvEnter "_runFrames") >>
  let* u := gets (this_get "_updateInterval") in
  when (truthy u) (clearTimer u) >>
  let* rate := gets (this_get "_targetFrameRate") in
  let* id := setInterval FrameTick (js_div (num 1000) (to_number rate)) in
  modify (this_put "_updateInterval" (VNum (num id))).

(** A timer goes off.  A timeout is spent by firing; an interval stays
    armed.  The draw cycle asks for an animation frame, which calls
    [_draw]. *)
Definition fire (t : timer) : M unit :=
  when (negb (t_repeat t)) (modify (set_timers (disarm (t_id t)))) >>
  match t_callback t with
  | DrawCycle => _draw
  | FrameTick => frame_tick
  end.

(** The completion callback [_preload] hands to the loader. *)
Definition preload_done (context : ctx) : M unit :=
  emit EvLoaded >>
  let* c := gets (ctx_get context "_preloadCount") in
  _setProperty "_preloadCount" (VNum (js_sub (to_number c) (num 1))) >>
  let* c' := gets (ctx_get context "_preloadCount") in
  when (is_number_zero c') (_setup >> _runFrames >> _draw).

Definition _preload (func : string) (path : value) : M value :=
  let* context := gets context_of in
  let* c := gets (ctx_get context "_preloadCount") in
  _setProperty "_preloadCount" (VNum (js_add (to_number c) (num 1))) >>
  let* loader := gets (fun w => read (assoc func (proto w))) in
  let* id := gets next_load in
  modify (set_next_load (S id)) >>
  emit (EvLoad id func) >>
  let* r := call_value loader [path] in
  (if completes_inline func path
   then preload_done context
   else modify (set_pending (fun l => l ++ [Load id func path context]))) >>
  ret r.

(** A load in flight completes: its callback runs. *)
Definition complete (id : nat) : M unit :=
  let* l := gets pending in
  match List.find (fun x => Nat.eqb (l_id x) id) l with
  | Some x =>
      modify (set_pending (List.filter (fun x => negb (Nat.eqb (l_id x) id)))) >>
      preload_done (l_context x)
  | None => ret tt
  end.

(** [context[cap](path)], as the preload hook calls it. *)
Definition call_capability (cap : string) (path : value) : M value :=
  let* context := gets context_of in
  let* f := gets (ctx_get context cap) in
  match f with
  | VFun (Wrapper func) => _preload func path
  | _ => call_value f [path]
  end.

(** [userPreload()] *)
Definition run_preload (hook : value) : M unit :=
  match hook with
  | VFun h =>
      emit (EvCall h) >>
      for_each (fun c => call_capability (fst c) (snd c) >> ret tt) (preload_calls h)
  | _ => throw
  end.

Definition _start : M unit :=
  emit (EvEnter "_start") >>
  let* un := gets (this_get "_userNode") in
  when (truthy un && is_string un)
    (let* n := gets (fun w => match un with
                              | VStr s => from_option VNode VNull (assoc s (ids w))
                              | _ => VNull
                              end) in
     modify (this_put "_userNode" n)) >>
  let* size := gets (this_get "_defaultCanvasSize") in
  match size with
  | VUndef | VNull => throw
  | _ =>
      call_method "createCanvas"
        [obj_get "width" (entries size); obj_get "height" (entries size); VBool true] >>
      let* userPreload :=
        gets (fun w => js_or (this_get "preload" w) (window_get "preload" w)) in
      let* context := gets context_of in
      if truthy userPreload then
        (let* funcs := gets (this_get "_preloadFuncs") in
         forEach funcs (fun f => modify (ctx_put context f (VFun (Wrapper f))))) >>
        run_preload userPreload >>
        let* c := gets (this_get "_preloadCount") in
        when (is_number_zero c) (_setup >> _runFrames >> _draw)
      else
        _setup >> _runFrames >> _draw
  end.

(** One turn of the loop over [this._elements]. *)
Definition remove_element (e : value) : M unit :=
  match e with
  | VUndef | VNull => throw
  | _ =>
      match obj_get "elt" (entries e) with
      | VNode n =>
          let* par := gets (fun w => assoc n (parentNode w)) in
          when (bool_decide (is_Some par)) (removeChild n) >>
          for_each (fun h => removeEventListener (TNode n) (fst h) (snd h))
                   (entries (obj_get "_events" (entries e)))
      | _ => throw
      end
  end.

(** [for (var i = 0; i < els.length; i++)] with [remove_element] as its
    body.  Reading [length] off [undefined] or [null] is a TypeError; an
    array gives its items; a string that is not empty has a first
    character, which has no [elt], so that the first turn is a TypeError; a
    number or a boolean has no [length] and the loop makes no turn.  An
    object, a function or a node is taken to have no [length] either:
    array-likes other than arrays and strings are not told apart. *)
Definition remove_elements (els : value) : M unit :=
  match els with
  | VUndef | VNull => throw
  | VStr s => when (negb (String.eqb s "")) throw
  | _ => for_each remove_element (items els)
  end.

Definition remove : M unit :=
  let* cur := gets (this_get "_curElement") in
  when (truthy cur)
    (modify (this_put "_loop" (VBool false)) >>
     let* d := gets (this_get "_drawInterval") in
     when (truthy d) (clearTimer d) >>
     let* u := gets (this_get "_updateInterval") in
     when (truthy u) (clearTimer u) >>
     let* evs := gets (this_get "_events") in
     for_each (fun h => removeEventListener TWindow (fst h) (snd h)) (entries evs) >>
     let* els := gets (this_get "_elements") in
     remove_elements els >>
     let* hooks := gets (this_get "_removeFuncs") in
     forEach hooks (fun f => call_method f [] >> ret tt) >>
     let* g := gets (this_get "_isGlobal") in
     when (truthy g)
       (let* caps := gets proto in
        for_each (fun c => delete_global (fst c)) caps >>
        let* own := gets this in
        for_each (fun c => delete_global (fst c)) own)).

(** *** The constructor *)

(** [require('constants')] *)
Variable constants : list (string * value).

(** The interaction events of the literal [this._events]. *)
Definition event_names : list string :=
  ["mousemove"; "mousedown"; "mouseup"; "click"; "mousewheel"; "mouseover";
   "mouseout"; "keydown"; "keyup"; "keypress"; "touchstart"; "touchmove";
   "touchend"].

Definition init (node : value) : M unit :=
  modify (this_put "_setupDone" (VBool false)) >>
  let* ratio := gets (window_get "devicePixelRatio") in
  modify (this_put "_pixelDensity" (js_or ratio (VNum (num 1)))) >>
  let* now := gets clock in
  modify (this_put "_startTime" (VNum (num now))) >>
  modify (this_put "_userNode" node) >>
  modify (this_put "_curElement" VNull) >>
  modify (this_put "_elements" (VArr [])) >>
  modify (this_put "_preloadCount" (VNum (num 0))) >>
  modify (this_put "_updateInterval" (VNum (num 0))) >>
  modify (this_put "_isGlobal" (VBool false)) >>
  modify (this_put "_loop" (VBool true)) >>
  modify (this_put "styles" (VArr [])) >>
  modify (this_put "_defaultCanvasSize"
            (VObj [("width", VNum (num 100)); ("height", VNum (num 100))])) >>
  modify (this_put "_events" (VObj (List.map (fun e => (e, VNull)) event_names))) >>
  for_each (fun m => modify (this_put m (VFun (Core m))))
    ["_start"; "_preload"; "_setup"; "_draw"; "_runFrames"; "_setProperty"; "remove"].

(** One turn of the loop over [p5.prototype] in Global mode. *)
Definition expose_capability (p : string) : M unit :=
  let* v := gets (fun w => read (assoc p (proto w))) in
  match v with
  | VFun f =>
      let ev := substring2 p in
      let* evs := gets (this_get "_events") in
      match evs with
      | VUndef | VNull => throw
      | _ =>
          when (negb (obj_has ev (entries evs)))
            (let* b := bind_this f in modify (window_put p (VFun b)))
      end
  | _ => modify (window_put p v)
  end.

Definition expose_capabilities : M unit :=
  let* caps := gets proto in
  for_each (fun c => expose_capability (fst c)) caps.

Definition expose_own : M unit :=
  let* own := gets this in
  for_each (fun c => modify (window_put (fst c) (snd c))) own.

(** The branch taken when no sketch closure is given. *)
Definition go_global : M unit :=
  modify (this_put "_isGlobal" (VBool true)) >>
  expose_capabilities >>
  expose_own.

(** One turn of the loop that binds the [on<event>] hooks. *)
Definition bind_event (e : string) : M unit :=
  let* f := gets (this_get ("on" ++ e)%string) in
  when (truthy f)
    (match f with
     | VFun g =>
         let* m := bind_this g in
         addEventListener TWindow e m >>
         modify (fun w => this_put "_events"
                            (VObj (update e (VFun m) (entries (this_get "_events" w)))) w)
     | _ => throw
     end).

(** [new p5(sketch, node)].  The sketch closure reaches the instance it
    is given through the world. *)
Definition p5 (sketch node : value) : M unit :=
  init node >>
  for_each (fun c => modify (set_proto (update (fst c) (snd c)))) constants >>
  (if truthy sketch then call_value sketch [] >> ret tt else go_global) >>
  let* evs := gets (this_get "_events") in
  for_each (fun c => bind_event (fst c)) (entries evs) >>
  addEventListener TWindow "focus" (Core "focus") >>
  addEventListener TWindow "blur" (Core "blur") >>
  let* r := gets ready in
  if r : bool then _start
  else let* m := bind_this (Core "_start") in
       addEventListener TWindow "load" m.

End Controller.

Arguments call extern f args w /.

Arguments call_value extern v args w /.

(** ** The registries of the prototype

    [p5.prototype._registerPreloadFunc] and [_registerRemoveFunc] push a
    name on the array the prototype holds under [_preloadFuncs] and
    [_removeFuncs]; pushing on what is not an array is a TypeError.  The
    instances read these arrays through the prototype. *)

Definition register (registry : string) (func : value) : M unit :=
  let* r := gets (fun w => read (assoc registry (proto w))) in
  match r with
  | VArr l => modify (set_proto (update registry (VArr (l ++ [func]))))
  | _ => throw
  end.

Definition _registerPreloadFunc : value -> M unit := register "_preloadFuncs".

Definition _registerRemoveFunc : value -> M unit := register "_removeFuncs".

(** ** Notions the properties are stated with *)

(** *** The draw tick *)

(** The hooks a draw tick looks up. *)
Definition user_draw (w : World) : value :=
  js_or (this_get "draw" w) (window_get "draw" w).

Definition user_setup (w : World) : value :=
  js_or (this_get "setup" w) (window_get "setup" w).

(** The frame rate a draw tick measures, and the world once it is
    recorded. *)
Definition measured (w : World) : number :=
  js_div (num 1000) (js_sub (num (clock w)) (to_number (this_get "_lastFrameTime" w))).

Definition stamp (w : World) : World :=
  this_put "_lastFrameTime" (VNum (num (clock w)))
    (this_put "_frameRate" (VNum (measured w)) w).

(** The body of [if (this._loop) { ... }]. *)
Definition rearm : M unit :=
  let* d := gets (this_get "_drawInterval") in
  when (truthy d) (clearTimer d) >>
  let* rate := gets (this_get "_targetFrameRate") in
  let* id := setTimeout DrawCycle (js_div (num 1000) (to_number rate)) in
  modify (this_put "_drawInterval" (VNum (num id))).

Definition pushed (w : World) : World :=
  this_put "styles" (VArr (styles w ++ [VObj []])) w.

Definition popped (w : World) : World :=
  this_put "styles" (VArr (removelast (styles w))) w.

Definition is_pop (e : event) : bool :=
  match e with EvPop => true | _ => false end.

(** *** The frame-count ticker *)

(** What happens to a running sketch: the ticker fires, or a draw tick runs
    after some time has passed. *)
Inductive step :=
| Tick
| Draw (elapsed : Z).

Definition run_step (extern : fn -> list value -> World -> result value * World)
    (s : step) (w : World) : World :=
  match s with
  | Tick => world_of (frame_tick w)
  | Draw elapsed => world_of (_draw extern (set_clock (clock w + elapsed) w))
  end.

Definition run_steps extern (sched : list step) (w : World) : World :=
  fold_left (fun w s => run_step extern s w) sched w.

Fixpoint ticks (sched : list step) : Z :=
  match sched with
  | [] => 0
  | Tick :: sched' => 1 + ticks sched'
  | Draw _ :: sched' => ticks sched'
  end.

(** The armed frame-count tickers. *)
Definition tickers (l : list timer) : list timer :=
  List.filter (fun t => bool_decide (t_callback t = FrameTick)) l.

(** Timer handles are positive and below the next one to be given out,
    and an armed ticker is the one [_updateInterval] records. *)
Definition ticker_recorded (w : World) : Prop :=
  0 < next_timer w /\
  (forall t, In t (timers w) -> 0 < t_id t < next_timer w) /\
  (forall t, In t (timers w) -> t_callback t = FrameTick ->
             this_get "_updateInterval" w = VNum (num (t_id t))).

(** *** Binding the capability table in Global mode *)

(** The test the constructor applies to the name of a function-valued
    capability: the name, less its first two characters, is an event of
    [this._events]; so [on<event>] names an interaction-event hook. *)
Definition reserved_hook_name (w : World) (p : string) : bool :=
  obj_has (substring2 p) (entries (this_get "_events" w)).

(** Modelled from the spec: the reserved interaction-event hook names are
    the names of the hooks of the interaction events, [on<event>]. *)
Definition interaction_hook_name (p : string) : bool :=
  existsb (fun e => String.eqb p ("on" ++ e)) event_names.

(** The instance when the constructor comes to the test of [sketch]: it
    is initialised and the constants are on the capability table. *)
Definition initialised (constants : list (string * value)) (node : value)
    (w : World) : World :=
  world_of ((init node >>
             for_each (fun c => modify (set_proto (update (fst c) (snd c)))) constants) w).

(** What the capability [p] of value [v] has become on the global
    namespace of [w'], compared with the one of [w]. *)
Definition exposed_as (w w' : World) (p : string) (v : value) : Prop :=
  (is_function v = true -> reserved_hook_name w p = true ->
   assoc p (window w') = assoc p (window w)) /\
  (forall f, v = VFun f -> reserved_hook_name w p = false ->
   exists k, assoc p (window w') = Some (VFun (Bound f k))) /\
  (is_function v = false -> assoc p (window w') = Some v).

(** The state of the loop over the capability table: the table and the
    instance are untouched, and no reserved function-valued name has been
    written. *)
Definition exposing (w0 w : World) : Prop :=
  proto w = proto w0 /\ this w = this w0 /\
  forall p f, assoc p (proto w0) = Some (VFun f) -> reserved_hook_name w0 p = true ->
              assoc p (window w) = assoc p (window w0).

(** *** Teardown *)

(** [w'] is no less torn down than [w]: no listener and no parent link has
    been added, the binding mode is the same, and no capability and no own
    property of the instance has gone. *)
Definition tidy (w w' : World) : Prop :=
  (forall x, In x (listeners w') -> In x (listeners w)) /\
  (forall n, assoc n (parentNode w) = None -> assoc n (parentNode w') = None) /\
  this_get "_isGlobal" w' = this_get "_isGlobal" w /\
  (forall p, is_Some (assoc p (proto w)) -> is_Some (assoc p (proto w'))) /\
  (forall p, is_Some (assoc p (this w)) -> is_Some (assoc p (this w'))).

Definition unsubscribed (x : listener) (w : World) : Prop := ~ In x (listeners w).

Definition detached (n : node) (w : World) : Prop := assoc n (parentNode w) = None.

(** Between [w] and [w'] only registrations, parent links and timers have
    gone. *)
Definition calm (w w' : World) : Prop :=
  tidy w w' /\ this w' = this w /\ proto w' = proto w /\ window w' = window w.

(** What the teardown has done to an element record: its element has no
    parent and none of the handlers it records is subscribed on it. *)
Definition element_removed (e : value) (w : World) : Prop :=
  forall n, obj_get "elt" (entries e) = VNode n ->
    detached n w /\
    forall ev h, In (ev, VFun h) (entries (obj_get "_events" (entries e))) ->
                 unsubscribed (TNode n, ev, h) w.

(** *** Start-up and the preload gate *)

Definition is_setup : event -> bool := is_enter "_setup".

(** The three calls that launch the sketch. *)
Definition launch extern : M unit :=
  _setup extern >> _runFrames >> _draw extern.

(** The state of the gate with [n] loads in flight: the counter reads [n]
    on the instance and on the context, [n] loads are pending, each with
    its own identifier and the context of the instance. *)
Definition gate (n : nat) (w : World) : Prop :=
  this_get "_preloadCount" w = VNum (num (Z.of_nat n)) /\
  ctx_get (context_of w) "_preloadCount" w = VNum (num (Z.of_nat n)) /\
  length (pending w) = n /\
  (forall x, In x (pending w) ->
             l_context x = context_of w /\ (l_id x < next_load w)%nat) /\
  List.NoDup (List.map l_id (pending w)).

(** What code outside core.js leaves alone for the gate to work: the
    counter, the binding mode, the loads in flight. *)
Definition gate_neutral (w w' : World) : Prop :=
  this_get "_preloadCount" w' = this_get "_preloadCount" w /\
  window_get "_preloadCount" w' = window_get "_preloadCount" w /\
  this_get "_isGlobal" w' = this_get "_isGlobal" w /\
  pending w' = pending w /\
  next_load w' = next_load w.

(** The loads in flight complete one after the other, in the order
    [ids]; a callback that throws ends its own turn only. *)
Fixpoint run_completions (extern : fn -> list value -> World -> result value * World)
    (ids : list nat) (w : World) : World * list event :=
  match ids with
  | [] => (w, [])
  | id :: ids' =>
      let '(_, w1, t1) := complete extern id w in
      let '(w2, t2) := run_completions extern ids' w1 in
      (w2, t1 ++ t2)
  end.

(** *** Relations a routine stays within *)

(** However the routine [m] ends, the world it leaves is related by [R]
    to the one it started in and every event of its trace is in [P]. *)
Definition within (R : World -> World -> Prop) (P : event -> Prop) {A} (m : M A) : Prop :=
  forall w r w' t, m w = (r, w', t) -> R w w' /\ Forall P t.

(** *** The set-up routine *)

(** The names registered as preload functions, as the instance reads
    them. *)
Definition loaders (w : World) : list string :=
  names (items (this_get "_preloadFuncs" w)).

(** The loop [context[f] = p5.prototype[f]] over the names [l]. *)
Definition restore_all (c : ctx) (l : list string) (w : World) : World :=
  fold_left (fun w f => ctx_put c f (read (assoc f (proto w))) w) l w.

(** [_setup] cannot put the preload functions back: the context has a
    [preload] function and [_preloadFuncs] is not an array to go through. *)
Definition restore_fails (w : World) : bool :=
  is_function (ctx_get (context_of w) "preload" w) &&
  negb (is_array (this_get "_preloadFuncs" w)).

(** The world once [_setup] has put the preload functions back, which it
    does when the context has a [preload] function. *)
Definition restored (w : World) : World :=
  if is_function (ctx_get (context_of w) "preload" w)
  then restore_all (context_of w) (loaders w) w
  else w.

(** The loop over the hidden canvases. *)
Definition unhidden (w : World) : World := unhide_from (length (hidden w)) 0 w.

(** The items a loop reaches, and the ones it steps over, when each item
    it handles leaves the collection: every other one, from the first. *)
Fixpoint visited {A} (l : list A) : list A :=
  match l with
  | [] => []
  | a :: l' => a :: match l' with [] => [] | _ :: l'' => visited l'' end
  end.

Fixpoint skipped {A} (l : list A) : list A :=
  match l with
  | [] => []
  | _ :: l' => match l' with [] => [] | b :: l'' => b :: skipped l'' end
  end.

(** *** The stages of the teardown *)

(** [remove] first stops the loop, *)
Definition stop_loop : M unit :=
  modify (this_put "_loop" (VBool false)) >>
  (let* d := gets (this_get "_drawInterval") in when (truthy d) (clearTimer d)) >>
  let* u := gets (this_get "_updateInterval") in
  when (truthy u) (clearTimer u).

(** The timers left by [clearTimeout(v)] when [v] is truthy. *)
Definition cleared (v : value) (l : list timer) : list timer :=
  if truthy v then match handle_of v with Some id => disarm id l | None => l end
  else l.

(** The world once the loop is stopped. *)
Definition stopped (w : World) : World :=
  set_timers (fun l => cleared (this_get "_updateInterval" w)
                         (cleared (this_get "_drawInterval" w) l))
    (this_put "_loop" (VBool false) w).

(** then unsubscribes the handlers of [this._events], *)
Definition unsubscribe_all : M unit :=
  let* evs := gets (this_get "_events") in
  for_each (fun h => removeEventListener TWindow (fst h) (snd h)) (entries evs).

(** then removes the elements, calls the removal hooks and, in Global
    mode, clears the global namespace. *)
Definition release (extern : fn -> list value -> World -> result value * World) : M unit :=
  let* els := gets (this_get "_elements") in
  remove_elements els >>
  let* hooks := gets (this_get "_removeFuncs") in
  forEach hooks (fun f => call_method extern f [] >> ret tt) >>
  let* g := gets (this_get "_isGlobal") in
  when (truthy g)
    (let* caps := gets proto in
     for_each (fun c => delete_global (fst c)) caps >>
     let* own := gets this in
     for_each (fun c => delete_global (fst c)) own).

(** *** The draw driver *)

Definition is_push (e : event) : bool :=
  match e with EvPush => true | _ => false end.

Definition is_scale (e : event) : bool :=
  match e with EvScale _ _ => true | _ => false end.

Definition is_any_call (e : event) : bool :=
  match e with EvCall _ => true | _ => false end.

(** The armed timeouts of the draw cycle. *)
Definition drivers (l : list timer) : list timer :=
  List.filter (fun t => bool_decide (t_callback t = DrawCycle)) l.

(** Timer handles are positive and below the next one to be given out,
    and an armed timeout of the draw cycle is the one [_drawInterval]
    records. *)
Definition driver_recorded (w : World) : Prop :=
  0 < next_timer w /\
  (forall t, In t (timers w) -> 0 < t_id t < next_timer w) /\
  (forall t, In t (timers w) -> t_callback t = DrawCycle ->
             this_get "_drawInterval" w = VNum (num (t_id t))).

(** *** The start routine *)

(** The world once [_start] has looked up the node named by
    [_userNode]. *)
Definition resolved (w : World) : World :=
  match this_get "_userNode" w with
  | VStr s =>
      if String.eqb s "" then w
      else this_put "_userNode" (from_option VNode VNull (assoc s (ids w))) w
  | _ => w
  end.

(** The arguments [_start] passes to [createCanvas]. *)
Definition canvas_args (w : World) : list value :=
  let size := this_get "_defaultCanvasSize" w in
  [obj_get "width" (entries size); obj_get "height" (entries size); VBool true].

(** *** The constructor *)

(** The loop of the constructor that binds the [on<event>] hooks. *)
Definition bind_events : M unit :=
  let* evs := gets (this_get "_events") in
  for_each (fun c => bind_event (fst c)) (entries evs).

(** What the constructor does before it looks at [document.readyState],
    and what it does then. *)
Definition construct (extern : fn -> list value -> World -> result value * World)
    (constants : list (string * value)) (sketch node : value) : M unit :=
  init node >>
  for_each (fun c => modify (set_proto (update (fst c) (snd c)))) constants >>
  (if truthy sketch then call_value extern sketch [] >> ret tt else go_global) >>
  bind_events >>
  addEventListener TWindow "focus" (Core "focus") >>
  addEventListener TWindow "blur" (Core "blur").

Definition start_when_ready (extern : fn -> list value -> World -> result value * World)
    (calls : fn -> list (string * value)) (inline : string -> value -> bool) : M unit :=
  let* r := gets ready in
  if r : bool then _start extern calls inline
  else let* m := bind_this (Core "_start") in
       addEventListener TWindow "load" m.

(** The handler recorded for the event [e]. *)
Definition recorded (e : string) (w : World) : value :=
  obj_get e (entries (this_get "_events" w)).

(** *** Relations the routines stay within *)

(** Any event at all. *)
Definition any_event (e : event) : Prop := True.

(** The binding mode is kept and the counting wrappers installed on the
    context [c] for the names [L] stay in place. *)
Definition wrapped (c : ctx) (L : list string) (a b : World) : Prop :=
  this_get "_isGlobal" b = this_get "_isGlobal" a /\
  forall p, In p L -> ctx_get c p a = VFun (Wrapper p) -> ctx_get c p b = VFun (Wrapper p).

(** The instance is not in Global mode, neither the mode nor the registry
    is itself registered as a preload function, and the loads in flight
    were started by the instance. *)
Definition in_instance_mode (w : World) : Prop :=
  truthy (this_get "_isGlobal" w) = false /\
  ~ In "_isGlobal" (loaders w) /\ ~ In "_preloadFuncs" (loaders w) /\
  forall x, In x (pending w) -> l_context x = CThis.

(** From an instance in Instance mode, the mode, the registry and the
    global namespace are as they were, and the loads in flight are still
    the instance's. *)
Definition kept_local (a b : World) : Prop :=
  in_instance_mode a ->
  this_get "_isGlobal" b = this_get "_isGlobal" a /\
  this_get "_preloadFuncs" b = this_get "_preloadFuncs" a /\
  window b = window a /\
  forall x, In x (pending b) -> l_context x = CThis.

(** ** A sample sketch

    A small capability table, the code around it, and a few worlds, used
    to run the routines on concrete inputs. *)

Module Sample.

Definition blank : World :=
  mkWorld [] [] [] [] [] [] [] [] [] 1 [] 0 0 1000 true.

Definition lib : list (string * value) :=
    [("frameCount", VNum (num 0)); ("_targetFrameRate", VNum (num 60));
     ("_preloadFuncs", VArr [VStr "loadJSON"; VStr "loadImage"]);
     ("_removeFuncs", VArr [VStr "_stopSound"]);
     ("createCanvas", VFun (Lib "createCanvas"));
     ("loadImage", VFun (Lib "loadImage"));
     ("loadJSON", VFun (Lib "loadJSON"));
     ("onmousedown", VFun (Lib "onmousedown"));
     ("_stopSound", VFun (Lib "_stopSound"));
     ("rect", VFun (Lib "rect"))].

Definition canvas : value :=
  VObj [("elt", VNode 1%nat);
        ("_events", VObj [("click", VFun (User 7))])].

(** [createCanvas] makes node 1 under node 0 and records it; the hook
    [User 2] throws; [User 3] is a setup hook that calls [noLoop()];
    everything else returns at once. *)
Definition ext (f : fn) (args : list value) (w : World) : result value * World :=
  match f with
  | Lib "createCanvas" =>
      (Ok VUndef,
       this_put "_curElement" canvas
         (this_put "_elements" (VArr (items (this_get "_elements" w) ++ [canvas]))
            (set_listeners (fun l => l ++ [(TNode 1%nat, "click", User 7)])
               (set_parentNode (update 1%nat 0%nat) w))))
  | User 2 => (Throw, w)
  | User 3 => (Ok VUndef, this_put "_loop" (VBool false) w)
  | _ => (Ok VUndef, w)
  end.

(** A library around the core that touches nothing: every call returns
    at once, except the hook [User 2], which throws. *)
Definition quiet (f : fn) (args : list value) (w : World) : result value * World :=
  match f with
  | User 2 => (Throw, w)
  | _ => (Ok VUndef, w)
  end.

(** The preload hook [User 0] loads one image, [User 5] loads two files. *)
Definition calls (f : fn) : list (string * value) :=
  match f with
  | User 0 => [("loadImage", VStr "a.png")]
  | User 5 => [("loadImage", VStr "a.png"); ("loadJSON", VStr "b.json")]
  | _ => []
  end.

Definition inline (func : string) (path : value) : bool := true.
Definition deferred (func : string) (path : value) : bool := false.

(** The page before the sketch is constructed. *)
Definition page : World := set_proto (fun _ => lib) blank.

(** A global-mode sketch with [setup] and [draw], constructed and
    started. *)
Definition boot : World :=
  set_window (update "draw" (VFun (User 1)))
    (set_window (update "setup" (VFun (User 4))) page).

Definition running : World :=
  Eval vm_compute in
    world_of (p5 ext calls deferred [("PI", VNum (num 3))] VUndef VUndef boot).


End Sample.

Module DrawSamples.
Import Sample.

(** The running sketch at a later time, with a draw hook that throws. *)
Definition crashing : World :=
  set_clock 1016 (set_window (update "draw" (VFun (User 2))) running).

(** The running sketch, paused. *)
Definition paused : World :=
  set_clock 1016 (this_put "_loop" (VBool false) running).

(** The running sketch, 16 ms after its first draw tick. *)
Definition later : World := set_clock 1016 running.

End DrawSamples.

Module GlobalSamples.
Import Sample.

(** The instance as the constructor has just initialised it, on the
    sample page. *)
Definition fresh : World := Eval vm_compute in world_of (init VUndef page).

(** The sample page with one more capability, a function whose name ends
    like the hook of [click] without being a hook. *)
Definition lookalike_page : World :=
  set_proto (update "xxclick" (VFun (Lib "xxclick"))) page.

End GlobalSamples.

Module TeardownSamples.
Import Sample.

(** A library whose removal hook [_stopSound] drops the registrations for
    [blur]; everything else returns at once. *)
Definition releasing (f : fn) (args : list value) (w : World) : result value * World :=
  if bool_decide (f = Lib "_stopSound")
  then (Ok VUndef,
        set_listeners
          (List.filter (fun l : listener => negb (String.eqb (snd (fst l)) "blur"))) w)
  else (Ok VUndef, w).

End TeardownSamples.

Module StartSamples.
Import Sample.

(** An instance-mode sketch, constructed before the page is ready, on a
    page where some other script has defined a global [preload] that loads
    an image through the instance. *)
Definition foreign_preload : World :=
  Eval vm_compute in
    world_of (p5 ext calls deferred [] (VFun (User 9)) VUndef
                (mkWorld [] lib [("preload", VFun (User 0))] [] [] [] [] [] [] 1 [] 0 0
                   1000 false)).

(** A global-mode sketch with [setup] and [draw] and no preload hook,
    constructed before the page is ready. *)
Definition waiting : World :=
  Eval vm_compute in
    world_of (p5 ext calls deferred [] VUndef VUndef
                (mkWorld [] lib [("setup", VFun (User 4)); ("draw", VFun (User 1))]
                   [] [] [] [] [] [] 1 [] 0 0 1000 false)).

(** The same with a preload hook that loads one image. *)
Definition preloading : World :=
  Eval vm_compute in
    world_of (p5 ext calls deferred [] VUndef VUndef
                (mkWorld [] lib
                   [("preload", VFun (User 0)); ("setup", VFun (User 4));
                    ("draw", VFun (User 1))]
                   [] [] [] [] [] [] 1 [] 0 0 1000 false)).

End StartSamples.

Module SetupSamples.

(** The sample sketch with a preload hook, before it starts, on a page
    with three hidden canvases. *)
Definition three_hidden : World :=
  set_hidden (fun _ => [1; 2; 3]%nat)
    (set_visibility (fun _ => [(1, "hidden"); (2, "hidden"); (3, "hidden")]%nat)
       StartSamples.preloading).

(** The same sketch, on a prototype that has lost [_preloadFuncs]. *)
Definition no_registry : World :=
  set_proto (without "_preloadFuncs") three_hidden.

End SetupSamples.

Module TickSamples.

(** The running sketch, 16 ms after its first draw tick, without its
    setup hook, and without its draw hook. *)
Definition no_setup : World := set_window (without "setup") DrawSamples.later.

Definition no_draw : World := set_window (without "draw") DrawSamples.later.

End TickSamples.

Module PreloadSamples.

(** The sample sketch, before it starts, with a preload hook that loads
    nothing. *)
Definition idle_hook : World :=
  window_put "preload" (VFun (User 6)) StartSamples.waiting.

End PreloadSamples.

Module RegistrySamples.

(** A preload hook that loads a file through [rect]; the sample sketch
    with that hook, before [rect] is registered as a preload function and
    after; the running sketch with [rect] registered as a removal hook. *)
Definition calls (f : fn) : list (string * value) :=
  match f with
  | User 8 => [("rect", VStr "a.txt")]
  | _ => []
  end.

Definition before : World :=
  window_put "preload" (VFun (User 8)) StartSamples.waiting.

Definition registered : World :=
  Eval vm_compute in world_of (_registerPreloadFunc (VStr "rect") before).

Definition with_hook : World :=
  Eval vm_compute in world_of (_registerRemoveFunc (VStr "rect") Sample.running).

End RegistrySamples.

Module ConstructorSamples.

(** A page that is still loading, with the [setup] and [draw] of a
    global-mode sketch; the fresh instance once Global mode has exposed
    it. *)
Definition loading : World :=
  mkWorld [] Sample.lib [("setup", VFun (User 4)); ("draw", VFun (User 1))]
    [] [] [] [] [] [] 1 [] 0 0 1000 false.

Definition exposed : World :=
  Eval vm_compute in world_of (go_global GlobalSamples.fresh).

End ConstructorSamples.

(** * Properties *)

Section DictFacts.
Context {K V : Type} `{EqDecision K}.

Lemma assoc_update (k k' : K) (v : V) (d : list (K * V)) :
  assoc k (update k' v d) = if decide (k' = k) then Some v else assoc k d.
Proof.
  induction d as [|[k0 v0] d IH]; cbn.
  - reflexivity.
  - destruct (decide (k0 = k')) as [->|Hne]; cbn.
    + destruct (decide (k' = k)); reflexivity.
    + rewrite IH. destruct (decide (k0 = k)) as [->|]; [|reflexivity].
      destruct (decide (k' = k)); [congruence|reflexivity].
Qed.

Lemma assoc_without (k k' : K) (d : list (K * V)) :
  assoc k (without k' d) = if decide (k' = k) then None else assoc k d.
Proof.
  induction d as [|[k0 v0] d IH]; cbn.
  - destruct (decide (k' = k)); reflexivity.
  - destruct (decide (k0 = k')) as [->|Hne]; cbn.
    + rewrite IH. destruct (decide (k' = k)); reflexivity.
    + rewrite IH. destruct (decide (k0 = k)) as [->|]; [|reflexivity].
      destruct (decide (k' = k)); [congruence|reflexivity].
Qed.

Lemma assoc_In (k : K) (v : V) (d : list (K * V)) : assoc k d = Some v -> In (k, v) d.
Proof.
  induction d as [|[k0 v0] d IH]; cbn; [discriminate|].
  destruct (decide (k0 = k)) as [->|]; [intros [= ->]; auto|auto].
Qed.

Lemma In_assoc (k : K) (v : V) (d : list (K * V)) : In (k, v) d -> exists v', assoc k d = Some v'.
Proof.
  induction d as [|[k0 v0] d IH]; cbn; [contradiction|].
  intros [[= -> ->]|Hin].
  - destruct (decide (k = k)); [eauto|contradiction].
  - destruct (decide (k0 = k)); [eauto|auto].
Qed.

End DictFacts.

Lemma run_parts {A} (x : result A * World * list event) :
  x = (outcome_of x, world_of x, trace_of x).
Proof. destruct x as [[r w] t]. reflexivity. Qed.

(** The sample sketch is what the constructor and [_start] make of the
    sample page. *)
Lemma sample_running_is_started :
  p5 Sample.ext Sample.calls Sample.deferred [("PI", VNum (num 3))] VUndef VUndef
    Sample.boot
  = (Ok tt, Sample.running,
     [EvSubscribe TWindow "mousedown" (Bound (Lib "onmousedown") 5);
      EvSubscribe TWindow "focus" (Core "focus");
      EvSubscribe TWindow "blur" (Core "blur");
      EvEnter "_start"; EvCall (Lib "createCanvas");
      EvEnter "_setup"; EvCall (User 4);
      EvEnter "_runFrames"; EvSetInterval 1;
      EvEnter "_draw"; EvSetTimeout 2; EvPush; EvCall (User 1); EvPop]).
Proof. vm_compute. reflexivity. Qed.

(** ** Reasoning about runs *)

Lemma bind_ok {A B} (m : M A) (k : A -> M B) w b w' tr :
  bind m k w = (Ok b, w', tr) ->
  exists a w1 t1 t2,
    m w = (Ok a, w1, t1) /\ k a w1 = (Ok b, w', t2) /\ tr = t1 ++ t2.
Proof.
  unfold bind. destruct (m w) as [[[a|] w1] t1]; [|discriminate].
  destruct (k a w1) as [[r w2] t2] eqn:Hk. intros [= -> -> <-].
  exists a, w1, t1, t2. auto.
Qed.

Lemma bind_inv {A B} (m : M A) (k : A -> M B) w r w' tr :
  bind m k w = (r, w', tr) ->
  (exists a w1 t1 t2,
     m w = (Ok a, w1, t1) /\ k a w1 = (r, w', t2) /\ tr = t1 ++ t2) \/
  (m w = (Throw, w', tr) /\ r = Throw).
Proof.
  unfold bind. destruct (m w) as [[[a|] w1] t1].
  - destruct (k a w1) as [[r2 w2] t2] eqn:Hk. intros [= <- <- <-].
    left. exists a, w1, t1, t2. auto.
  - intros [= <- <- <-]. right. auto.
Qed.

Lemma run_eta {A} (x : result A * World * list event) :
  (let '(r, w, t) := x in (r, w, [] ++ t)) = x.
Proof. destruct x as [[r w] t]. reflexivity. Qed.

(** A step that returns without a trace hands over to what follows. *)
Lemma bind_silent {A B} (m : M A) (k : A -> M B) w a w1 :
  m w = (Ok a, w1, []) -> bind m k w = k a w1.
Proof. intros E. unfold bind. rewrite E. apply run_eta. Qed.

Lemma bind_ok_run {A B} (m : M A) (k : A -> M B) w a w1 t1 :
  m w = (Ok a, w1, t1) ->
  bind m k w = (let '(r, w2, t2) := k a w1 in (r, w2, t1 ++ t2)).
Proof. intros E. unfold bind. rewrite E. reflexivity. Qed.

Lemma bind_gets {A B} (f : World -> A) (k : A -> M B) w :
  bind (gets f) k w = k (f w) w.
Proof. apply bind_silent. reflexivity. Qed.

Lemma bind_modify {B} (f : World -> World) (k : unit -> M B) w :
  bind (modify f) k w = k tt (f w).
Proof. apply bind_silent. reflexivity. Qed.

Lemma count_app p t1 t2 : count p (t1 ++ t2) = (count p t1 + count p t2)%nat.
Proof. induction t1 as [|e t1 IH]; simpl; [reflexivity|]. rewrite IH. lia. Qed.

(** A loop over a registry, or over the elements, that returns was given
    an array to go through, or nothing to go through. *)
Lemma forEach_ok v body w w' tr :
  forEach v body w = (Ok tt, w', tr) ->
  (exists l, v = VArr l) /\ for_each body (names (items v)) w = (Ok tt, w', tr).
Proof.
  destruct v; try discriminate. intros H. split; [eauto|exact H].
Qed.

Lemma remove_elements_ok els w w' tr :
  remove_elements els w = (Ok tt, w', tr) ->
  for_each remove_element (items els) w = (Ok tt, w', tr).
Proof.
  destruct els as [| | | |s| | | |]; try discriminate; try (intros H; exact H).
  unfold remove_elements. destruct (negb (String.eqb s "")); [discriminate|].
  intros H. exact H.
Qed.

(** ** Teardown without an active element *)

(** C9.  When the instance has no active primary element, [remove] does
    nothing at all: it leaves the world (timers, listeners, DOM tree,
    global namespace, instance) as it is and its trace is empty, so no
    timer is cancelled, no handler unsubscribed, no element detached, no
    removal hook called and no global name deleted. *)
Theorem remove_without_element_is_noop extern w :
  truthy (this_get "_curElement" w) = false ->
  remove extern w = (Ok tt, w, []).
Proof.
  intros H. unfold remove, bind, gets, when. rewrite H. reflexivity.
Qed.

Lemma remove_without_element_is_noop_witness :
  truthy (this_get "_curElement" GlobalSamples.fresh) = false /\
  remove Sample.ext GlobalSamples.fresh = (Ok tt, GlobalSamples.fresh, []).
Proof.
  split; [reflexivity|].
  apply (remove_without_element_is_noop Sample.ext GlobalSamples.fresh). reflexivity.
Defined.

(** ** The draw tick *)

Lemma this_get_put p q v w :
  this_get p (this_put q v w) = if decide (q = p) then v else this_get p w.
Proof.
  unfold this_get, this_put, set_this; simpl.
  rewrite assoc_update. destruct (decide (q = p)); reflexivity.
Qed.

Lemma this_get_put_ne p q v w : q <> p -> this_get p (this_put q v w) = this_get p w.
Proof. intros H. rewrite this_get_put. destruct (decide (q = p)); [contradiction|reflexivity]. Qed.

Lemma this_get_put_eq p v w : this_get p (this_put p v w) = v.
Proof. rewrite this_get_put. destruct (decide (p = p)); [reflexivity|contradiction]. Qed.

Lemma rearm_spec w :
  exists w' t id delay,
    rearm w = (Ok tt, w', t ++ [EvSetTimeout id]) /\
    count is_arm t = 0%nat /\
    In (Timer id false DrawCycle delay) (timers w') /\
    this_get "_drawInterval" w' = VNum (num id) /\
    (forall p, p <> "_drawInterval" -> this_get p w' = this_get p w) /\
    window w' = window w.
Proof.
  assert (Hclear : exists w1 t,
    when (truthy (this_get "_drawInterval" w)) (clearTimer (this_get "_drawInterval" w)) w
    = (Ok tt, w1, t) /\ count is_arm t = 0%nat /\ this w1 = this w /\ proto w1 = proto w /\
      window w1 = window w).
  { destruct (truthy (this_get "_drawInterval" w)); cbn [when].
    - unfold clearTimer. destruct (handle_of (this_get "_drawInterval" w)) as [i|].
      + exists (set_timers (disarm i) w), [EvClear i]. auto.
      + exists w, []. auto.
    - exists w, []. auto. }
  destruct Hclear as (w1 & t & E & Ht & Hthis & Hproto & Hwin).
  exists (this_put "_drawInterval" (VNum (num (next_timer w1)))
            (set_next_timer (next_timer w1 + 1)
               (set_timers (fun l => l ++ [Timer (next_timer w1) false DrawCycle
                  (js_div (num 1000) (to_number (this_get "_targetFrameRate" w1)))]) w1))),
    t, (next_timer w1), (js_div (num 1000) (to_number (this_get "_targetFrameRate" w1))).
  split; [|split; [exact Ht|split; [|split; [|split]]]].
  - unfold rearm. unfold bind at 1. unfold gets at 1. unfold bind at 1. rewrite E.
    reflexivity.
  - cbn. apply in_or_app. right. left. reflexivity.
  - apply this_get_put_eq.
  - intros p Hp. rewrite this_get_put_ne by congruence.
    unfold this_get. cbn. rewrite Hthis, Hproto. reflexivity.
  - cbn. exact Hwin.
Qed.

(** What a draw tick comes to: record the frame rate, re-arm when the loop
    flag is set, then, when there is a draw hook, push, scale if there is no
    setup hook, call the hook and pop. *)
Lemma draw_unfold extern w :
  _draw extern w =
  let '(_, w2, t2) :=
    if truthy (this_get "_loop" w) then rearm (stamp w) else (Ok tt, stamp w, []) in
  match user_draw w with
  | VFun g =>
      let t3 :=
        if is_undefined (user_setup w)
        then [EvScale (this_get "_pixelDensity" (pushed w2))
                      (this_get "_pixelDensity" (pushed w2))]
        else [] in
      match extern g [] (pushed w2) with
      | (Ok _, w4) =>
          (Ok tt, popped w4, EvEnter "_draw" :: t2 ++ EvPush :: t3 ++ [EvCall g; EvPop])
      | (Throw, w4) =>
          (Throw, w4, EvEnter "_draw" :: t2 ++ EvPush :: t3 ++ [EvCall g])
      end
  | _ => (Ok tt, w2, EvEnter "_draw" :: t2 ++ [])
  end.
Proof.
  unfold _draw.
  unfold bind at 1. unfold emit at 1.
  do 3 (unfold bind at 1; unfold gets at 1).
  do 2 (unfold bind at 1; unfold modify at 1).
  do 2 (unfold bind at 1; unfold gets at 1).
  fold (measured w). fold (stamp w).
  assert (Hl : this_get "_loop" (stamp w) = this_get "_loop" w).
  { unfold stamp. rewrite !this_get_put. reflexivity. }
  assert (Hd : js_or (this_get "draw" (stamp w)) (window_get "draw" (stamp w)) = user_draw w).
  { unfold stamp. rewrite !this_get_put. reflexivity. }
  rewrite Hl, Hd. fold (user_setup w). fold rearm.
  unfold bind at 1. cbn zeta.
  assert (exists w2 t2,
    (if truthy (this_get "_loop" w) then rearm (stamp w) else (Ok tt, stamp w, []))
    = (Ok tt, w2, t2) /\
    when (truthy (this_get "_loop" w)) rearm (stamp w) = (Ok tt, w2, t2)) as (w2 & t2 & E1 & E2).
  { destruct (truthy (this_get "_loop" w)); cbn [when].
    - destruct (rearm_spec (stamp w)) as (w2 & t & id & dl & E & _). rewrite E. eauto.
    - unfold ret. eauto. }
  rewrite E1, E2.
  destruct (user_draw w) as [| | | | |g| | |]; cbn [is_function when ret]; try reflexivity.
  unfold push, scale, pop, bind, emit, modify, gets, when, ret. fold (pushed w2).
  destruct (is_undefined (user_setup w)); cbn [call_value call];
    destruct (extern g [] (pushed w2)) as [[v|] w4]; reflexivity.
Qed.

(** Arithmetic on integer-valued numbers. *)

Lemma js_add_num a b : js_add (num a) (num b) = num (a + b).
Proof.
  unfold js_add, num. f_equal.
  rewrite <- inject_Z_plus. apply inject_Z_Qred.
Qed.

Lemma js_neg_num a : js_neg (num a) = num (- a).
Proof.
  unfold js_neg, num. f_equal.
  rewrite <- inject_Z_opp. apply inject_Z_Qred.
Qed.

Lemma js_sub_num a b : js_sub (num a) (num b) = num (a - b).
Proof. unfold js_sub. rewrite js_neg_num, js_add_num. reflexivity. Qed.

Lemma Qeq_bool_inject_Z0 z : Qeq_bool (inject_Z z) 0 = Z.eqb z 0.
Proof.
  unfold Qeq_bool, inject_Z. cbn [Qnum Qden]. rewrite Z.mul_1_r. reflexivity.
Qed.

Lemma js_div_num a b :
  b <> 0 -> js_div (num a) (num b) = Fin (Qred (inject_Z a / inject_Z b)).
Proof.
  intros Hb. unfold js_div, num. rewrite Qeq_bool_inject_Z0.
  destruct (Z.eqb_spec b 0); [contradiction|reflexivity].
Qed.

Lemma truthy_num z : truthy (VNum (num z)) = negb (Z.eqb z 0).
Proof. unfold truthy, num. rewrite Qeq_bool_inject_Z0. reflexivity. Qed.

Lemma handle_of_num z : handle_of (VNum (num z)) = Some z.
Proof. reflexivity. Qed.

(** C10.  In a draw tick that runs while the loop flag is set and calls a
    draw hook, the timeout of the next cycle is armed before the hook is
    called; so, whether the hook returns or throws, the tick ends with that
    timeout armed (the hook itself not having cancelled it). *)
Theorem draw_arms_next_cycle_before_hook extern w g r w' tr :
  truthy (this_get "_loop" w) = true ->
  user_draw w = VFun g ->
  (forall args w1 r1 w2, extern g args w1 = (r1, w2) -> timers w2 = timers w1) ->
  _draw extern w = (r, w', tr) ->
  exists id delay,
    precedes (EvSetTimeout id) (EvCall g) tr /\
    In (Timer id false DrawCycle delay) (timers w').
Proof.
  intros Hloop Hdraw Hkeep Hrun.
  rewrite draw_unfold, Hloop, Hdraw in Hrun.
  destruct (rearm_spec (stamp w)) as (w2 & t & id & delay & E & _ & Harmed & _).
  rewrite E in Hrun.
  exists id, delay.
  destruct (extern g [] (pushed w2)) as [[v|] w4] eqn:Hg;
    injection Hrun as <- <- <-; pose proof (Hkeep _ _ _ _ Hg) as Ht.
  - split.
    + exists (EvEnter "_draw" :: t), (EvPush :: if is_undefined (user_setup w)
        then [EvScale (this_get "_pixelDensity" (pushed w2))
                      (this_get "_pixelDensity" (pushed w2))] else []), [EvPop].
      cbn [app]. rewrite <- !app_assoc. reflexivity.
    + cbn. rewrite Ht. exact Harmed.
  - split.
    + exists (EvEnter "_draw" :: t), (EvPush :: if is_undefined (user_setup w)
        then [EvScale (this_get "_pixelDensity" (pushed w2))
                      (this_get "_pixelDensity" (pushed w2))] else []), [].
      cbn [app]. rewrite <- !app_assoc. reflexivity.
    + rewrite Ht. exact Harmed.
Qed.

Lemma draw_arms_next_cycle_before_hook_witness :
  exists id delay,
    precedes (EvSetTimeout id) (EvCall (User 2))
      (trace_of (_draw Sample.quiet DrawSamples.crashing)) /\
    In (Timer id false DrawCycle delay)
      (timers (world_of (_draw Sample.quiet DrawSamples.crashing))).
Proof.
  apply (draw_arms_next_cycle_before_hook Sample.quiet DrawSamples.crashing (User 2)
           (outcome_of (_draw Sample.quiet DrawSamples.crashing))).
  - reflexivity.
  - reflexivity.
  - intros args w1 r1 w2 H. injection H as _ <-. reflexivity.
  - vm_compute. reflexivity.
Defined.

(** The claim of C3 as the spec words it fails: a draw tick that fires
    while the loop flag is false still calls the draw hook. *)
Lemma paused_draw_tick_still_calls_hook :
  ~ (forall extern w g r w' tr,
        truthy (this_get "_loop" w) = false ->
        user_draw w = VFun g ->
        _draw extern w = (r, w', tr) ->
        count (is_call g) tr = 0%nat).
Proof.
  intros H.
  assert (H1 : count (is_call (User 1))
                 (trace_of (_draw Sample.quiet DrawSamples.paused)) = 0%nat).
  { apply (H Sample.quiet DrawSamples.paused (User 1)
             (outcome_of (_draw Sample.quiet DrawSamples.paused))
             (world_of (_draw Sample.quiet DrawSamples.paused)));
      vm_compute; reflexivity. }
  vm_compute in H1. discriminate H1.
Qed.

(** C3, amended.  A draw tick that fires while the loop flag is false arms
    no timer and cancels none, so the draw driver is not re-armed; the draw
    hook, when there is one, is still called once by that tick. *)
Theorem paused_draw_tick_does_not_rearm extern w r w' tr :
  truthy (this_get "_loop" w) = false ->
  _draw extern w = (r, w', tr) ->
  count is_arm tr = 0%nat /\
  count is_clear tr = 0%nat /\
  (forall g, user_draw w = VFun g -> count (is_call g) tr = 1%nat).
Proof.
  intros Hloop Hrun. rewrite draw_unfold, Hloop in Hrun.
  destruct (user_draw w) as [| | | | |g| | |] eqn:Hd;
    try (injection Hrun as <- <- <-; repeat split; [reflexivity..|discriminate]).
  destruct (extern g [] (pushed (stamp w))) as [[v|] w4];
    injection Hrun as <- <- <-;
    (repeat split;
     [ destruct (is_undefined (user_setup w)); reflexivity
     | destruct (is_undefined (user_setup w)); reflexivity
     | intros g' [= <-]; destruct (is_undefined (user_setup w)); cbn;
       rewrite bool_decide_eq_true_2 by reflexivity; reflexivity ]).
Qed.

Lemma paused_draw_tick_does_not_rearm_witness :
  count is_arm (trace_of (_draw Sample.quiet DrawSamples.paused)) = 0%nat /\
  count is_clear (trace_of (_draw Sample.quiet DrawSamples.paused)) = 0%nat /\
  (forall g, user_draw DrawSamples.paused = VFun g ->
             count (is_call g) (trace_of (_draw Sample.quiet DrawSamples.paused)) = 1%nat).
Proof.
  apply (paused_draw_tick_does_not_rearm Sample.quiet DrawSamples.paused
           (outcome_of (_draw Sample.quiet DrawSamples.paused))
           (world_of (_draw Sample.quiet DrawSamples.paused))).
  - reflexivity.
  - vm_compute. reflexivity.
Defined.

Lemma rearm_keeps_styles w w2 t :
  (if truthy (this_get "_loop" w) then rearm (stamp w) else (Ok tt, stamp w, []))
  = (Ok tt, w2, t) ->
  styles w2 = styles w.
Proof.
  assert (Hs : styles (stamp w) = styles w).
  { unfold styles, stamp. rewrite !this_get_put_ne by discriminate. reflexivity. }
  destruct (truthy (this_get "_loop" w)).
  - destruct (rearm_spec (stamp w)) as (w2' & t' & id & dl & E & _ & _ & _ & Hthis & _).
    rewrite E. intros [= <- <-]. unfold styles at 1. rewrite Hthis by discriminate.
    exact Hs.
  - intros [= <- <-]. exact Hs.
Qed.

Lemma head_ok w :
  exists w2 t2,
    (if truthy (this_get "_loop" w) then rearm (stamp w) else (Ok tt, stamp w, []))
    = (Ok tt, w2, t2).
Proof.
  destruct (truthy (this_get "_loop" w)); [|eauto].
  destruct (rearm_spec (stamp w)) as (w2 & t & id & dl & E & _). eauto.
Qed.

Lemma styles_pushed_hook w2 w4 :
  assoc "styles" (this w4) = assoc "styles" (this (pushed w2)) ->
  styles w4 = styles w2 ++ [VObj []].
Proof.
  intros H. unfold styles at 1, this_get. rewrite H.
  unfold pushed, this_put, set_this. cbn [this]. rewrite assoc_update. reflexivity.
Qed.

(** The claim of C4 as the spec words it fails: when the draw hook throws,
    the scope pushed before it stays on the style stack. *)
Lemma throwing_draw_hook_leaks_scope :
  ~ (forall extern w g r w' tr,
        user_draw w = VFun g ->
        (forall args w1 r1 w2,
            extern g args w1 = (r1, w2) -> assoc "styles" (this w2) = assoc "styles" (this w1)) ->
        _draw extern w = (r, w', tr) ->
        styles w' = styles w).
Proof.
  intros H.
  assert (H1 : styles (world_of (_draw Sample.quiet DrawSamples.crashing))
               = styles DrawSamples.crashing).
  { apply (H Sample.quiet DrawSamples.crashing (User 2)
             (outcome_of (_draw Sample.quiet DrawSamples.crashing))
             (world_of (_draw Sample.quiet DrawSamples.crashing))
             (trace_of (_draw Sample.quiet DrawSamples.crashing))).
    - vm_compute. reflexivity.
    - intros args w1 r1 w2 E. injection E as _ <-. reflexivity.
    - vm_compute. reflexivity. }
  vm_compute in H1. discriminate H1.
Qed.

(** C4, amended.  In a draw tick that calls the draw hook, the scope is
    pushed before the call; when the hook returns, the scope is popped
    after it and the style stack is back to what it was (the hook itself
    having left it balanced); nothing protects the pop, so when the hook
    throws the tick ends without popping and the pushed scope stays on the
    stack. *)
Theorem draw_scope_popped_when_hook_returns extern w g r w' tr :
  user_draw w = VFun g ->
  (forall args w1 r1 w2,
      extern g args w1 = (r1, w2) -> assoc "styles" (this w2) = assoc "styles" (this w1)) ->
  _draw extern w = (r, w', tr) ->
  precedes EvPush (EvCall g) tr /\
  (r = Ok tt ->
   precedes (EvCall g) EvPop tr /\ styles w' = styles w) /\
  (r = Throw ->
   count is_pop tr = 0%nat /\ styles w' = styles w ++ [VObj []]).
Proof.
  intros Hdraw Hkeep Hrun. rewrite draw_unfold, Hdraw in Hrun.
  destruct (head_ok w) as (w2 & t2 & E). pose proof (rearm_keeps_styles _ _ _ E) as Hs.
  rewrite E in Hrun.
  assert (Ht2 : count is_pop t2 = 0%nat).
  { destruct (truthy (this_get "_loop" w)).
    - destruct (rearm_spec (stamp w)) as (w2' & t' & id & dl & E' & _).
      rewrite E' in E. injection E as _ <-.
      revert E'. unfold rearm, bind, gets, when, clearTimer, setTimeout, arm,
        bind, gets, emit, modify, ret.
      destruct (truthy _); [destruct (handle_of _)|]; cbn; intros [= _ <-]; reflexivity.
    - injection E as _ <-. reflexivity. }
  destruct (extern g [] (pushed w2)) as [[v|] w4] eqn:Hg;
    injection Hrun as <- <- <-; pose proof (Hkeep _ _ _ _ Hg) as Hst;
    apply styles_pushed_hook in Hst.
  - split; [|split; [intros _; split|discriminate]].
    + exists (EvEnter "_draw" :: t2), (if is_undefined (user_setup w)
        then [EvScale (this_get "_pixelDensity" (pushed w2))
                      (this_get "_pixelDensity" (pushed w2))] else []), [EvPop].
      cbn [app]. rewrite <- ?app_assoc. reflexivity.
    + exists (EvEnter "_draw" :: t2 ++ EvPush :: (if is_undefined (user_setup w)
        then [EvScale (this_get "_pixelDensity" (pushed w2))
                      (this_get "_pixelDensity" (pushed w2))] else [])), [], [].
      cbn [app]. rewrite <- ?app_assoc. cbn [app]. reflexivity.
    + unfold styles at 1, popped. rewrite this_get_put_eq. cbn [items].
      rewrite Hst, removelast_last. exact Hs.
  - split; [|split; [discriminate|intros _; split]].
    + exists (EvEnter "_draw" :: t2), (if is_undefined (user_setup w)
        then [EvScale (this_get "_pixelDensity" (pushed w2))
                      (this_get "_pixelDensity" (pushed w2))] else []), [].
      cbn [app]. rewrite <- ?app_assoc. reflexivity.
    + cbn [count is_pop]. rewrite count_app, Ht2.
      destruct (is_undefined (user_setup w)); reflexivity.
    + rewrite Hst, Hs. reflexivity.
Qed.

Lemma draw_scope_popped_when_hook_returns_witness :
  precedes EvPush (EvCall (User 1)) (trace_of (_draw Sample.quiet DrawSamples.later)) /\
  (outcome_of (_draw Sample.quiet DrawSamples.later) = Ok tt ->
   precedes (EvCall (User 1)) EvPop (trace_of (_draw Sample.quiet DrawSamples.later)) /\
   styles (world_of (_draw Sample.quiet DrawSamples.later)) = styles DrawSamples.later) /\
  (outcome_of (_draw Sample.quiet DrawSamples.later) = Throw ->
   count is_pop (trace_of (_draw Sample.quiet DrawSamples.later)) = 0%nat /\
   styles (world_of (_draw Sample.quiet DrawSamples.later))
   = styles DrawSamples.later ++ [VObj []]).
Proof.
  apply (draw_scope_popped_when_hook_returns Sample.quiet DrawSamples.later (User 1)).
  - vm_compute. reflexivity.
  - intros args w1 r1 w2 E. injection E as _ <-. reflexivity.
  - vm_compute. reflexivity.
Defined.

(** The claim of C5 as the spec words it fails: nothing guards the
    division, and two draw ticks within the same millisecond measure an
    infinite frame rate. *)
Lemma frame_rate_is_not_guarded :
  ~ (forall extern w r w' tr,
        _draw extern w = (r, w', tr) ->
        exists q, assoc "_frameRate" (this w') = Some (VNum (Fin q))).
Proof.
  intros H.
  destruct (H Sample.quiet Sample.running
              (outcome_of (_draw Sample.quiet Sample.running))
              (world_of (_draw Sample.quiet Sample.running))
              (trace_of (_draw Sample.quiet Sample.running))) as [q Hq].
  - vm_compute. reflexivity.
  - vm_compute in Hq. discriminate Hq.
Qed.

(** On the first tick of a sketch whose previous timestamp was never set,
    the measured frame rate is not a number. *)
Example first_tick_frame_rate :
  assoc "_frameRate" (this (world_of (_draw Sample.quiet Sample.boot)))
  = Some (VNum NaN).
Proof. vm_compute. reflexivity. Qed.

Lemma measured_finite w t :
  this_get "_lastFrameTime" w = VNum (num t) ->
  t <> clock w ->
  measured w = Fin (Qred (inject_Z 1000 / inject_Z (clock w - t))).
Proof.
  intros Hl Hne. unfold measured. rewrite Hl. cbn [to_number].
  rewrite js_sub_num. apply js_div_num. lia.
Qed.

Lemma measured_zero_elapsed w :
  this_get "_lastFrameTime" w = VNum (num (clock w)) ->
  measured w = Inf false.
Proof.
  intros Hl. unfold measured. rewrite Hl. cbn [to_number].
  rewrite js_sub_num, Z.sub_diag. reflexivity.
Qed.

Lemma measured_undefined w :
  this_get "_lastFrameTime" w = VUndef -> measured w = NaN.
Proof. intros Hl. unfold measured. rewrite Hl. reflexivity. Qed.

(** C5, amended.  Every draw tick sets the measured frame rate to 1000
    divided by the time elapsed since the previous draw tick, as a bare
    division: the result is a finite number when the previous timestamp is
    a number other than the current time, infinite when no time has
    elapsed, and not a number when the previous timestamp is undefined. *)
Theorem draw_measures_frame_rate extern w r w' tr :
  (forall f args w1 r1 w2,
      extern f args w1 = (r1, w2) ->
      assoc "_frameRate" (this w2) = assoc "_frameRate" (this w1)) ->
  _draw extern w = (r, w', tr) ->
  assoc "_frameRate" (this w') = Some (VNum (measured w)) /\
  (forall t, this_get "_lastFrameTime" w = VNum (num t) -> t <> clock w ->
             measured w = Fin (Qred (inject_Z 1000 / inject_Z (clock w - t)))) /\
  (this_get "_lastFrameTime" w = VNum (num (clock w)) -> measured w = Inf false) /\
  (this_get "_lastFrameTime" w = VUndef -> measured w = NaN).
Proof.
  intros Hkeep Hrun.
  split; [|split; [apply measured_finite|split;
    [apply measured_zero_elapsed|apply measured_undefined]]].
  rewrite draw_unfold in Hrun.
  assert (Hstamp : assoc "_frameRate" (this (stamp w)) = Some (VNum (measured w))).
  { unfold stamp, this_put, set_this. cbn [this]. rewrite !assoc_update. reflexivity. }
  assert (Hhead : forall w2 t2,
    (if truthy (this_get "_loop" w) then rearm (stamp w) else (Ok tt, stamp w, []))
    = (Ok tt, w2, t2) ->
    assoc "_frameRate" (this w2) = Some (VNum (measured w))).
  { intros w2 t2. destruct (truthy (this_get "_loop" w)).
    - unfold rearm, bind, gets, when, clearTimer, setTimeout, arm,
        bind, gets, emit, modify, ret.
      destruct (truthy _); [destruct (handle_of _)|]; cbn;
        intros [= <- _]; cbn; rewrite assoc_update; exact Hstamp.
    - intros [= <- _]. exact Hstamp. }
  destruct (head_ok w) as (w2 & t2 & E). rewrite E in Hrun.
  specialize (Hhead _ _ E).
  destruct (user_draw w) as [| | | | |g| | |];
    try (injection Hrun as _ <- _; exact Hhead).
  destruct (extern g [] (pushed w2)) as [[v|] w4] eqn:Hg;
    injection Hrun as _ <- _; pose proof (Hkeep _ _ _ _ _ Hg) as Hf.
  - unfold popped, this_put, set_this. cbn [this]. rewrite assoc_update.
    cbn. rewrite Hf. unfold pushed, this_put, set_this. cbn [this].
    rewrite assoc_update. exact Hhead.
  - rewrite Hf. unfold pushed, this_put, set_this. cbn [this].
    rewrite assoc_update. exact Hhead.
Qed.

Lemma draw_measures_frame_rate_witness :
  assoc "_frameRate" (this (world_of (_draw Sample.quiet DrawSamples.later)))
  = Some (VNum (measured DrawSamples.later)) /\
  (forall t, this_get "_lastFrameTime" DrawSamples.later = VNum (num t) ->
             t <> clock DrawSamples.later ->
             measured DrawSamples.later
             = Fin (Qred (inject_Z 1000 / inject_Z (clock DrawSamples.later - t)))) /\
  (this_get "_lastFrameTime" DrawSamples.later = VNum (num (clock DrawSamples.later)) ->
   measured DrawSamples.later = Inf false) /\
  (this_get "_lastFrameTime" DrawSamples.later = VUndef ->
   measured DrawSamples.later = NaN).
Proof.
  apply (draw_measures_frame_rate Sample.quiet DrawSamples.later
           (outcome_of (_draw Sample.quiet DrawSamples.later))
           (world_of (_draw Sample.quiet DrawSamples.later))
           (trace_of (_draw Sample.quiet DrawSamples.later))).
  - intros f args w1 r1 w2 E. unfold Sample.quiet in E.
    destruct f as [| [|[|[|k]]] | | |]; injection E as _ <-; reflexivity.
  - vm_compute. reflexivity.
Defined.

(** Sixteen milliseconds after the previous tick the measured frame rate
    is 62.5. *)
Example frame_rate_after_16ms :
  measured DrawSamples.later = Fin (125 # 2).
Proof. vm_compute. reflexivity. Qed.

(** ** The frame-count ticker *)

Lemma setProperty_spec prop v w :
  exists w',
    _setProperty prop v w = (Ok tt, w', []) /\
    this w' = update prop v (this w) /\
    window w' = (if truthy (this_get "_isGlobal" (this_put prop v w))
                 then update prop v (window w) else window w) /\
    proto w' = proto w /\ timers w' = timers w /\ next_timer w' = next_timer w /\
    pending w' = pending w /\ listeners w' = listeners w.
Proof.
  unfold _setProperty, bind, modify, gets, when, ret.
  destruct (truthy (this_get "_isGlobal" (this_put prop v w))); cbn;
    eexists; repeat split.
Qed.

(** One firing of the ticker adds one to [frameCount], on the instance
    and, in Global mode, on the global namespace. *)
Lemma frame_tick_spec w n :
  this_get "frameCount" w = VNum (num n) ->
  exists w',
    frame_tick w = (Ok tt, w', []) /\
    assoc "frameCount" (this w') = Some (VNum (num (n + 1))) /\
    (truthy (this_get "_isGlobal" w) = true ->
     assoc "frameCount" (window w') = Some (VNum (num (n + 1)))) /\
    timers w' = timers w.
Proof.
  intros Hn. unfold frame_tick, bind, gets. rewrite Hn. cbn [to_number].
  rewrite js_add_num.
  destruct (setProperty_spec "frameCount" (VNum (num (n + 1))) w)
    as (w' & E & Hthis & Hwin & _ & Ht & _).
  exists w'. rewrite E. split; [reflexivity|]. split; [|split].
  - rewrite Hthis, assoc_update. reflexivity.
  - intros Hg. rewrite Hwin, this_get_put_ne, Hg by discriminate.
    rewrite assoc_update. reflexivity.
  - exact Ht.
Qed.

(** A draw tick leaves alone every property of the instance other than
    the four it writes, whatever the time, as long as the hook does. *)
Lemma draw_keeps_property extern p w r w' tr :
  p <> "_frameRate" -> p <> "_lastFrameTime" -> p <> "_drawInterval" -> p <> "styles" ->
  (forall f args w1 r1 w2,
      extern f args w1 = (r1, w2) -> this_get p w2 = this_get p w1) ->
  _draw extern w = (r, w', tr) ->
  this_get p w' = this_get p w.
Proof.
  intros H1 H2 H3 H4 Hkeep Hrun. rewrite draw_unfold in Hrun.
  assert (Hstamp : this_get p (stamp w) = this_get p w).
  { unfold stamp. rewrite !this_get_put_ne by congruence. reflexivity. }
  assert (Hhead : forall w2 t2,
    (if truthy (this_get "_loop" w) then rearm (stamp w) else (Ok tt, stamp w, []))
    = (Ok tt, w2, t2) -> this_get p w2 = this_get p w).
  { intros w2 t2. destruct (truthy (this_get "_loop" w)).
    - destruct (rearm_spec (stamp w)) as (w2' & t' & id & dl & E & _ & _ & _ & Hthis & _).
      rewrite E. intros [= <- _]. rewrite Hthis by congruence. exact Hstamp.
    - intros [= <- _]. exact Hstamp. }
  destruct (head_ok w) as (w2 & t2 & E). rewrite E in Hrun. specialize (Hhead _ _ E).
  destruct (user_draw w) as [| | | | |g| | |];
    try (injection Hrun as _ <- _; exact Hhead).
  destruct (extern g [] (pushed w2)) as [[v|] w4] eqn:Hg;
    injection Hrun as _ <- _; pose proof (Hkeep _ _ _ _ _ Hg) as Hf.
  - unfold popped. rewrite this_get_put_ne by congruence. rewrite Hf.
    unfold pushed. rewrite this_get_put_ne by congruence. exact Hhead.
  - rewrite Hf. unfold pushed. rewrite this_get_put_ne by congruence. exact Hhead.
Qed.

Lemma frame_count_counts_ticks extern sched :
  (forall f args w1 r1 w2,
      extern f args w1 = (r1, w2) -> this_get "frameCount" w2 = this_get "frameCount" w1) ->
  forall w n,
    this_get "frameCount" w = VNum (num n) ->
    this_get "frameCount" (run_steps extern sched w) = VNum (num (n + ticks sched)).
Proof.
  intros Hkeep. induction sched as [|s sched IH]; intros w n Hn; cbn [run_steps fold_left ticks].
  - rewrite Z.add_0_r. exact Hn.
  - destruct s as [|elapsed].
    + destruct (frame_tick_spec w n Hn) as (w' & E & Hthis & _).
      fold (run_steps extern sched (run_step extern Tick w)).
      rewrite (IH _ (n + 1)).
      * f_equal. f_equal. lia.
      * unfold run_step. rewrite E. unfold world_of. cbn [fst snd].
        unfold this_get. rewrite Hthis. reflexivity.
    + fold (run_steps extern sched (run_step extern (Draw elapsed) w)).
      apply IH. unfold run_step.
      rewrite (draw_keeps_property extern "frameCount" (set_clock (clock w + elapsed) w)
                 _ _ _ ltac:(discriminate) ltac:(discriminate) ltac:(discriminate)
                 ltac:(discriminate) Hkeep (run_parts _)).
      exact Hn.
Qed.

Lemma disarm_In id l t : In t (disarm id l) <-> In t l /\ t_id t <> id.
Proof.
  unfold disarm. rewrite filter_In. rewrite negb_true_iff, Z.eqb_neq. reflexivity.
Qed.

Lemma tickers_app l1 l2 : tickers (l1 ++ l2) = tickers l1 ++ tickers l2.
Proof. unfold tickers. apply List.filter_app. Qed.

Lemma tickers_none l :
  (forall t, In t l -> t_callback t <> FrameTick) -> tickers l = [].
Proof.
  induction l as [|t l IH]; intros H; [reflexivity|].
  cbn. rewrite bool_decide_eq_false_2 by (apply H; left; reflexivity).
  apply IH. intros t' Ht'. apply H. right. exact Ht'.
Qed.

(** Restarting the ticker: the one that was armed is cancelled first, then
    a new one is armed and recorded, and it is the only one armed. *)
Lemma runFrames_spec w :
  ticker_recorded w ->
  exists w' t id delay,
    _runFrames w = (Ok tt, w', EvEnter "_runFrames" :: t ++ [EvSetInterval id]) /\
    ticker_recorded w' /\
    tickers (timers w') = [Timer id true FrameTick delay] /\
    (forall old, In old (tickers (timers w)) ->
                 t = [EvClear (t_id old)] /\ ~ In old (timers w')).
Proof.
  intros (Hpos & Hrange & Hrec).
  set (u := this_get "_updateInterval" w).
  assert (Hclear : exists w1 t,
    when (truthy u) (clearTimer u) w = (Ok tt, w1, t) /\
    this w1 = this w /\ proto w1 = proto w /\ next_timer w1 = next_timer w /\
    (forall x, In x (timers w1) -> In x (timers w)) /\
    tickers (timers w1) = [] /\
    (forall old, In old (tickers (timers w)) ->
                 t = [EvClear (t_id old)] /\ ~ In old (timers w1))).
  { destruct (tickers (timers w)) as [|old rest] eqn:Hold.
    - (* no ticker armed *)
      assert (Hnone : forall x, In x (timers w) -> t_callback x <> FrameTick).
      { intros x Hx Hcb. assert (In x (tickers (timers w))) as Hin.
        { unfold tickers. apply filter_In. split; [exact Hx|].
          apply bool_decide_eq_true_2. exact Hcb. }
        rewrite Hold in Hin. exact Hin. }
      destruct (truthy u); cbn [when]; [unfold clearTimer; destruct (handle_of u) as [i|]|].
      + exists (set_timers (disarm i) w), [EvClear i]. repeat split; try contradiction.
        * intros x Hx. cbn in Hx. apply disarm_In in Hx. tauto.
        * apply tickers_none. intros x Hx. cbn in Hx. apply disarm_In in Hx.
          apply Hnone. tauto.
      + exists w, []. repeat split; try contradiction; auto.
      + exists w, []. repeat split; try contradiction; auto.
    - (* a ticker is armed: it is the recorded one *)
      assert (Hin : In old (timers w) /\ t_callback old = FrameTick).
      { assert (In old (tickers (timers w))) as Hin by (rewrite Hold; left; reflexivity).
        unfold tickers in Hin. apply filter_In in Hin as [Hin Hcb].
        apply bool_decide_eq_true_1 in Hcb. auto. }
      destruct Hin as [Hin Hcb].
      pose proof (Hrec _ Hin Hcb) as Hu. fold u in Hu.
      assert (Htr : truthy u = true).
      { rewrite Hu, truthy_num. destruct (Z.eqb_spec (t_id old) 0) as [E|]; [|reflexivity].
        specialize (Hrange _ Hin). lia. }
      rewrite Htr. cbn [when]. unfold clearTimer. rewrite Hu, handle_of_num.
      exists (set_timers (disarm (t_id old)) w), [EvClear (t_id old)].
      repeat split.
      + intros x Hx. cbn in Hx. apply disarm_In in Hx. tauto.
      + apply tickers_none. intros x Hx Hx'. cbn in Hx. apply disarm_In in Hx as [Hx Hid].
        pose proof (Hrec _ Hx Hx') as Hu'. fold u in Hu'. rewrite Hu in Hu'.
        injection Hu' as Hu'. apply Hid. symmetry. exact Hu'.
      + rewrite <- Hold in H. unfold tickers in H. apply filter_In in H as [Hx Hx'].
        apply bool_decide_eq_true_1 in Hx'.
        pose proof (Hrec _ Hx Hx') as Hu'. fold u in Hu'. rewrite Hu in Hu'.
        injection Hu' as Hu'. rewrite Hu'. reflexivity.
      + rewrite <- Hold in H. unfold tickers in H. apply filter_In in H as [Hx Hx'].
        apply bool_decide_eq_true_1 in Hx'.
        pose proof (Hrec _ Hx Hx') as Hu'. fold u in Hu'. rewrite Hu in Hu'.
        injection Hu' as Hu'. cbn. rewrite disarm_In. intros [_ Hne]. apply Hne.
        symmetry. exact Hu'. }
  destruct Hclear as (w1 & t & E & Hthis & Hproto & Hnext & Hsub & Hnone & Hold).
  set (delay := js_div (num 1000) (to_number (this_get "_targetFrameRate" w1))).
  set (id := next_timer w1).
  exists (this_put "_updateInterval" (VNum (num id))
            (set_next_timer (id + 1)
               (set_timers (fun l => l ++ [Timer id true FrameTick delay]) w1))),
    t, id, delay.
  split; [|split; [|split]].
  - unfold _runFrames. unfold bind at 1. unfold emit at 1.
    unfold bind at 1. unfold gets at 1. fold u. unfold bind at 1. rewrite E.
    reflexivity.
  - unfold ticker_recorded. cbn [next_timer timers this_put set_this set_next_timer set_timers].
    subst id. rewrite Hnext. split; [lia|split].
    + intros x Hx. apply in_app_or in Hx as [Hx|[<-|[]]].
      * specialize (Hrange _ (Hsub _ Hx)). lia.
      * cbn. lia.
    + intros x Hx Hcb. rewrite this_get_put_eq. apply in_app_or in Hx as [Hx|[<-|[]]].
      * exfalso. assert (In x (tickers (timers w1))) as Hin.
        { unfold tickers. apply filter_In. split; [exact Hx|].
          apply bool_decide_eq_true_2. exact Hcb. }
        rewrite Hnone in Hin. exact Hin.
      * reflexivity.
  - cbn [timers this_put set_this set_next_timer set_timers].
    rewrite tickers_app, Hnone. reflexivity.
  - intros old Ho. destruct (Hold _ Ho) as [Ht Hgone]. split; [exact Ht|].
    cbn [timers this_put set_this set_next_timer set_timers].
    intros Hin. apply in_app_or in Hin as [Hin|[<-|[]]]; [exact (Hgone Hin)|].
    unfold tickers in Ho. apply filter_In in Ho as [Ho _].
    specialize (Hrange _ Ho). cbn in Hrange. subst id. lia.
Qed.

(** C7.  Each firing of the frame-count ticker adds exactly one to
    [frameCount], through [_setProperty], so that in Global mode the global
    [frameCount] gets the same value in the same step; whatever draw ticks
    run in between, and however much time they take, [frameCount] is its
    starting value plus the number of firings; and restarting the ticker
    cancels the ticker that was armed before arming the new one, which is
    then the only one armed. *)
Theorem frame_count_ticker extern w n :
  this_get "frameCount" w = VNum (num n) ->
  ticker_recorded w ->
  (forall f args w1 r1 w2,
      extern f args w1 = (r1, w2) -> this_get "frameCount" w2 = this_get "frameCount" w1) ->
  (frame_tick w = _setProperty "frameCount" (VNum (num (n + 1))) w /\
   exists w',
     frame_tick w = (Ok tt, w', []) /\
     assoc "frameCount" (this w') = Some (VNum (num (n + 1))) /\
     (truthy (this_get "_isGlobal" w) = true ->
      assoc "frameCount" (window w') = Some (VNum (num (n + 1))))) /\
  (forall sched,
      this_get "frameCount" (run_steps extern sched w) = VNum (num (n + ticks sched))) /\
  (exists w' t id delay,
      _runFrames w = (Ok tt, w', EvEnter "_runFrames" :: t ++ [EvSetInterval id]) /\
      ticker_recorded w' /\
      tickers (timers w') = [Timer id true FrameTick delay] /\
      (forall old, In old (tickers (timers w)) ->
                   t = [EvClear (t_id old)] /\ ~ In old (timers w'))).
Proof.
  intros Hn Hrec Hkeep. split; [split|split].
  - unfold frame_tick, bind, gets. rewrite Hn. cbn [to_number]. rewrite js_add_num.
    destruct (_setProperty "frameCount" (VNum (num (n + 1))) w) as [[r w2] t2].
    reflexivity.
  - destruct (frame_tick_spec w n Hn) as (w' & E & H1 & H2 & _). eauto.
  - intros sched. apply frame_count_counts_ticks; assumption.
  - apply runFrames_spec. exact Hrec.
Qed.

Lemma running_ticker_recorded : ticker_recorded Sample.running.
Proof.
  unfold ticker_recorded. split; [reflexivity|split].
  - intros t Ht. vm_compute in Ht. destruct Ht as [<-|[<-|[]]]; cbn; lia.
  - intros t Ht Hcb. vm_compute in Ht. destruct Ht as [<-|[<-|[]]].
    + reflexivity.
    + discriminate Hcb.
Qed.

Lemma frame_count_ticker_witness :
  (frame_tick Sample.running
   = _setProperty "frameCount" (VNum (num (0 + 1))) Sample.running /\
   exists w',
     frame_tick Sample.running = (Ok tt, w', []) /\
     assoc "frameCount" (this w') = Some (VNum (num (0 + 1))) /\
     (truthy (this_get "_isGlobal" Sample.running) = true ->
      assoc "frameCount" (window w') = Some (VNum (num (0 + 1))))) /\
  (forall sched,
      this_get "frameCount" (run_steps Sample.quiet sched Sample.running)
      = VNum (num (0 + ticks sched))) /\
  (exists w' t id delay,
      _runFrames Sample.running
      = (Ok tt, w', EvEnter "_runFrames" :: t ++ [EvSetInterval id]) /\
      ticker_recorded w' /\
      tickers (timers w') = [Timer id true FrameTick delay] /\
      (forall old, In old (tickers (timers Sample.running)) ->
                   t = [EvClear (t_id old)] /\ ~ In old (timers w'))).
Proof.
  apply (frame_count_ticker Sample.quiet Sample.running 0).
  - reflexivity.
  - exact running_ticker_recorded.
  - intros f args w1 r1 w2 E. unfold Sample.quiet in E.
    destruct f as [| [|[|[|k]]] | | |]; injection E as _ <-; reflexivity.
Defined.

(** Three firings and two draw ticks, one of them a second long. *)
Example three_ticks :
  this_get "frameCount"
    (run_steps Sample.quiet [Tick; Draw 16; Tick; Draw 1000; Tick] Sample.running)
  = VNum (num 3).
Proof. vm_compute. reflexivity. Qed.

Example restart_cancels_first :
  trace_of (_runFrames Sample.running)
  = [EvEnter "_runFrames"; EvClear 1; EvSetInterval 3].
Proof. vm_compute. reflexivity. Qed.

(** ** Loops *)

(** A loop whose every turn returns, keeps [I], establishes [Q] for its
    item and keeps the [Q] already established, returns with [Q] for every
    item. *)
Lemma for_each_establishes {A} (body : A -> M unit)
    (I : World -> Prop) (Q : A -> World -> Prop) :
  (forall a w, I w ->
     exists w' t, body a w = (Ok tt, w', t) /\ I w' /\ Q a w' /\
                  forall b, Q b w -> Q b w') ->
  forall l w, I w ->
    exists w' t, for_each body l w = (Ok tt, w', t) /\ I w' /\
                 (forall a, In a l -> Q a w') /\
                 (forall b, Q b w -> Q b w').
Proof.
  intros Hbody. induction l as [|a l IH]; intros w HI.
  - exists w, []. cbn. repeat split; [exact HI|contradiction|auto].
  - destruct (Hbody a w HI) as (w1 & t1 & E1 & HI1 & HQ1 & Hkeep1).
    destruct (IH w1 HI1) as (w2 & t2 & E2 & HI2 & HQ2 & Hkeep2).
    exists w2, (t1 ++ t2). cbn [for_each]. unfold bind. rewrite E1, E2.
    repeat split; [exact HI2| |auto].
    intros b [<-|Hb]; [apply Hkeep2, HQ1|apply HQ2, Hb].
Qed.

(** ** Binding the capability table in Global mode *)

Lemma expose_capability_run q w :
  this_get "_events" w <> VUndef -> this_get "_events" w <> VNull ->
  expose_capability q w =
  match read (assoc q (proto w)) with
  | VFun f =>
      if reserved_hook_name w q then (Ok tt, w, [])
      else (Ok tt,
            window_put q (VFun (Bound f (next_bound w)))
              (set_next_bound (S (next_bound w)) w), [])
  | v => (Ok tt, window_put q v w, [])
  end.
Proof.
  intros Hu Hn. unfold expose_capability. unfold bind at 1. unfold gets at 1.
  destruct (read (assoc q (proto w))) as [| | | | |f| | |]; try reflexivity.
  unfold bind at 1. unfold gets at 1. unfold reserved_hook_name.
  destruct (this_get "_events" w) eqn:He; try contradiction;
    destruct (obj_has (substring2 q) _); reflexivity.
Qed.

Lemma reserved_same w0 w p :
  proto w = proto w0 -> this w = this w0 ->
  reserved_hook_name w p = reserved_hook_name w0 p.
Proof.
  intros Hp Ht. unfold reserved_hook_name, this_get. rewrite Hp, Ht. reflexivity.
Qed.

Lemma expose_capability_turn w0 q w :
  this_get "_events" w0 <> VUndef -> this_get "_events" w0 <> VNull ->
  exposing w0 w ->
  exists w' t,
    expose_capability q w = (Ok tt, w', t) /\
    exposing w0 w' /\
    (forall v, assoc q (proto w0) = Some v -> exposed_as w0 w' q v) /\
    (forall p, p <> q -> assoc p (window w') = assoc p (window w)).
Proof.
  intros Hu Hn (Hp & Ht & Hres).
  assert (Hev : this_get "_events" w = this_get "_events" w0).
  { unfold this_get. rewrite Hp, Ht. reflexivity. }
  rewrite expose_capability_run by (rewrite Hev; assumption).
  rewrite (reserved_same w0 w q Hp Ht), Hp.
  assert (Hother : forall v w1,
    (forall p, assoc p (window w1) = assoc p (window w)) ->
    forall p, p <> q -> assoc p (window (window_put q v w1)) = assoc p (window w)).
  { intros v w1 Hw1 p Hne. cbn. rewrite assoc_update.
    destruct (decide (q = p)); [congruence|apply Hw1]. }
  assert (Hsame : forall v w1,
    assoc q (window (window_put q v w1)) = Some v).
  { intros v w1. cbn. rewrite assoc_update.
    destruct (decide (q = q)); [reflexivity|contradiction]. }
  assert (Hkeep : forall v w1,
    proto w1 = proto w0 -> this w1 = this w0 ->
    (forall p, assoc p (window w1) = assoc p (window w)) ->
    (forall f, assoc q (proto w0) = Some (VFun f) -> reserved_hook_name w0 q = false) ->
    exposing w0 (window_put q v w1)).
  { intros v w1 Hp1 Ht1 Hw1 Hq. split; [exact Hp1|split; [exact Ht1|]].
    intros p f Hpf Hr. destruct (decide (p = q)) as [->|Hne].
    - rewrite (Hq _ Hpf) in Hr. discriminate.
    - rewrite (Hother v w1 Hw1 p Hne). eauto. }
  destruct (assoc q (proto w0)) as [v|] eqn:Hq; cbn [read default].
  - destruct (is_function v) eqn:Hfun.
    + destruct v as [| | | | |f| | |]; try discriminate Hfun.
      destruct (reserved_hook_name w0 q) eqn:Hr.
      * exists w, []. split; [reflexivity|]. split; [split; auto|]. split; [|reflexivity].
        intros v [= <-]. split; [intros _ _; eauto|split; [congruence|discriminate]].
      * eexists _, []. split; [reflexivity|]. split; [|split].
        -- apply Hkeep; [exact Hp|exact Ht|reflexivity|intros; congruence].
        -- intros v [= <-]. split; [congruence|split; [|discriminate]].
           intros f' [= <-] _. exists (next_bound w). apply Hsame.
        -- apply Hother. reflexivity.
    + destruct v; try discriminate Hfun;
        (eexists _, []; split; [reflexivity|]; split; [|split];
         [ apply Hkeep; [exact Hp|exact Ht|reflexivity|intros; congruence]
         | intros v' [= <-]; split; [congruence|split; [congruence|intros _; apply Hsame]]
         | apply Hother; reflexivity ]).
  - eexists _, []. split; [reflexivity|]. split; [|split].
    + apply Hkeep; [exact Hp|exact Ht|reflexivity|intros; congruence].
    + discriminate.
    + apply Hother. reflexivity.
Qed.

Lemma exposed_as_window w0 w w' p v :
  assoc p (window w') = assoc p (window w) ->
  exposed_as w0 w p v -> exposed_as w0 w' p v.
Proof. unfold exposed_as. intros ->. auto. Qed.

Lemma expose_capabilities_spec w :
  this_get "_events" w <> VUndef -> this_get "_events" w <> VNull ->
  exists w' t,
    expose_capabilities w = (Ok tt, w', t) /\
    this w' = this w /\
    forall p v, assoc p (proto w) = Some v -> exposed_as w w' p v.
Proof.
  intros Hu Hn. unfold expose_capabilities, bind, gets.
  destruct (for_each_establishes
              (fun c : string * value => expose_capability (fst c))
              (exposing w)
              (fun c w' => assoc (fst c) (proto w) = Some (snd c) ->
                           exposed_as w w' (fst c) (snd c)))
    with (l := proto w) (w := w) as (w' & t & E & (_ & Ht & _) & HQ & _).
  - intros [q vq] w1 HI. cbn [fst snd].
    destruct (expose_capability_turn w q w1 Hu Hn HI) as (w2 & t2 & E & HI2 & Hq & Hoth).
    exists w2, t2. split; [exact E|]. split; [exact HI2|]. split; [apply Hq|].
    intros [p vp]. cbn [fst snd]. intros Hp Hpv.
    destruct (decide (p = q)) as [->|Hne]; [apply Hq, Hpv|].
    apply (exposed_as_window w w1); [apply Hoth, Hne|apply Hp, Hpv].
  - split; [reflexivity|split; [reflexivity|auto]].
  - exists w', t. rewrite E. split; [reflexivity|]. split; [exact Ht|].
    intros p v Hpv. apply (HQ (p, v)); [apply assoc_In, Hpv|exact Hpv].
Qed.

Lemma expose_own_spec l w :
  exists w' t,
    for_each (fun c : string * value => modify (window_put (fst c) (snd c))) l w
    = (Ok tt, w', t) /\
    forall p, (forall v, ~ In (p, v) l) -> assoc p (window w') = assoc p (window w).
Proof.
  revert w. induction l as [|[q v] l IH]; intros w.
  - exists w, []. split; reflexivity.
  - destruct (IH (window_put q v w)) as (w' & t & E & Hw).
    exists w', t. cbn [for_each]. unfold bind at 1. unfold modify at 1.
    cbn [fst snd]. rewrite E.
    split; [reflexivity|]. intros p Hp. rewrite Hw.
    + cbn. rewrite assoc_update. destruct (decide (q = p)) as [->|]; [|reflexivity].
      exfalso. apply (Hp v). left. reflexivity.
    + intros v' Hin. apply (Hp v'). right. exact Hin.
Qed.

(** The hook of an event is named by the test. *)
Lemma substring2_on e : substring2 ("on" ++ e)%string = e.
Proof. reflexivity. Qed.

(** C8, amended.  With no sketch closure the constructor takes
    [go_global]: it sets Global mode and goes through the capability table.
    Once it has, every capability is on the global namespace as follows: a
    function whose name passes the test of the constructor (its name less
    the first two characters is an event of [this._events], as for
    [on<event>], and for any other name with such an ending) has been
    skipped, the global of that name is what it was; any other function is
    there under its own name as a function bound to the instance; anything
    that is not a function is there by value.  The copy of the own
    properties of the instance that follows leaves this as it is for every
    name that is not also an own property. *)
Theorem global_mode_exposes_capabilities w :
  this_get "_events" w <> VUndef ->
  this_get "_events" w <> VNull ->
  exists w1 t1 w2 t2,
    expose_capabilities (this_put "_isGlobal" (VBool true) w) = (Ok tt, w1, t1) /\
    go_global w = (Ok tt, w2, t2) /\
    truthy (this_get "_isGlobal" w2) = true /\
    forall p v, assoc p (proto w) = Some v ->
      ((is_function v = true -> reserved_hook_name w p = true ->
        assoc p (window w1) = assoc p (window w)) /\
       (forall f, v = VFun f -> reserved_hook_name w p = false ->
        exists k, assoc p (window w1) = Some (VFun (Bound f k))) /\
       (is_function v = false -> assoc p (window w1) = Some v)) /\
      (assoc p (this w) = None -> p <> "_isGlobal" -> exposed_as w w2 p v).
Proof.
  intros Hu Hn. set (w0 := this_put "_isGlobal" (VBool true) w).
  assert (Hev : this_get "_events" w0 = this_get "_events" w).
  { unfold w0. apply this_get_put_ne. discriminate. }
  destruct (expose_capabilities_spec w0) as (w1 & t1 & E1 & Hthis & Hexp);
    [rewrite Hev; exact Hu|rewrite Hev; exact Hn|].
  destruct (expose_own_spec (this w1) w1) as (w2 & t2 & E2 & Hown).
  assert (Hrel : forall p v, exposed_as w0 w1 p v -> exposed_as w w1 p v).
  { intros p v. unfold exposed_as, reserved_hook_name. rewrite Hev. auto. }
  exists w1, t1, w2, (t1 ++ t2). split; [exact E1|]. split; [|split].
  - unfold go_global. unfold bind at 1. unfold modify at 1. fold w0.
    unfold bind. rewrite E1. unfold expose_own, bind, gets. rewrite E2. reflexivity.
  - assert (Hthis2 : this w2 = this w1 /\ proto w2 = proto w1).
    { clear -E2. revert E2. generalize (this w1) at 1. intros l. revert w1 t2.
      induction l as [|c l IH]; intros w1 t2.
      - intros [= <- _]. auto.
      - cbn [for_each]. unfold bind at 1. unfold modify at 1.
        destruct (for_each _ l (window_put (fst c) (snd c) w1)) as [[r w3] t3] eqn:E.
        intros [= -> -> _]. apply IH in E. exact E. }
    unfold this_get. destruct Hthis2 as [-> ->]. rewrite Hthis.
    unfold w0. cbn. rewrite assoc_update. reflexivity.
  - intros p v Hpv. split; [apply Hrel, Hexp, Hpv|].
    intros Hnone Hne. apply (exposed_as_window w w1); [|apply Hrel, Hexp, Hpv].
    apply Hown. intros v' Hin. rewrite Hthis in Hin.
    apply In_assoc in Hin as [v'' Hv'']. unfold w0 in Hv''. cbn in Hv''.
    rewrite assoc_update in Hv''. destruct (decide ("_isGlobal" = p)); congruence.
Qed.

Lemma global_mode_exposes_capabilities_witness :
  exists w1 t1 w2 t2,
    expose_capabilities (this_put "_isGlobal" (VBool true) GlobalSamples.fresh)
    = (Ok tt, w1, t1) /\
    go_global GlobalSamples.fresh = (Ok tt, w2, t2) /\
    truthy (this_get "_isGlobal" w2) = true /\
    forall p v, assoc p (proto GlobalSamples.fresh) = Some v ->
      ((is_function v = true -> reserved_hook_name GlobalSamples.fresh p = true ->
        assoc p (window w1) = assoc p (window GlobalSamples.fresh)) /\
       (forall f, v = VFun f -> reserved_hook_name GlobalSamples.fresh p = false ->
        exists k, assoc p (window w1) = Some (VFun (Bound f k))) /\
       (is_function v = false -> assoc p (window w1) = Some v)) /\
      (assoc p (this GlobalSamples.fresh) = None -> p <> "_isGlobal" ->
       exposed_as GlobalSamples.fresh w2 p v).
Proof.
  apply (global_mode_exposes_capabilities GlobalSamples.fresh);
    vm_compute; discriminate.
Defined.

(** The claim of C8 as the spec words it fails: the constructor does not
    look for a hook name, it looks at the name less its first two
    characters; a function named [xxclick] is the hook of no event, and is
    skipped just as [onclick] would be. *)
Lemma capability_ending_in_event_is_skipped :
  ~ (forall constants node w0 w1 t1 p v,
        expose_capabilities
          (this_put "_isGlobal" (VBool true) (initialised constants node w0))
        = (Ok tt, w1, t1) ->
        assoc p (proto (initialised constants node w0)) = Some v ->
        (is_function v = true -> interaction_hook_name p = true ->
         assoc p (window w1) = assoc p (window w0)) /\
        (forall f, v = VFun f -> interaction_hook_name p = false ->
         exists k, assoc p (window w1) = Some (VFun (Bound f k))) /\
        (is_function v = false -> assoc p (window w1) = Some v)).
Proof.
  intros H.
  set (run := expose_capabilities
                (this_put "_isGlobal" (VBool true)
                   (initialised [] VUndef GlobalSamples.lookalike_page))).
  destruct (H [] VUndef GlobalSamples.lookalike_page (world_of run) (trace_of run)
              "xxclick" (VFun (Lib "xxclick"))) as (_ & H2 & _).
  - vm_compute. reflexivity.
  - vm_compute. reflexivity.
  - destruct (H2 (Lib "xxclick") eq_refl) as [k Hk]; [vm_compute; reflexivity|].
    vm_compute in Hk. discriminate Hk.
Qed.

(** On the sample page: [rect] is exposed bound, [onmousedown] is skipped,
    [frameCount] is copied. *)
Example sample_globals :
  let w := world_of (go_global GlobalSamples.fresh) in
  assoc "rect" (window w) = Some (VFun (Bound (Lib "rect") 4)) /\
  assoc "onmousedown" (window w) = None /\
  assoc "frameCount" (window w) = Some (VNum (num 0)) /\
  assoc "_isGlobal" (window w) = Some (VBool true).
Proof. vm_compute. repeat split. Qed.

(** The constructor comes to [go_global] exactly when it is given no
    sketch closure. *)
Lemma p5_without_sketch extern calls inline constants sketch node w :
  truthy sketch = false ->
  p5 extern calls inline constants sketch node w =
  bind (init node)
    (fun _ => bind (for_each (fun c => modify (set_proto (update (fst c) (snd c)))) constants)
    (fun _ => bind go_global
    (fun _ => bind (gets (this_get "_events"))
    (fun evs => bind (for_each (fun c => bind_event (fst c)) (entries evs))
    (fun _ => bind (addEventListener TWindow "focus" (Core "focus"))
    (fun _ => bind (addEventListener TWindow "blur" (Core "blur"))
    (fun _ => bind (gets ready)
    (fun r => if r then _start extern calls inline
              else bind (bind_this (Core "_start"))
                     (fun m => addEventListener TWindow "load" m))))))))) w.
Proof. intros H. unfold p5. rewrite H. reflexivity. Qed.

(** ** Teardown *)

(** A loop that returns has had every turn return; a relation every turn
    is in holds of the loop, and what a turn establishes and later turns
    keep holds of every item at the end. *)
Lemma for_each_inv {A} (body : A -> M unit)
    (R : World -> World -> Prop) (Q : A -> World -> Prop) l :
  (forall w, R w w) ->
  (forall a b c, R a b -> R b c -> R a c) ->
  (forall a w w', Q a w -> R w w' -> Q a w') ->
  (forall a w w' t, In a l -> body a w = (Ok tt, w', t) -> R w w' /\ Q a w') ->
  forall w w' t,
    for_each body l w = (Ok tt, w', t) ->
    R w w' /\ forall a, In a l -> Q a w'.
Proof.
  intros Hrefl Htrans Hstable. induction l as [|a l IH]; intros Hbody w w' t Hrun.
  - injection Hrun as <- _. split; [apply Hrefl|contradiction].
  - cbn [for_each] in Hrun. apply bind_ok in Hrun as ([] & w1 & t1 & t2 & E1 & E2 & _).
    destruct (Hbody a w w1 t1 (or_introl eq_refl) E1) as [HR1 HQ1].
    destruct (IH (fun b w0 w0' t0 Hb => Hbody b w0 w0' t0 (or_intror Hb)) w1 w' t2 E2)
      as [HR2 HQ2].
    split; [eapply Htrans; eassumption|].
    intros b [<-|Hb]; [eapply Hstable; eassumption|apply HQ2, Hb].
Qed.

Lemma tidy_refl w : tidy w w.
Proof. unfold tidy. auto. Qed.

Lemma tidy_trans a b c : tidy a b -> tidy b c -> tidy a c.
Proof.
  intros (H1 & H2 & H3 & H4 & H5) (K1 & K2 & K3 & K4 & K5).
  unfold tidy. repeat split; auto. congruence.
Qed.

Lemma unsubscribed_tidy x w w' : unsubscribed x w -> tidy w w' -> unsubscribed x w'.
Proof. intros H (H1 & _) Hin. apply H, H1, Hin. Qed.

Lemma detached_tidy n w w' : detached n w -> tidy w w' -> detached n w'.
Proof. intros H (_ & H2 & _). apply H2, H. Qed.

Lemma calm_refl w : calm w w.
Proof. unfold calm. auto using tidy_refl. Qed.

Lemma calm_trans a b c : calm a b -> calm b c -> calm a c.
Proof.
  intros (H1 & H2 & H3 & H4) (K1 & K2 & K3 & K4).
  unfold calm. split; [eapply tidy_trans; eassumption|].
  split; [congruence|split; congruence].
Qed.

Lemma calm_tidy w w' : calm w w' -> tidy w w'.
Proof. intros [H _]. exact H. Qed.

Lemma calm_this_get p w w' : calm w w' -> this_get p w' = this_get p w.
Proof. intros (_ & Ht & Hp & _). unfold this_get. rewrite Ht, Hp. reflexivity. Qed.

Lemma removeEventListener_spec t ev h w w' tr :
  removeEventListener t ev h w = (Ok tt, w', tr) ->
  calm w w' /\
  forall f, h = VFun f -> unsubscribed (t, ev, f) w'.
Proof.
  unfold removeEventListener, bind, emit, modify, ret.
  destruct h as [| | | | |f| | |]; intros [= <- _];
    (split; [try apply calm_refl|try discriminate]).
  - unfold calm, tidy. cbn. repeat split; auto.
    intros x Hx. apply filter_In in Hx. tauto.
  - intros f' [= <-]. unfold unsubscribed. cbn. rewrite filter_In.
    intros [_ Hx]. unfold same_listener in Hx.
    rewrite bool_decide_eq_true_2 in Hx by reflexivity. discriminate Hx.
Qed.

Lemma removeChild_spec n w :
  exists w', removeChild n w = (Ok tt, w', [EvDetach n]) /\
             calm w w' /\ detached n w'.
Proof.
  eexists. split; [reflexivity|]. split.
  - unfold calm, tidy. cbn. repeat split; auto.
    intros m Hm. rewrite assoc_without. destruct (decide (n = m)); auto.
  - unfold detached. cbn. rewrite assoc_without.
    destruct (decide (n = n)); [reflexivity|contradiction].
Qed.

Lemma element_removed_tidy e w w' :
  element_removed e w -> tidy w w' -> element_removed e w'.
Proof.
  intros H Ht n Hn. destruct (H n Hn) as [Hd Hu]. split.
  - eapply detached_tidy; eassumption.
  - intros ev h Hin. eapply unsubscribed_tidy; [apply Hu, Hin|exact Ht].
Qed.

Lemma unsubscribe_all_spec t l w w' tr :
  for_each (fun h : string * value => removeEventListener t (fst h) (snd h)) l w
  = (Ok tt, w', tr) ->
  calm w w' /\
  forall ev h, In (ev, VFun h) l -> unsubscribed (t, ev, h) w'.
Proof.
  intros Hrun.
  destruct (for_each_inv
              (fun h : string * value => removeEventListener t (fst h) (snd h))
              calm
              (fun h w => forall f, snd h = VFun f -> unsubscribed (t, fst h, f) w)
              l calm_refl calm_trans) with (w := w) (w' := w') (t := tr) as [HR HQ].
  - intros a w1 w2 HQ Ht f Hf.
    eapply unsubscribed_tidy; [apply HQ, Hf|apply calm_tidy, Ht].
  - intros a w1 w2 t1 _ E. apply removeEventListener_spec in E as (Ht & Hu). auto.
  - exact Hrun.
  - split; [exact HR|]. intros ev h Hin. apply (HQ (ev, VFun h) Hin). reflexivity.
Qed.

Lemma remove_element_spec e w w' tr :
  remove_element e w = (Ok tt, w', tr) ->
  calm w w' /\ element_removed e w'.
Proof.
  unfold remove_element. intros Hrun.
  assert (Hgo : match obj_get "elt" (entries e) with
                | VNode n =>
                    bind (gets (fun w => assoc n (parentNode w)))
                      (fun par => bind (when (bool_decide (is_Some par)) (removeChild n))
                      (fun _ => for_each
                        (fun h => removeEventListener (TNode n) (fst h) (snd h))
                        (entries (obj_get "_events" (entries e)))))
                | _ => throw
                end w = (Ok tt, w', tr)).
  { destruct e; try discriminate Hrun; exact Hrun. }
  clear Hrun. unfold element_removed.
  destruct (obj_get "elt" (entries e)) as [| | | | | |n| |]; try discriminate Hgo.
  apply bind_ok in Hgo as (par & w1 & t1 & t2 & E1 & E2 & _).
  injection E1 as <- <- _.
  apply bind_ok in E2 as ([] & w2 & t3 & t4 & E2 & E3 & _).
  apply unsubscribe_all_spec in E3 as [Ht3 Hu3].
  assert (H2 : calm w w2 /\ detached n w2).
  { destruct (assoc n (parentNode w)) as [p|] eqn:Hp.
    - rewrite bool_decide_eq_true_2 in E2 by eauto. cbn [when] in E2.
      destruct (removeChild_spec n w) as (w2' & E & Ht & Hd).
      rewrite E in E2. injection E2 as <- _. auto.
    - rewrite bool_decide_eq_false_2 in E2 by (intros [? ?]; discriminate).
      injection E2 as <- _. split; [apply calm_refl|exact Hp]. }
  destruct H2 as [Ht2 Hd2]. split; [eapply calm_trans; eassumption|].
  intros m [= <-]. split; [|exact Hu3].
  eapply detached_tidy; [eassumption|apply calm_tidy, Ht3].
Qed.

Lemma remove_elements_spec l w w' tr :
  for_each remove_element l w = (Ok tt, w', tr) ->
  calm w w' /\ forall e, In e l -> element_removed e w'.
Proof.
  apply (for_each_inv remove_element calm element_removed l calm_refl calm_trans).
  - intros e w1 w2 He Hc. eapply element_removed_tidy; [exact He|apply calm_tidy, Hc].
  - intros e w1 w2 t _ E. apply remove_element_spec in E. exact E.
Qed.

Lemma when_clearTimer_spec b v w w' tr :
  when b (clearTimer v) w = (Ok tt, w', tr) -> calm w w'.
Proof.
  destruct b; cbn [when]; [unfold clearTimer; destruct (handle_of v)|];
    intros [= <- _]; unfold calm, tidy; cbn; repeat split; auto.
Qed.

Lemma this_put_tidy p v w : p <> "_isGlobal" -> tidy w (this_put p v w).
Proof.
  intros Hp. unfold tidy. cbn. split; [auto|]. split; [auto|]. split; [|split; [auto|]].
  - apply this_get_put_ne. exact Hp.
  - intros q Hq. rewrite assoc_update. destruct (decide (p = q)); eauto.
Qed.

(** The removal hooks, each looked up on the instance and called. *)
Lemma call_hooks_spec extern l w w' tr :
  (forall f args w1 r1 w2, extern f args w1 = (r1, w2) -> tidy w1 w2) ->
  for_each (fun f => bind (call_method extern f []) (fun _ => ret tt)) l w
  = (Ok tt, w', tr) ->
  tidy w w'.
Proof.
  intros Hhooks Hrun.
  apply (for_each_inv _ tidy (fun _ _ => True) l tidy_refl tidy_trans
           (fun _ _ _ _ _ => I)) in Hrun; [apply Hrun|].
  intros f w1 w2 t _ E. split; [|exact I].
  apply bind_ok in E as (v & w3 & t1 & t2 & E & E' & _). injection E' as <- _.
  unfold call_method in E. apply bind_ok in E as (g & ? & ? & ? & E1 & E2 & _).
  injection E1 as <- <- _.
  destruct (this_get f w1) as [| | | | |h| | |]; try discriminate E2.
  cbn [call_value call] in E2.
  destruct (extern h [] w1) as [r w4] eqn:Eh. injection E2 as _ <- _.
  eapply Hhooks. exact Eh.
Qed.

Lemma delete_all_spec l w :
  exists w' t,
    for_each (fun c : string * value => delete_global (fst c)) l w = (Ok tt, w', t) /\
    this w' = this w /\
    (forall p, assoc p (window w) = None -> assoc p (window w') = None) /\
    (forall p v, In (p, v) l -> assoc p (window w') = None).
Proof.
  revert w. induction l as [|[q v] l IH]; intros w.
  - exists w, []. repeat split; [auto|contradiction].
  - destruct (IH (set_window (without q) w)) as (w' & t & E & Ht & Hkeep & Hdel).
    exists w', (EvDelete q :: t). cbn [for_each fst]. unfold bind at 1.
    unfold delete_global at 1. unfold bind at 1, emit at 1, modify at 1.
    rewrite E. split; [reflexivity|]. split; [exact Ht|split].
    + intros p Hp. apply Hkeep. cbn. rewrite assoc_without, Hp.
      destruct (decide (q = p)); reflexivity.
    + intros p v' [[= -> ->]|Hin]; [|eapply Hdel; exact Hin].
      apply Hkeep. cbn. rewrite assoc_without.
      destruct (decide (p = p)); [reflexivity|contradiction].
Qed.

(** C2.  When [remove] returns on an instance that has an active primary
    element, the removal hooks only having released things (they subscribe
    no handler, attach no element, and leave the binding mode, the
    capability names and the own property names in place): every handler
    recorded in [this._events] is unsubscribed from [window]; for every
    record of [this._elements] the element has no parent and none of the
    handlers the record holds is subscribed on it; and in Global mode no
    capability name and no own property name of the instance is left on
    the global namespace. *)
Theorem remove_tears_down extern w w' tr :
  truthy (this_get "_curElement" w) = true ->
  (forall f args w1 r1 w2, extern f args w1 = (r1, w2) -> tidy w1 w2) ->
  remove extern w = (Ok tt, w', tr) ->
  (forall ev h, In (ev, VFun h) (entries (this_get "_events" w)) ->
                unsubscribed (TWindow, ev, h) w') /\
  (forall e, In e (items (this_get "_elements" w)) -> element_removed e w') /\
  (truthy (this_get "_isGlobal" w) = true ->
   forall p, is_Some (assoc p (proto w)) \/ is_Some (assoc p (this w)) ->
             assoc p (window w') = None).
Proof.
  intros Hcur Hhooks Hrun. unfold remove in Hrun.
  apply bind_ok in Hrun as (cur & w0 & t0 & t0' & E0 & Hrun & _).
  injection E0 as <- <- _. rewrite Hcur in Hrun. cbn [when] in Hrun.
  apply bind_ok in Hrun as ([] & w1 & ? & ? & E1 & Hrun & _).
  injection E1 as <- _.
  pose proof (this_put_tidy "_loop" (VBool false) w ltac:(discriminate)) as T1.
  assert (Hget1 : forall p, p <> "_loop" ->
            this_get p (this_put "_loop" (VBool false) w) = this_get p w).
  { intros p Hp. apply this_get_put_ne. congruence. }
  set (w1 := this_put "_loop" (VBool false) w) in *.
  apply bind_ok in Hrun as (d & ? & ? & ? & E & Hrun & _). injection E as <- <- _.
  apply bind_ok in Hrun as ([] & w2 & ? & ? & E2 & Hrun & _).
  apply when_clearTimer_spec in E2 as T2.
  apply bind_ok in Hrun as (u & ? & ? & ? & E & Hrun & _). injection E as <- <- _.
  apply bind_ok in Hrun as ([] & w3 & ? & ? & E3 & Hrun & _).
  apply when_clearTimer_spec in E3 as T3.
  pose proof (calm_trans _ _ _ T2 T3) as T13.
  apply bind_ok in Hrun as (evs & ? & ? & ? & E & Hrun & _). injection E as <- <- _.
  rewrite (calm_this_get _ _ _ T13), Hget1 in Hrun by discriminate.
  apply bind_ok in Hrun as ([] & w4 & ? & ? & E4 & Hrun & _).
  apply unsubscribe_all_spec in E4 as [T4 U4].
  pose proof (calm_trans _ _ _ T13 T4) as T14.
  apply bind_ok in Hrun as (els & ? & ? & ? & E & Hrun & _). injection E as <- <- _.
  rewrite (calm_this_get _ _ _ T14), Hget1 in Hrun by discriminate.
  apply bind_ok in Hrun as ([] & w5 & ? & ? & E5 & Hrun & _).
  apply remove_elements_ok, remove_elements_spec in E5 as [T5 U5].
  apply bind_ok in Hrun as (hooks & ? & ? & ? & E & Hrun & _). injection E as <- <- _.
  apply bind_ok in Hrun as ([] & w6 & ? & ? & E6 & Hrun & _).
  apply forEach_ok in E6 as [_ E6].
  apply (call_hooks_spec extern _ _ _ _ Hhooks) in E6 as T6.
  apply bind_ok in Hrun as (g & ? & ? & ? & E & Hrun & _). injection E as <- <- _.
  (* from the start to the end of the hooks *)
  assert (T06 : tidy w w6).
  { eapply tidy_trans; [exact T1|]. eapply tidy_trans; [apply calm_tidy, T14|].
    eapply tidy_trans; [apply calm_tidy, T5|exact T6]. }
  assert (T46 : tidy w4 w6).
  { eapply tidy_trans; [apply calm_tidy, T5|exact T6]. }
  (* the deletion only touches the global namespace *)
  assert (Hlast : tidy w6 w' /\
                  (truthy (this_get "_isGlobal" w6) = true ->
                   forall p, is_Some (assoc p (proto w6)) \/ is_Some (assoc p (this w6)) ->
                             assoc p (window w') = None)).
  { destruct (truthy (this_get "_isGlobal" w6)); cbn [when] in Hrun.
    - apply bind_ok in Hrun as (caps & ? & ? & ? & E & Hrun & _). injection E as <- <- _.
      apply bind_ok in Hrun as ([] & w7 & ? & ? & E7 & Hrun & _).
      apply bind_ok in Hrun as (own & ? & ? & ? & E & E8 & _). injection E as <- <- _.
      destruct (delete_all_spec (proto w6) w6) as (w7' & t7 & E7' & Hthis7 & Hk7 & Hd7).
      rewrite E7' in E7. injection E7 as <- _.
      destruct (delete_all_spec (this w7') w7') as (w8 & t8 & E8' & Hthis8 & Hk8 & Hd8).
      rewrite E8' in E8. injection E8 as <- _.
      assert (Hsame : forall w9 l t9 w10,
                for_each (fun c : string * value => delete_global (fst c)) l w9
                = (Ok tt, w10, t9) -> tidy w9 w10).
      { intros w9 l. revert w9. induction l as [|c l IH]; intros w9 t9 w10.
        - intros [= <- _]. apply tidy_refl.
        - cbn [for_each]. intros Hl. apply bind_ok in Hl as ([] & wa & ? & ? & Ea & Eb & _).
          injection Ea as <- _. apply IH in Eb. eapply tidy_trans; [|exact Eb].
          unfold tidy. cbn. repeat split; auto. }
      split; [eapply tidy_trans; eapply Hsame; eassumption|].
      intros _ p [[v Hp]|[v Hp]].
      + apply Hk8. eapply Hd7. apply assoc_In. exact Hp.
      + eapply Hd8. rewrite Hthis7. apply assoc_In. exact Hp.
    - injection Hrun as <- _. split; [apply tidy_refl|discriminate]. }
  destruct Hlast as [T7 Hglobal].
  split; [|split].
  - intros ev h Hin. eapply unsubscribed_tidy; [apply U4, Hin|].
    eapply tidy_trans; eassumption.
  - intros e He. eapply element_removed_tidy; [apply U5, He|].
    eapply tidy_trans; eassumption.
  - intros Hg p Hp. apply Hglobal.
    + destruct T06 as (_ & _ & -> & _). exact Hg.
    + destruct T06 as (_ & _ & _ & Hpr & Hth). destruct Hp; [left|right]; auto.
Qed.

Lemma releasing_tidy f args w1 r1 w2 :
  TeardownSamples.releasing f args w1 = (r1, w2) -> tidy w1 w2.
Proof.
  unfold TeardownSamples.releasing. destruct (bool_decide (f = Lib "_stopSound")); intros [= _ <-].
  - unfold tidy. cbn. repeat split; auto. intros x Hx. apply filter_In in Hx. tauto.
  - apply tidy_refl.
Qed.

Lemma remove_tears_down_witness :
  (forall ev h, In (ev, VFun h) (entries (this_get "_events" Sample.running)) ->
                unsubscribed (TWindow, ev, h)
                  (world_of (remove TeardownSamples.releasing Sample.running))) /\
  (forall e, In e (items (this_get "_elements" Sample.running)) ->
             element_removed e (world_of (remove TeardownSamples.releasing Sample.running))) /\
  (truthy (this_get "_isGlobal" Sample.running) = true ->
   forall p, is_Some (assoc p (proto Sample.running)) \/
             is_Some (assoc p (this Sample.running)) ->
             assoc p (window (world_of (remove TeardownSamples.releasing Sample.running)))
             = None).
Proof.
  apply (remove_tears_down TeardownSamples.releasing Sample.running
           (world_of (remove TeardownSamples.releasing Sample.running))
           (trace_of (remove TeardownSamples.releasing Sample.running))).
  - reflexivity.
  - exact releasing_tidy.
  - vm_compute. reflexivity.
Defined.

(** The sample sketch before and after [remove]: the handlers of
    [this._events] and of the canvas are gone, the canvas is detached, both
    timers are cancelled; what is left on [window] is what the sketch put
    there itself. *)
Example sample_before_remove :
  listeners Sample.running
  = [(TWindow, "mousedown", Bound (Lib "onmousedown") 5);
     (TWindow, "focus", Core "focus"); (TWindow, "blur", Core "blur");
     (TNode 1%nat, "click", User 7)] /\
  parentNode Sample.running = [(1%nat, 0%nat)] /\
  List.map t_id (timers Sample.running) = [1; 2].
Proof. vm_compute. repeat split. Qed.

Example sample_after_remove :
  let w := world_of (remove TeardownSamples.releasing Sample.running) in
  listeners w = [(TWindow, "focus", Core "focus")] /\
  parentNode w = [] /\
  timers w = [] /\
  List.map fst (window w) = ["setup"; "draw"].
Proof. vm_compute. repeat split. Qed.

(** ** Start-up *)

Lemma restore_loop_silent context l w :
  exists w',
    for_each (fun f => let* orig := gets (fun w => read (assoc f (proto w))) in
                       modify (ctx_put context f orig)) l w
    = (Ok tt, w', []) /\ pending w' = pending w.
Proof.
  revert w. induction l as [|f l IH]; intros w; [eexists; split; reflexivity|].
  cbn [for_each]. unfold bind at 1. unfold bind at 1, gets at 1, modify at 1.
  destruct (IH (ctx_put context f (read (assoc f (proto w))) w)) as (w' & E & Hp).
  rewrite E. eexists. split; [reflexivity|]. rewrite Hp. destruct context; reflexivity.
Qed.

(** [_setup] enters once and calls at most one function, the setup hook. *)
Lemma setup_trace extern w r w' t :
  _setup extern w = (r, w', t) ->
  exists t', t = EvEnter "_setup" :: t' /\
             (t' = [] \/ exists su, t' = [EvCall su]).
Proof.
  unfold _setup. intros H.
  apply bind_inv in H as [([] & w0 & t0 & t1 & E0 & H & ->)|[E0 _]];
    [|discriminate E0].
  injection E0 as <- <-. exists t1. split; [reflexivity|].
  revert H. unfold bind at 1. unfold gets at 1. unfold bind at 1. unfold gets at 1.
  unfold bind at 1.
  assert (Hpre : exists r1 w1,
    when (is_function (ctx_get (context_of w) "preload" w))
      (let* funcs := gets (this_get "_preloadFuncs") in
       forEach funcs
         (fun f => let* orig := gets (fun w => read (assoc f (proto w))) in
                   modify (ctx_put (context_of w) f orig))) w = (r1, w1, [])).
  { destruct (is_function _); cbn [when]; [|do 2 eexists; reflexivity].
    unfold bind at 1. unfold gets at 1.
    destruct (this_get "_preloadFuncs" w) as [| | | | | | |l|];
      try (do 2 eexists; reflexivity).
    cbn [forEach].
    destruct (restore_loop_silent (context_of w) (names l) w) as (w1 & E & _).
    rewrite E. do 2 eexists. reflexivity. }
  destruct Hpre as (r1 & w1 & ->).
  destruct r1 as [[]|]; [|intros [= _ _ <-]; left; reflexivity].
  unfold bind at 1. unfold gets at 1. unfold bind at 1.
  destruct (ctx_get (context_of w) "setup" w1) as [| | | | |su| | |];
    cbn [is_function when]; try (intros [= _ _ <-]; left; reflexivity).
  unfold bind at 1. cbn [call_value call].
  destruct (extern su [] w1) as [[v|] w2]; intros [= _ _ <-]; right; eauto.
Qed.

Lemma runFrames_trace w :
  exists w' t, _runFrames w = (Ok tt, w', t) /\
               count is_setup t = 0%nat /\ count is_loaded t = 0%nat.
Proof.
  unfold _runFrames, bind, emit, gets, when, setInterval, arm, bind, gets, emit,
    modify, ret.
  destruct (truthy (this_get "_updateInterval" w));
    [unfold clearTimer; destruct (handle_of _)|]; cbn; eauto.
Qed.

Lemma rearm_trace w w' t :
  rearm w = (Ok tt, w', t) ->
  count is_setup t = 0%nat /\ count is_loaded t = 0%nat.
Proof.
  unfold rearm, bind, gets, when, setTimeout, arm, bind, gets, emit, modify, ret.
  destruct (truthy (this_get "_drawInterval" w));
    [unfold clearTimer; destruct (handle_of _)|]; cbn; intros [= _ <-]; auto.
Qed.

Lemma draw_trace extern w r w' t :
  _draw extern w = (r, w', t) ->
  count is_setup t = 0%nat /\ count is_loaded t = 0%nat.
Proof.
  rewrite draw_unfold. destruct (head_ok w) as (w2 & t2 & E).
  assert (H2 : count is_setup t2 = 0%nat /\ count is_loaded t2 = 0%nat).
  { destruct (truthy (this_get "_loop" w)).
    - eapply rearm_trace. exact E.
    - injection E as _ <-. auto. }
  destruct H2 as [H2 H2']. rewrite E.
  destruct (user_draw w) as [| | | | |g| | |];
    try (intros [= _ _ <-]; cbn; rewrite !count_app, ?H2, ?H2'; auto).
  destruct (extern g [] (pushed w2)) as [[v|] w4]; intros [= _ _ <-];
    cbn; rewrite !count_app, ?H2, ?H2'; destruct (is_undefined (user_setup w)); auto.
Qed.

(** The launch enters [_setup] first and only once. *)
Lemma launch_trace extern w r w' t :
  launch extern w = (r, w', t) ->
  exists post, t = EvEnter "_setup" :: post /\
               count is_setup post = 0%nat /\
               (r = Ok tt -> True).
Proof.
  unfold launch. unfold bind at 1.
  destruct (_setup extern w) as [[r1 w1] t1] eqn:E1.
  destruct (setup_trace _ _ _ _ _ E1) as (t1' & -> & Ht1).
  assert (H1 : count is_setup t1' = 0%nat).
  { destruct Ht1 as [->|[su ->]]; reflexivity. }
  destruct r1 as [[]|]; [|intros [= <- <- <-]; eauto].
  unfold bind at 1. destruct (runFrames_trace w1) as (w2 & t2 & E2 & H2 & _).
  rewrite E2. destruct (_draw extern w2) as [[r3 w3] t3] eqn:E3.
  apply draw_trace in E3 as [H3 _].
  intros [= <- <- <-]. eexists. split; [reflexivity|]. split; [|auto].
  rewrite !count_app, H1, H2, H3. reflexivity.
Qed.

(** What [_start] comes to once the canvas is made and no preload hook is
    found: the launch. *)
Lemma start_unfold extern calls inline w r w' tr :
  _start extern calls inline w = (r, w', tr) ->
  (r = Throw /\ count is_setup tr = 0%nat) \/
  exists cc w2 v,
    let userPreload := js_or (this_get "preload" w2) (window_get "preload" w2) in
    (exists w1 args, extern cc args w1 = (Ok v, w2) /\
                     (w1 = w \/ exists n, w1 = this_put "_userNode" n w)) /\
    exists t2,
      tr = [EvEnter "_start"; EvCall cc] ++ t2 /\
      (if truthy userPreload then
         (let* funcs := gets (this_get "_preloadFuncs") in
          forEach funcs
            (fun f => modify (ctx_put (context_of w2) f (VFun (Wrapper f))))) >>
         run_preload extern calls inline userPreload >>
         let* c := gets (this_get "_preloadCount") in
         when (is_number_zero c) (launch extern)
       else launch extern) w2 = (r, w', t2).
Proof.
  unfold _start. intros H.
  apply bind_inv in H as [([] & w0 & t0 & t1 & E0 & H & ->)|[E0 _]];
    [|discriminate E0].
  injection E0 as <- <-.
  rewrite bind_gets in H.
  set (un := this_get "_userNode" w) in H.
  assert (Hun : exists w1,
    when (truthy un && is_string un)
      (let* n := gets (fun w => match un with
                                | VStr s => from_option VNode VNull (assoc s (ids w))
                                | _ => VNull
                                end) in
       modify (this_put "_userNode" n)) w = (Ok tt, w1, []) /\
    (w1 = w \/ exists n, w1 = this_put "_userNode" n w)).
  { destruct (truthy un && is_string un); cbn [when].
    - eexists. split; [reflexivity|]. right. eexists. reflexivity.
    - eexists. split; [reflexivity|]. auto. }
  destruct Hun as (w1 & Eun & Hw1).
  rewrite (bind_silent _ _ _ _ _ Eun), bind_gets in H.
  remember (this_get "_defaultCanvasSize" w1) as size eqn:Hsize.
  remember [obj_get "width" (entries size); obj_get "height" (entries size); VBool true]
    as args eqn:Hargs.
  assert (Hgo :
    (r = Throw /\ t1 = []) \/
    (let* _ := call_method extern "createCanvas" args in
     let* userPreload :=
       gets (fun w => js_or (this_get "preload" w) (window_get "preload" w)) in
     let* context := gets context_of in
     if truthy userPreload then
       (let* funcs := gets (this_get "_preloadFuncs") in
        forEach funcs (fun f => modify (ctx_put context f (VFun (Wrapper f))))) >>
       run_preload extern calls inline userPreload >>
       let* c := gets (this_get "_preloadCount") in
       when (is_number_zero c) (_setup extern >> _runFrames >> _draw extern)
     else _setup extern >> _runFrames >> _draw extern) w1 = (r, w', t1)).
  { clear Hsize Hargs.
    destruct size;
      [ left; unfold throw in H; injection H as <- _ <-; auto
      | left; unfold throw in H; injection H as <- _ <-; auto
      | right; exact H .. ]. }
  clear H. destruct Hgo as [[-> ->]|H]; [left; auto|].
  apply bind_inv in H as [(v & w2 & tc & t2 & Ec & H & ->)|[Ec ->]].
  - unfold call_method, bind, gets in Ec.
    destruct (this_get "createCanvas" w1) as [| | | | |cc| | |]; try discriminate Ec.
    cbn [call_value call] in Ec.
    destruct (extern cc args w1) as [[v'|] w2'] eqn:Ecc; [|discriminate Ec].
    injection Ec as <- <- <-.
    right. exists cc, w2', v'. cbn zeta. split; [eauto|].
    exists t2. split; [reflexivity|].
    rewrite !bind_gets in H. exact H.
  - left. split; [reflexivity|].
    unfold call_method, bind, gets in Ec.
    destruct (this_get "createCanvas" w1) as [| | | | |cc| | |];
      try (injection Ec as _ <-; reflexivity).
    cbn [call_value call] in Ec.
    destruct (extern cc args w1) as [[v'|] w2']; [discriminate Ec|].
    injection Ec as _ <-. reflexivity.
Qed.




Example start_without_preload_trace :
  trace_of (_start Sample.ext Sample.calls Sample.deferred StartSamples.waiting)
  = [EvEnter "_start"; EvCall (Lib "createCanvas");
     EvEnter "_setup"; EvCall (User 4);
     EvEnter "_runFrames"; EvSetInterval 1;
     EvEnter "_draw"; EvSetTimeout 2; EvPush; EvCall (User 1); EvPop].
Proof. vm_compute. reflexivity. Qed.

Example foreign_preload_trace :
  trace_of (_start Sample.ext Sample.calls Sample.deferred StartSamples.foreign_preload)
  = [EvEnter "_start"; EvCall (Lib "createCanvas");
     EvCall (User 0); EvLoad 0 "loadImage"; EvCall (Lib "loadImage")].
Proof. vm_compute. reflexivity. Qed.

(** ** The preload gate *)

(** C1, on a loader that completes before it returns.  The preload hook of
    the sample sketch makes one load call; the loader invokes the
    completion callback at once, the callback brings the counter back to
    zero and launches the sketch, and then [_start], finding the counter at
    zero after the hook has returned, launches it again: the setup routine
    and the setup hook run twice for one completed load. *)
Theorem inline_completion_runs_setup_twice :
  let run := _start Sample.ext Sample.calls Sample.inline StartSamples.preloading in
  outcome_of run = Ok tt /\
  count is_loaded (trace_of run) = 1%nat /\
  count is_setup (trace_of run) = 2%nat /\
  count (is_call (User 4)) (trace_of run) = 2%nat.
Proof. vm_compute. repeat split. Qed.

Example inline_completion_trace :
  trace_of (_start Sample.ext Sample.calls Sample.inline StartSamples.preloading)
  = [EvEnter "_start"; EvCall (Lib "createCanvas");
     EvCall (User 0); EvLoad 0 "loadImage"; EvCall (Lib "loadImage"); EvLoaded;
     EvEnter "_setup"; EvCall (User 4);
     EvEnter "_runFrames"; EvSetInterval 1;
     EvEnter "_draw"; EvSetTimeout 2; EvPush; EvCall (User 1); EvPop;
     EvEnter "_setup"; EvCall (User 4);
     EvEnter "_runFrames"; EvClear 1; EvSetInterval 3;
     EvEnter "_draw"; EvClear 2; EvSetTimeout 4; EvPush; EvCall (User 1); EvPop].
Proof. vm_compute. reflexivity. Qed.

(** With the same loader deferred, the load completes from the event loop
    and setup runs once, after it. *)
Example deferred_completion_trace :
  let started := _start Sample.ext Sample.calls Sample.deferred StartSamples.preloading in
  trace_of started
  = [EvEnter "_start"; EvCall (Lib "createCanvas");
     EvCall (User 0); EvLoad 0 "loadImage"; EvCall (Lib "loadImage")] /\
  trace_of (complete Sample.ext 0 (world_of started))
  = [EvLoaded; EvEnter "_setup"; EvCall (User 4);
     EvEnter "_runFrames"; EvSetInterval 1;
     EvEnter "_draw"; EvSetTimeout 2; EvPush; EvCall (User 1); EvPop].
Proof. vm_compute. split; reflexivity. Qed.

(** *** Loads that complete from the event loop *)

Lemma gate_neutral_refl w : gate_neutral w w.
Proof. unfold gate_neutral. auto. Qed.

Lemma gate_neutral_trans a b c : gate_neutral a b -> gate_neutral b c -> gate_neutral a c.
Proof.
  intros (H1 & H2 & H3 & H4 & H5) (K1 & K2 & K3 & K4 & K5).
  unfold gate_neutral. repeat split; congruence.
Qed.

Lemma gate_neutral_context w w' : gate_neutral w w' -> context_of w' = context_of w.
Proof. intros (_ & _ & H & _). unfold context_of. rewrite H. reflexivity. Qed.

Lemma gate_neutral_gate n w w' : gate_neutral w w' -> gate n w -> gate n w'.
Proof.
  intros Hn (G1 & G2 & G3 & G4 & G5). pose proof (gate_neutral_context _ _ Hn) as Hc.
  destruct Hn as (H1 & H2 & H3 & H4 & H5).
  unfold gate. rewrite Hc, H4, H5, H1.
  split; [exact G1|]. split; [|split; [exact G3|split; [exact G4|exact G5]]].
  rewrite <- G2. destruct (context_of w); cbn [ctx_get]; assumption.
Qed.

Lemma ctx_put_neutral c f v w :
  f <> "_preloadCount" -> f <> "_isGlobal" -> gate_neutral w (ctx_put c f v w).
Proof.
  intros H1 H2. destruct c; unfold gate_neutral; cbn [ctx_put].
  - repeat split; try reflexivity. unfold window_get. cbn. rewrite assoc_update.
    destruct (decide (f = "_preloadCount")); [contradiction|reflexivity].
  - rewrite !this_get_put_ne by assumption. repeat split; reflexivity.
Qed.

(** Writing the counter through [_setProperty] keeps the instance and the
    context in step. *)
Lemma setProperty_gate n m w :
  gate n w ->
  exists w',
    _setProperty "_preloadCount" (VNum (num (Z.of_nat m))) w = (Ok tt, w', []) /\
    this_get "_preloadCount" w' = VNum (num (Z.of_nat m)) /\
    ctx_get (context_of w') "_preloadCount" w' = VNum (num (Z.of_nat m)) /\
    context_of w' = context_of w /\
    pending w' = pending w /\ next_load w' = next_load w /\ proto w' = proto w.
Proof.
  intros _.
  destruct (setProperty_spec "_preloadCount" (VNum (num (Z.of_nat m))) w)
    as (w' & E & Hthis & Hwin & Hproto & _ & _ & Hpend & _).
  assert (Hnl : next_load w' = next_load w).
  { revert E. unfold _setProperty, bind, modify, gets, when, ret.
    destruct (truthy _); intros [= <-]; reflexivity. }
  assert (Hg : this_get "_isGlobal" (this_put "_preloadCount" (VNum (num (Z.of_nat m))) w)
               = this_get "_isGlobal" w).
  { apply this_get_put_ne. discriminate. }
  rewrite Hg in Hwin.
  assert (Hg' : this_get "_isGlobal" w' = this_get "_isGlobal" w).
  { unfold this_get. rewrite Hthis, Hproto, assoc_update.
    destruct (decide ("_preloadCount" = "_isGlobal")); [discriminate|reflexivity]. }
  assert (Hc : this_get "_preloadCount" w' = VNum (num (Z.of_nat m))).
  { unfold this_get. rewrite Hthis, assoc_update. reflexivity. }
  exists w'. split; [exact E|]. split; [exact Hc|]. split; [|split; [|auto]].
  - unfold context_of. rewrite Hg'. destruct (truthy (this_get "_isGlobal" w)); cbn [ctx_get].
    + unfold window_get. rewrite Hwin, assoc_update. reflexivity.
    + exact Hc.
  - unfold context_of. rewrite Hg'. reflexivity.
Qed.

Section Deferred.

Variable extern : fn -> list value -> World -> result value * World.
Variable calls : fn -> list (string * value).
Variable inline : string -> value -> bool.

Hypothesis all_deferred : forall func path, inline func path = false.
Hypothesis extern_neutral :
  forall f args w r w', extern f args w = (r, w') -> gate_neutral w w'.
Hypothesis extern_registry :
  forall f args w r w',
    extern f args w = (r, w') ->
    this_get "_preloadFuncs" w' = this_get "_preloadFuncs" w.

Lemma call_value_neutral v args w r w' t :
  call_value extern v args w = (r, w', t) ->
  gate_neutral w w' /\ count is_setup t = 0%nat /\ count is_loaded t = 0%nat.
Proof.
  destruct v as [| | | | |g| | |]; cbn [call_value call];
    try (intros [= _ <- <-]; split; [apply gate_neutral_refl|auto]).
  destruct (extern g args w) as [rg wg] eqn:E. intros [= _ <- <-].
  split; [eapply extern_neutral; exact E|auto].
Qed.

(** A wrapped load call takes the gate from [n] to [n + 1]. *)
Lemma preload_step n func path w r w' t :
  gate n w ->
  _preload extern inline func path w = (r, w', t) ->
  count is_setup t = 0%nat /\ count is_loaded t = 0%nat /\
  forall v, r = Ok v -> gate (S n) w'.
Proof.
  intros G H. pose proof G as (G1 & G2 & G3 & G4 & G5).
  unfold _preload in H. rewrite !bind_gets in H. rewrite G2 in H. cbn [to_number] in H.
  rewrite js_add_num in H.
  replace (Z.of_nat n + 1) with (Z.of_nat (S n)) in H by lia.
  destruct (setProperty_gate n (S n) w G) as (w1 & E1 & C1 & C2 & Hctx & Hpend & Hnl & Hproto).
  rewrite (bind_silent _ _ _ _ _ E1) in H. rewrite !bind_gets, bind_modify in H.
  apply bind_inv in H as [([] & w2 & t2 & t3 & E2 & H & ->)|[E2 _]]; [|discriminate E2].
  injection E2 as <- <-.
  set (w2 := set_next_load (S (next_load w1)) w1) in *.
  apply bind_inv in H as [(v & w3 & t4 & t5 & E3 & H & ->)|[E3 ->]].
  - apply call_value_neutral in E3 as (N3 & S3 & L3).
    rewrite all_deferred in H.
    rewrite bind_modify in H. injection H as <- <- <-.
    cbn [count is_setup is_loaded is_enter app]. rewrite !count_app, S3, L3.
    split; [reflexivity|]. split; [reflexivity|]. intros _ _.
    pose proof (gate_neutral_context _ _ N3) as Hc3.
    change (context_of w2) with (context_of w1) in Hc3.
    destruct N3 as (K1 & K2 & K3 & K4 & K5).
    change (this_get "_preloadCount" w2) with (this_get "_preloadCount" w1) in K1.
    change (window_get "_preloadCount" w2) with (window_get "_preloadCount" w1) in K2.
    change (pending w2) with (pending w1) in K4.
    change (next_load w2) with (S (next_load w1)) in K5.
    set (w4 := set_pending
                 (fun l => l ++ [Load (next_load w1) func path (context_of w)]) w3).
    assert (Hctx4 : context_of w4 = context_of w).
    { change (context_of w3 = context_of w). congruence. }
    unfold gate. rewrite Hctx4.
    change (this_get "_preloadCount" w4) with (this_get "_preloadCount" w3).
    change (next_load w4) with (next_load w3).
    change (pending w4) with (pending w3 ++ [Load (next_load w1) func path (context_of w)]).
    assert (C3 : ctx_get (context_of w) "_preloadCount" w4 = VNum (num (Z.of_nat (S n)))).
    { rewrite <- C2, Hctx.
      destruct (context_of w); cbn [ctx_get]; [exact K2|exact K1]. }
    rewrite K4, K5, Hpend, Hnl.
    split; [congruence|]. split; [exact C3|]. split; [|split].
    + rewrite length_app, G3. cbn. lia.
    + intros x Hx. apply in_app_or in Hx as [Hx|[<-|[]]].
      * destruct (G4 x Hx) as [Hxc Hxi]. split; [exact Hxc|lia].
      * cbn. split; [reflexivity|lia].
    + rewrite map_app. cbn.
      apply List.NoDup_app;
        [exact G5|apply List.NoDup_cons; [intros []|apply List.NoDup_nil]|].
      intros i Hi Hi'. destruct Hi' as [<-|[]].
      apply in_map_iff in Hi as (x & Hxi & Hx). destruct (G4 x Hx) as [_ Hlt]. lia.
  - apply call_value_neutral in E3 as (_ & S3 & L3).
    cbn [count is_setup is_loaded is_enter app]. rewrite S3, L3.
    split; [reflexivity|]. split; [reflexivity|]. discriminate.
Qed.

Lemma call_capability_step n cap path w r w' t :
  gate n w ->
  call_capability extern inline cap path w = (r, w', t) ->
  count is_setup t = 0%nat /\ count is_loaded t = 0%nat /\
  forall v, r = Ok v -> gate n w' \/ gate (S n) w'.
Proof.
  intros G H. unfold call_capability in H. rewrite !bind_gets in H.
  assert (Hcases :
    (exists func, _preload extern inline func path w = (r, w', t)) \/
    (exists f, call_value extern f [path] w = (r, w', t))).
  { destruct (ctx_get (context_of w) cap w) as [| | | | |g| | |] eqn:Ef;
      try (right; eexists; exact H).
    destruct g; try (right; eexists; exact H). left. eexists. exact H. }
  clear H. destruct Hcases as [[func H]|[f H]].
  - destruct (preload_step _ _ _ _ _ _ _ G H) as (S1 & L1 & G1). eauto.
  - apply call_value_neutral in H as (N & S1 & L1).
    split; [exact S1|]. split; [exact L1|]. intros _ _. left.
    eapply gate_neutral_gate; eassumption.
Qed.

Lemma load_calls_spec l :
  forall n w r w' t,
    gate n w ->
    for_each (fun c : string * value =>
                call_capability extern inline (fst c) (snd c) >> ret tt) l w
    = (r, w', t) ->
    count is_setup t = 0%nat /\ count is_loaded t = 0%nat /\
    (r = Ok tt -> exists m, gate m w' /\ (n <= m)%nat).
Proof.
  induction l as [|c l IH]; intros n w r w' t G H.
  - injection H as <- <- <-. repeat split; eauto.
  - cbn [for_each] in H.
    apply bind_inv in H as [([] & w1 & t1 & t2 & E1 & H & ->)|[E1 ->]].
    + apply bind_inv in E1 as [(v & w1' & t1' & t1'' & E1 & Er & ->)|[E1 Hr]];
        [|discriminate Hr].
      injection Er as <- <-.
      destruct (call_capability_step _ _ _ _ _ _ _ G E1) as (S1 & L1 & G1).
      destruct (G1 v eq_refl) as [G1'|G1'].
      * destruct (IH _ _ _ _ _ G1' H) as (S2 & L2 & G2).
        rewrite !count_app, S1, L1, S2, L2. repeat split; auto.
      * destruct (IH _ _ _ _ _ G1' H) as (S2 & L2 & G2).
        rewrite !count_app, S1, L1, S2, L2. repeat split; auto.
        intros Hr. destruct (G2 Hr) as (m & Gm & Hle). exists m. split; [exact Gm|lia].
    + apply bind_inv in E1 as [(v & w1' & t1' & t1'' & E1 & Er & ->)|[E1 _]];
        [discriminate Er|].
      destruct (call_capability_step _ _ _ _ _ _ _ G E1) as (S1 & L1 & _).
      repeat split; [exact S1|exact L1|discriminate].
Qed.

Lemma run_preload_spec n hook w r w' t :
  gate n w ->
  run_preload extern calls inline hook w = (r, w', t) ->
  count is_setup t = 0%nat /\ count is_loaded t = 0%nat /\
  (r = Ok tt -> exists m, gate m w' /\ (n <= m)%nat).
Proof.
  intros G H. unfold run_preload in H.
  destruct hook as [| | | | |h| | |];
    try (injection H as <- <- <-; repeat split; discriminate).
  apply bind_inv in H as [([] & w1 & t1 & t2 & E1 & H & ->)|[E1 _]]; [|discriminate E1].
  injection E1 as <- <-.
  destruct (load_calls_spec _ _ _ _ _ _ G H) as (S1 & L1 & G1).
  cbn. rewrite S1, L1. auto.
Qed.

(** Installing the wrappers leaves the gate alone, the counter and the
    binding mode not being registered as preload functions. *)
Lemma install_wrappers_spec c l w :
  ~ In "_preloadCount" l -> ~ In "_isGlobal" l ->
  exists w',
    for_each (fun f => modify (ctx_put c f (VFun (Wrapper f)))) l w = (Ok tt, w', []) /\
    gate_neutral w w'.
Proof.
  revert w. induction l as [|f l IH]; intros w H1 H2.
  - exists w. split; [reflexivity|apply gate_neutral_refl].
  - destruct (IH (ctx_put c f (VFun (Wrapper f)) w)) as (w' & E & N).
    + intros Hin. apply H1. right. exact Hin.
    + intros Hin. apply H2. right. exact Hin.
    + exists w'. cbn [for_each]. rewrite bind_modify. split; [exact E|].
      eapply gate_neutral_trans; [|exact N]. apply ctx_put_neutral.
      * intros ->. apply H1. left. reflexivity.
      * intros ->. apply H2. left. reflexivity.
Qed.

Lemma unhide_pending fuel : forall i w, pending (unhide_from fuel i w) = pending w.
Proof.
  induction fuel as [|fuel IH]; intros i w; cbn [unhide_from]; [reflexivity|].
  destruct (hidden w !! i); [|reflexivity]. rewrite IH. reflexivity.
Qed.

Lemma setup_pending w r w' t :
  _setup extern w = (r, w', t) -> pending w' = pending w.
Proof.
  unfold _setup. intros H.
  apply bind_inv in H as [([] & w0 & t0 & t1 & E0 & H & ->)|[E0 _]]; [|discriminate E0].
  injection E0 as <- <-. rewrite !bind_gets in H.
  assert (Hpre : exists r1 w1,
    when (is_function (ctx_get (context_of w) "preload" w))
      (let* funcs := gets (this_get "_preloadFuncs") in
       forEach funcs
         (fun f => let* orig := gets (fun w => read (assoc f (proto w))) in
                   modify (ctx_put (context_of w) f orig))) w = (r1, w1, []) /\
    pending w1 = pending w).
  { destruct (is_function _); cbn [when]; [|eexists _, _; split; reflexivity].
    rewrite bind_gets.
    destruct (this_get "_preloadFuncs" w) as [| | | | | | |l|];
      try (eexists _, _; split; reflexivity).
    cbn [forEach].
    destruct (restore_loop_silent (context_of w) (names l) w) as (w1 & E & Hp).
    eexists _, _. split; [exact E|exact Hp]. }
  destruct Hpre as (r1 & w1 & E1 & Hp1).
  destruct r1 as [[]|].
  2:{ unfold bind at 1 in H. rewrite E1 in H. injection H as _ <- _. exact Hp1. }
  rewrite (bind_silent _ _ _ _ _ E1), bind_gets in H.
  assert (Hsu : exists w2 tsu rsu,
    when (is_function (ctx_get (context_of w) "setup" w1))
      (call_value extern (ctx_get (context_of w) "setup" w1) [] >> ret tt) w1
    = (rsu, w2, tsu) /\ pending w2 = pending w1).
  { destruct (ctx_get (context_of w) "setup" w1) as [| | | | |su| | |];
      cbn [is_function when]; try (eexists _, _, _; split; reflexivity).
    unfold bind at 1. cbn [call_value call].
    destruct (extern su [] w1) as [[v|] w2] eqn:Esu;
      eexists _, _, _; (split; [reflexivity|]);
      destruct (extern_neutral _ _ _ _ _ Esu) as (_ & _ & _ & Hp & _); exact Hp. }
  destruct Hsu as (w2 & tsu & rsu & E2 & Hp2).
  apply bind_inv in H as [([] & w2' & t2 & t3 & E2' & H & ->)|[E2' _]].
  - rewrite E2 in E2'. injection E2' as -> <- <-.
    rewrite !bind_modify in H. injection H as _ <- _. cbn.
    rewrite unhide_pending. congruence.
  - rewrite E2 in E2'. injection E2' as -> <- <-. congruence.
Qed.

Lemma runFrames_pending w w' t :
  _runFrames w = (Ok tt, w', t) -> pending w' = pending w.
Proof.
  unfold _runFrames, bind, emit, gets, when, setInterval, arm, bind, gets, emit,
    modify, ret.
  destruct (truthy (this_get "_updateInterval" w));
    [unfold clearTimer; destruct (handle_of _)|]; cbn; intros [= <- _]; reflexivity.
Qed.

Lemma draw_pending w r w' t :
  _draw extern w = (r, w', t) -> pending w' = pending w.
Proof.
  rewrite draw_unfold. destruct (head_ok w) as (w2 & t2 & E).
  assert (H2 : pending w2 = pending w).
  { revert E. destruct (truthy (this_get "_loop" w)).
    - unfold rearm, bind, gets, when, setTimeout, arm, bind, gets, emit, modify, ret.
      destruct (truthy _); [unfold clearTimer; destruct (handle_of _)|]; cbn;
        intros [= <- _]; reflexivity.
    - intros [= <- _]. reflexivity. }
  rewrite E. destruct (user_draw w) as [| | | | |g| | |];
    try (intros [= _ <- _]; exact H2).
  destruct (extern g [] (pushed w2)) as [[v|] w4] eqn:Eg; intros [= _ <- _];
    destruct (extern_neutral _ _ _ _ _ Eg) as (_ & _ & _ & Hp & _); cbn;
    rewrite Hp; exact H2.
Qed.

(** The launch enters [_setup] first and once, completes no load, and
    leaves the loads in flight as they are. *)
Lemma launch_spec w r w' t :
  launch extern w = (r, w', t) ->
  pending w' = pending w /\
  exists post, t = EvEnter "_setup" :: post /\
               count is_setup post = 0%nat /\ count is_loaded post = 0%nat.
Proof.
  unfold launch. intros H.
  apply bind_inv in H as [([] & w1 & t1 & t2 & E1 & H & ->)|[E1 _]].
  - pose proof (setup_pending _ _ _ _ E1) as P1.
    destruct (setup_trace _ _ _ _ _ E1) as (t1' & -> & Ht1).
    assert (H1 : count is_setup t1' = 0%nat /\ count is_loaded t1' = 0%nat).
    { destruct Ht1 as [->|[su ->]]; auto. }
    destruct H1 as [H1 H1'].
    destruct (runFrames_trace w1) as (w2 & t2' & E2 & H2 & H2').
    rewrite (bind_ok_run _ _ _ _ _ _ E2) in H.
    destruct (_draw extern w2) as [[r3 w3] t3] eqn:E3.
    pose proof (draw_pending _ _ _ _ E3) as P3.
    apply draw_trace in E3 as [H3 H3'].
    injection H as <- <- <-. split.
    + rewrite P3, (runFrames_pending _ _ _ E2). exact P1.
    + eexists. split; [reflexivity|].
      rewrite !count_app, H1, H1', H2, H2', H3, H3'. auto.
  - pose proof (setup_pending _ _ _ _ E1) as P1.
    destruct (setup_trace _ _ _ _ _ E1) as (t1' & -> & Ht1).
    split; [exact P1|]. eexists. split; [reflexivity|].
    destruct Ht1 as [->|[su ->]]; auto.
Qed.

Lemma gate_zero_pending w : gate 0 w -> pending w = [].
Proof. intros (_ & _ & H & _). destruct (pending w); [reflexivity|discriminate H]. Qed.

Lemma is_number_zero_count m :
  is_number_zero (VNum (num (Z.of_nat m))) = Nat.eqb m 0.
Proof.
  cbn. rewrite Qeq_bool_inject_Z0. destruct m; [reflexivity|].
  apply Z.eqb_neq. lia.
Qed.

(** [_start] with every load deferred: either it has launched the sketch
    itself, no load having been started, or it has returned with the loads
    in flight and no setup. *)
Lemma start_gate w w1 t1 :
  gate 0 w ->
  ~ In "_preloadCount" (names (items (this_get "_preloadFuncs" w))) ->
  ~ In "_isGlobal" (names (items (this_get "_preloadFuncs" w))) ->
  _start extern calls inline w = (Ok tt, w1, t1) ->
  (count is_setup t1 = 0%nat /\ count is_loaded t1 = 0%nat /\
   exists m, gate (S m) w1) \/
  (pending w1 = [] /\
   exists pre post,
     t1 = pre ++ EvEnter "_setup" :: post /\
     count is_setup pre = 0%nat /\ count is_loaded pre = 0%nat /\
     count is_setup post = 0%nat /\ count is_loaded post = 0%nat).
Proof.
  intros G Hr1 Hr2 H.
  apply start_unfold in H as [[[=] _]|(cc & w2 & v & Hcc & t2 & -> & Hrun)].
  cbn zeta in Hcc, Hrun. destruct Hcc as (w0 & args & Ecc & Hw0).
  assert (N0 : gate_neutral w w0 /\
               this_get "_preloadFuncs" w0 = this_get "_preloadFuncs" w).
  { destruct Hw0 as [->|[n ->]]; [split; [apply gate_neutral_refl|reflexivity]|].
    split; [|apply this_get_put_ne; discriminate].
    unfold gate_neutral. rewrite !this_get_put_ne by discriminate. auto. }
  destruct N0 as [N0 F0].
  pose proof (gate_neutral_trans _ _ _ N0 (extern_neutral _ _ _ _ _ Ecc)) as N2.
  pose proof (gate_neutral_gate _ _ _ N2 G) as G2.
  assert (F2 : this_get "_preloadFuncs" w2 = this_get "_preloadFuncs" w).
  { rewrite (extern_registry _ _ _ _ _ Ecc). exact F0. }
  destruct (truthy (js_or (this_get "preload" w2) (window_get "preload" w2))).
  - apply bind_inv in Hrun as [([] & w3 & t3 & t3' & E3 & Hrun & ->)|[_ [=]]].
    rewrite bind_gets, F2 in E3. apply forEach_ok in E3 as [_ E3].
    destruct (install_wrappers_spec (context_of w2)
                (names (items (this_get "_preloadFuncs" w))) w2 Hr1 Hr2) as (w3' & E & N3).
    rewrite E in E3. injection E3 as <- <-. change ([] ++ t3') with t3' in *.
    pose proof (gate_neutral_gate _ _ _ N3 G2) as G3.
    apply bind_inv in Hrun as [([] & w4 & t4 & t5 & E4 & Hrun & ->)|[_ [=]]].
    destruct (run_preload_spec _ _ _ _ _ _ G3 E4) as (S4 & L4 & G4).
    destruct (G4 eq_refl) as (m & Gm & _).
    rewrite bind_gets in Hrun. destruct Gm as (C1 & Gm').
    rewrite C1, is_number_zero_count in Hrun.
    destruct m as [|m]; cbn [Nat.eqb when] in Hrun.
    + right. apply launch_spec in Hrun as (P & post & -> & Sp & Lp).
      split; [rewrite P; apply gate_zero_pending; split; assumption|].
      exists ([EvEnter "_start"; EvCall cc] ++ t4), post.
      rewrite <- app_assoc. split; [reflexivity|].
      rewrite !count_app, S4, L4. auto.
    + left. injection Hrun as <- <-. rewrite !count_app, S4, L4.
      split; [reflexivity|]. split; [reflexivity|]. exists m. split; assumption.
  - right. apply launch_spec in Hrun as (P & post & -> & Sp & Lp).
    split; [rewrite P; apply gate_zero_pending; exact G2|].
    exists [EvEnter "_start"; EvCall cc], post. auto.
Qed.

Lemma find_pending id l :
  In id (List.map l_id l) ->
  exists x, List.find (fun x => Nat.eqb (l_id x) id) l = Some x /\ In x l /\ l_id x = id.
Proof.
  induction l as [|y l IH]; cbn; [contradiction|].
  destruct (Nat.eqb_spec (l_id y) id) as [E|N].
  - intros _. exists y. auto.
  - intros [E|Hin]; [contradiction|].
    destruct (IH Hin) as (x & Hf & Hx & Hid). exists x. auto.
Qed.

Lemma filter_pending id l :
  List.NoDup (List.map l_id l) ->
  In id (List.map l_id l) ->
  let l' := List.filter (fun x => negb (Nat.eqb (l_id x) id)) l in
  S (length l') = length l /\
  List.NoDup (List.map l_id l') /\
  (forall x, In x l' -> In x l) /\
  (forall j, In j (List.map l_id l') <-> In j (List.map l_id l) /\ j <> id).
Proof.
  cbn zeta. intros Hnd Hin.
  assert (Hiff : forall j, In j (List.map l_id
                   (List.filter (fun x => negb (Nat.eqb (l_id x) id)) l))
                 <-> In j (List.map l_id l) /\ j <> id).
  { intros j. rewrite !in_map_iff. split.
    - intros (x & <- & Hx). apply filter_In in Hx as [Hx Hne].
      apply negb_true_iff, Nat.eqb_neq in Hne. eauto.
    - intros [(x & <- & Hx) Hne]. exists x. split; [reflexivity|].
      apply filter_In. split; [exact Hx|]. apply negb_true_iff, Nat.eqb_neq. exact Hne. }
  split; [|split; [|split; [|exact Hiff]]].
  - clear Hiff. induction l as [|y l IH]; [contradiction|].
    cbn in Hnd, Hin. apply List.NoDup_cons_iff in Hnd as [Hy Hnd]. cbn [List.filter].
    destruct (Nat.eqb_spec (l_id y) id) as [E|N]; cbn [negb length].
    + f_equal. clear IH Hin. subst id.
      induction l as [|z l IH]; [reflexivity|]. cbn [List.filter].
      destruct (Nat.eqb_spec (l_id z) (l_id y)) as [E|N]; cbn [negb length].
      * exfalso. apply Hy. left. exact E.
      * f_equal. apply IH.
        -- intros Hin. apply Hy. right. exact Hin.
        -- cbn in Hnd. apply List.NoDup_cons_iff in Hnd as [_ Hnd]. exact Hnd.
    + f_equal. apply IH; [exact Hnd|]. destruct Hin as [E|Hin]; [contradiction|exact Hin].
  - clear Hiff Hin. induction l as [|y l IH]; [apply List.NoDup_nil|].
    cbn in Hnd. apply List.NoDup_cons_iff in Hnd as [Hy Hnd]. cbn [List.filter].
    destruct (negb (Nat.eqb (l_id y) id)); [|apply IH, Hnd].
    cbn. apply List.NoDup_cons; [|apply IH, Hnd].
    rewrite in_map_iff. intros (x & E & Hx). apply filter_In in Hx as [Hx _].
    apply Hy. rewrite in_map_iff. eauto.
  - intros x Hx. apply filter_In in Hx as [Hx _]. exact Hx.
Qed.

(** One completion: the counter goes down by one; the last one launches
    the sketch. *)
Lemma complete_step n id w :
  gate (S n) w ->
  In id (List.map l_id (pending w)) ->
  exists r w' t,
    complete extern id w = (r, w', t) /\
    match n with
    | O => pending w' = [] /\
           exists post, t = EvLoaded :: EvEnter "_setup" :: post /\
                        count is_setup post = 0%nat /\ count is_loaded post = 0%nat
    | S _ => t = [EvLoaded] /\ gate n w' /\
             forall j, In j (List.map l_id (pending w')) <->
                       In j (List.map l_id (pending w)) /\ j <> id
    end.
Proof.
  intros G Hin. pose proof G as (G1 & G2 & G3 & G4 & G5).
  destruct (find_pending _ _ Hin) as (x & Hfind & Hx & Hid).
  destruct (G4 x Hx) as [Hxc _].
  destruct (filter_pending id (pending w) G5 Hin) as (Hlen & Hnd & Hsub & Hiff).
  unfold complete. rewrite bind_gets, Hfind, bind_modify. rewrite Hxc.
  set (w0 := set_pending (List.filter (fun x => negb (Nat.eqb (l_id x) id))) w).
  unfold preload_done.
  rewrite bind_ok_run with (a := tt) (w1 := w0) (t1 := [EvLoaded]) by reflexivity.
  rewrite bind_gets.
  change (ctx_get (context_of w) "_preloadCount" w0)
    with (ctx_get (context_of w) "_preloadCount" w).
  rewrite G2. cbn [to_number]. rewrite js_sub_num.
  replace (Z.of_nat (S n) - 1) with (Z.of_nat n) by lia.
  destruct (setProperty_spec "_preloadCount" (VNum (num (Z.of_nat n))) w0)
    as (w1 & E1 & Hthis & Hwin & Hproto & _ & _ & Hpend & _).
  assert (Hnl : next_load w1 = next_load w).
  { revert E1. unfold _setProperty, bind, modify, gets, when, ret.
    destruct (truthy _); intros [= <-]; reflexivity. }
  assert (Hg' : this_get "_isGlobal" w1 = this_get "_isGlobal" w).
  { unfold this_get. rewrite Hthis, Hproto, assoc_update.
    destruct (decide ("_preloadCount" = "_isGlobal")); [discriminate|reflexivity]. }
  assert (Hctx : context_of w1 = context_of w).
  { unfold context_of. rewrite Hg'. reflexivity. }
  assert (C1 : this_get "_preloadCount" w1 = VNum (num (Z.of_nat n))).
  { unfold this_get. rewrite Hthis, assoc_update. reflexivity. }
  assert (C2 : ctx_get (context_of w) "_preloadCount" w1 = VNum (num (Z.of_nat n))).
  { unfold context_of.
    destruct (truthy (this_get "_isGlobal" w)) eqn:Hg; cbn [ctx_get]; [|exact C1].
    unfold window_get. rewrite Hwin.
    rewrite this_get_put_ne by discriminate.
    change (this_get "_isGlobal" w0) with (this_get "_isGlobal" w). rewrite Hg.
    rewrite assoc_update. reflexivity. }
  rewrite (bind_silent _ _ _ _ _ E1), bind_gets, C2, is_number_zero_count.
  destruct n as [|n]; cbn [Nat.eqb when].
  - destruct (launch extern w1) as [[r w'] t] eqn:El.
    change (_setup extern >> _runFrames >> _draw extern) with (launch extern).
    rewrite El. exists r, w', ([EvLoaded] ++ t). split; [reflexivity|].
    apply launch_spec in El as (P & post & -> & Sp & Lp).
    split; [|exists post; auto].
    rewrite P, Hpend. change (pending w0) with
      (List.filter (fun x => negb (Nat.eqb (l_id x) id)) (pending w)).
    destruct (List.filter _ (pending w)); [reflexivity|].
    cbn in Hlen. lia.
  - exists (Ok tt), w1, [EvLoaded]. split; [reflexivity|]. split; [reflexivity|].
    split.
    + unfold gate. rewrite Hctx, Hpend, Hnl.
      change (pending w0) with
        (List.filter (fun x => negb (Nat.eqb (l_id x) id)) (pending w)).
      split; [exact C1|]. split; [exact C2|]. split; [lia|]. split; [|exact Hnd].
      intros y Hy. apply G4, Hsub, Hy.
    + rewrite Hpend. exact Hiff.
Qed.

Lemma completions_spec ids :
  forall n w,
    gate (S n) w ->
    List.NoDup ids ->
    (forall j, In j ids <-> In j (List.map l_id (pending w))) ->
    exists post,
      snd (run_completions extern ids w)
      = repeat EvLoaded (S n) ++ EvEnter "_setup" :: post /\
      count is_setup post = 0%nat /\ count is_loaded post = 0%nat.
Proof.
  induction ids as [|id ids IH]; intros n w G Hnd Hiff.
  - exfalso. destruct G as (_ & _ & Hlen & _).
    destruct (pending w) as [|x l]; [discriminate Hlen|].
    apply (proj2 (Hiff (l_id x))). left. reflexivity.
  - assert (Hin : In id (List.map l_id (pending w))) by (apply Hiff; left; reflexivity).
    destruct (complete_step n id w G Hin) as (r & w1 & t1 & E & Hstep).
    cbn [run_completions]. rewrite E.
    apply List.NoDup_cons_iff in Hnd as [Hid Hnd].
    destruct n as [|n].
    + destruct Hstep as (Hp & post & -> & Sp & Lp).
      assert (ids = []) as ->.
      { destruct ids as [|j ids]; [reflexivity|]. exfalso.
        assert (Hj : In j (List.map l_id (pending w))) by (apply Hiff; right; left; reflexivity).
        destruct G as (_ & _ & Hlen & _ & Hnd').
        destruct (pending w) as [|x [|y l]]; try discriminate Hlen.
        cbn in Hin, Hj. destruct Hin as [<-|[]], Hj as [<-|[]].
        apply Hid. left. reflexivity. }
      cbn [run_completions snd]. exists post. rewrite app_nil_r. auto.
    + destruct Hstep as (-> & G1 & Hiff1).
      destruct (IH n w1 G1 Hnd) as (post & E1 & Sp & Lp).
      * intros j. rewrite Hiff1, <- Hiff. cbn. split.
        -- intros Hj. split; [auto|]. intros ->. contradiction.
        -- intros [[->|Hj] Hne]; [contradiction|exact Hj].
      * destruct (run_completions extern ids w1) as [w2 t2]. cbn [snd] in *.
        exists post. rewrite E1. auto.
Qed.

(** X3.  However the loads started by the preload hook are ordered when
    they complete from the event loop, the run of [_start] followed by the
    completions enters [_setup] exactly once, after the last completion. *)
Lemma deferred_loads_run_setup_once w w1 t1 ids :
  gate 0 w ->
  ~ In "_preloadCount" (names (items (this_get "_preloadFuncs" w))) ->
  ~ In "_isGlobal" (names (items (this_get "_preloadFuncs" w))) ->
  _start extern calls inline w = (Ok tt, w1, t1) ->
  List.NoDup ids ->
  (forall j, In j ids <-> In j (List.map l_id (pending w1))) ->
  exists pre post,
    t1 ++ snd (run_completions extern ids w1) = pre ++ EvEnter "_setup" :: post /\
    count is_setup pre = 0%nat /\ count is_setup post = 0%nat /\
    count is_loaded pre = length ids /\ count is_loaded post = 0%nat.
Proof.
  intros G Hr1 Hr2 Hstart Hnd Hiff.
  destruct (start_gate _ _ _ G Hr1 Hr2 Hstart)
    as [(S1 & L1 & m & Gm)|(Hp & pre & post & -> & S1 & L1 & S2 & L2)].
  - destruct (completions_spec ids m w1 Gm Hnd Hiff) as (post & E & Sp & Lp).
    assert (Hlen : length ids = S m).
    { destruct Gm as (_ & _ & Hlen & _ & Hnd').
      rewrite <- Hlen, <- (length_map l_id (pending w1)).
      apply Permutation.Permutation_length, Permutation.NoDup_Permutation; assumption. }
    exists (t1 ++ repeat EvLoaded (S m)), post. rewrite E, <- app_assoc.
    split; [reflexivity|]. rewrite !count_app, S1, L1, Hlen.
    assert (Hrep : forall k, count is_setup (repeat EvLoaded k) = 0%nat /\
                             count is_loaded (repeat EvLoaded k) = k).
    { induction k as [|k [IH1 IH2]]; [auto|]. cbn. rewrite IH1, IH2. auto. }
    destruct (Hrep (S m)) as [-> ->]. auto.
  - assert (ids = []) as ->.
    { destruct ids as [|j ids]; [reflexivity|]. exfalso.
      rewrite Hp in Hiff. apply (proj1 (Hiff j)). left. reflexivity. }
    cbn [run_completions snd]. rewrite app_nil_r. exists pre, post. auto.
Qed.

End Deferred.

Lemma sample_ext_neutral f args w r w' :
  Sample.ext f args w = (r, w') ->
  gate_neutral w w' /\ this_get "_preloadFuncs" w' = this_get "_preloadFuncs" w.
Proof.
  unfold Sample.ext. intros E.
  repeat case_match; simplify_eq; unfold gate_neutral;
    rewrite ?this_get_put_ne by discriminate; auto 10.
Qed.

(** The sample sketch with a preload hook that loads two files, the loads
    completing in the reverse order. *)
Example two_deferred_loads :
  let w := window_put "preload" (VFun (User 5)) StartSamples.preloading in
  let started := _start Sample.ext Sample.calls Sample.deferred w in
  exists pre post,
    trace_of started ++ snd (run_completions Sample.ext [1; 0]%nat (world_of started))
    = pre ++ EvEnter "_setup" :: post /\
    count is_setup pre = 0%nat /\ count is_setup post = 0%nat /\
    count is_loaded pre = 2%nat /\ count is_loaded post = 0%nat.
Proof.
  cbn zeta.
  apply (deferred_loads_run_setup_once Sample.ext Sample.calls Sample.deferred
           (fun _ _ => eq_refl)
           (fun f args w r w' E => proj1 (sample_ext_neutral f args w r w' E))
           (fun f args w r w' E => proj2 (sample_ext_neutral f args w r w' E))
           (window_put "preload" (VFun (User 5)) StartSamples.preloading)).
  - unfold gate. vm_compute. repeat split; try contradiction. constructor.
  - vm_compute. intuition discriminate.
  - vm_compute. intuition discriminate.
  - vm_compute. reflexivity.
  - repeat constructor; cbn; intuition discriminate.
  - intros j. vm_compute. tauto.
Defined.

(** ** Routines that stay within a relation *)

Section Within.
Variable R : World -> World -> Prop.
Variable P : event -> Prop.
Hypothesis R_refl : forall w, R w w.
Hypothesis R_trans : forall a b c, R a b -> R b c -> R a c.

Lemma within_ret {A} (a : A) : within R P (ret a).
Proof. intros w r w' t [= <- <- <-]. auto. Qed.

Lemma within_throw {A} : within R P (@throw A).
Proof. intros w r w' t [= <- <- <-]. auto. Qed.

Lemma within_gets {A} (f : World -> A) : within R P (gets f).
Proof. intros w r w' t [= <- <- <-]. auto. Qed.

Lemma within_emit e : P e -> within R P (emit e).
Proof. intros He w r w' t [= <- <- <-]. auto. Qed.

Lemma within_modify f : (forall w, R w (f w)) -> within R P (modify f).
Proof. intros Hf w r w' t [= <- <- <-]. auto. Qed.

Lemma within_bind {A B} (m : M A) (k : A -> M B) :
  within R P m -> (forall a, within R P (k a)) -> within R P (bind m k).
Proof.
  intros Hm Hk w r w' t H.
  apply bind_inv in H as [(a & w1 & t1 & t2 & E1 & E2 & ->)|[E1 _]].
  - destruct (Hm _ _ _ _ E1) as [R1 P1]. destruct (Hk a _ _ _ _ E2) as [R2 P2].
    split; [eapply R_trans; eassumption|apply Forall_app; auto].
  - exact (Hm _ _ _ _ E1).
Qed.

Lemma within_when b (m : M unit) : within R P m -> within R P (when b m).
Proof. destruct b; [auto|intros _; apply within_ret]. Qed.

Lemma within_for_each {A} (body : A -> M unit) l :
  (forall a, In a l -> within R P (body a)) -> within R P (for_each body l).
Proof.
  induction l as [|a l IH]; intros H; cbn [for_each]; [apply within_ret|].
  apply within_bind; [apply H; left; reflexivity|].
  intros _. apply IH. intros b Hb. apply H. right. exact Hb.
Qed.

Lemma within_forEach v (body : string -> M unit) :
  (forall f, In f (names (items v)) -> within R P (body f)) ->
  within R P (forEach v body).
Proof.
  intros H. destruct v; try apply within_throw. apply within_for_each, H.
Qed.

Lemma within_remove_elements els :
  (forall e, In e (items els) -> within R P (remove_element e)) ->
  within R P (remove_elements els).
Proof.
  intros H. destruct els; try apply within_throw; try apply within_for_each, H.
  apply within_when, within_throw.
Qed.

End Within.

(** One step through a routine, for a relation known to be reflexive and
    transitive. *)
Ltac within_step :=
  first
    [ apply within_gets; solve [auto]
    | apply within_ret; solve [auto]
    | apply within_throw; solve [auto]
    | apply within_emit; [solve [auto]|try exact I]
    | apply within_when; [solve [auto]|]
    | apply within_bind; [solve [auto]| |intro]
    | apply within_forEach; [solve [auto]|solve [auto]|intros ? ?]
    | apply within_remove_elements; [solve [auto]|solve [auto]|intros ? ?]
    | apply within_for_each; [solve [auto]|solve [auto]|intros ? ?]
    | apply within_modify; intro ].

(** The same, by the shape of the routine only: a routine that has a name
    is left as it is. *)
Ltac within_shape :=
  lazymatch goal with
  | |- within _ _ (gets _) => apply within_gets; solve [auto]
  | |- within _ _ (ret _) => apply within_ret; solve [auto]
  | |- within _ _ throw => apply within_throw; solve [auto]
  | |- within _ _ (emit _) => apply within_emit; [solve [auto]|try exact I]
  | |- within _ _ (when _ _) => apply within_when; [solve [auto]|]
  | |- within _ _ (bind _ _) => apply within_bind; [solve [auto]| |intro]
  | |- within _ _ (forEach _ _) => apply within_forEach; [solve [auto]|solve [auto]|intros ? ?]
  | |- within _ _ (remove_elements _) =>
      apply within_remove_elements; [solve [auto]|solve [auto]|intros ? ?]
  | |- within _ _ (for_each _ _) => apply within_for_each; [solve [auto]|solve [auto]|intros ? ?]
  | |- within _ _ (modify _) => apply within_modify; intro
  | |- within _ _ (if ?b then _ else _) => destruct b
  | |- within _ _ (match ?v with _ => _ end) => destruct v
  end.

Lemma quiet_same f args w r w' : Sample.quiet f args w = (r, w') -> w' = w.
Proof.
  unfold Sample.quiet. destruct f as [|[|[|[|k]]]| | |]; intros [= _ <-]; reflexivity.
Qed.

(** ** The set-up routine *)

Lemma ctx_get_put c p q v w :
  ctx_get c p (ctx_put c q v w) = if decide (q = p) then v else ctx_get c p w.
Proof.
  destruct c; cbn [ctx_get ctx_put]; [|apply this_get_put].
  unfold window_get, window_put, set_window. cbn [window].
  rewrite assoc_update. destruct (decide (q = p)); reflexivity.
Qed.

Lemma ctx_get_this_put c p q v w :
  q <> p -> ctx_get c p (this_put q v w) = ctx_get c p w.
Proof.
  intros H. destruct c; cbn [ctx_get]; [reflexivity|apply this_get_put_ne, H].
Qed.

Lemma restore_loop_run c l : forall w,
  for_each (fun f => let* orig := gets (fun w => read (assoc f (proto w))) in
                     modify (ctx_put c f orig)) l w
  = (Ok tt, restore_all c l w, []).
Proof.
  induction l as [|f l IH]; intros w; [reflexivity|].
  cbn [for_each]. rewrite (bind_silent _ _ w tt (ctx_put c f (read (assoc f (proto w))) w)).
  - apply IH.
  - rewrite bind_gets. reflexivity.
Qed.

Lemma restore_all_cons c f l w :
  restore_all c (f :: l) w = restore_all c l (ctx_put c f (read (assoc f (proto w))) w).
Proof. reflexivity. Qed.

(** Putting the preload functions back writes the context only. *)
Lemma restore_all_frame c l : forall w,
  proto (restore_all c l w) = proto w /\
  hidden (restore_all c l w) = hidden w /\
  visibility (restore_all c l w) = visibility w.
Proof.
  induction l as [|f l IH]; intros w; [auto|].
  rewrite restore_all_cons.
  destruct (IH (ctx_put c f (read (assoc f (proto w))) w)) as (-> & -> & ->).
  destruct c; auto.
Qed.

Lemma restore_all_get_out c l p : forall w,
  ~ In p l -> ctx_get c p (restore_all c l w) = ctx_get c p w.
Proof.
  induction l as [|f l IH]; intros w Hp; [reflexivity|].
  rewrite restore_all_cons.
  rewrite IH by (intros H; apply Hp; right; exact H).
  rewrite ctx_get_put. destruct (decide (f = p)) as [->|]; [|reflexivity].
  exfalso. apply Hp. left. reflexivity.
Qed.

Lemma restore_all_get_in c l p : forall w,
  In p l -> ctx_get c p (restore_all c l w) = read (assoc p (proto w)).
Proof.
  induction l as [|f l IH]; intros w Hp; [contradiction|].
  rewrite restore_all_cons.
  set (w1 := ctx_put c f (read (assoc f (proto w))) w).
  assert (Hproto : proto w1 = proto w) by (destruct c; reflexivity).
  destruct (in_dec string_dec p l) as [Hin|Hout].
  - rewrite IH, Hproto by exact Hin. reflexivity.
  - destruct Hp as [->|Hp]; [|contradiction].
    rewrite restore_all_get_out by exact Hout.
    unfold w1. rewrite ctx_get_put.
    destruct (decide (p = p)); [reflexivity|contradiction].
Qed.

Lemma restored_frame w :
  proto (restored w) = proto w /\ hidden (restored w) = hidden w /\
  visibility (restored w) = visibility w.
Proof.
  unfold restored. destruct (is_function _); [apply restore_all_frame|auto].
Qed.

(** [_setup], step by step: the preload functions are put back, which
    fails without an array of them; the hook of the context is called, the
    canvases are unhidden and the flag is set. *)
Lemma setup_unfold extern w :
  _setup extern w =
  if restore_fails w then (Throw, w, [EvEnter "_setup"])
  else
    match ctx_get (context_of w) "setup" (restored w) with
    | VFun g =>
        match extern g [] (restored w) with
        | (Ok _, w2) =>
            (Ok tt, this_put "_setupDone" (VBool true) (unhidden w2),
             [EvEnter "_setup"; EvCall g])
        | (Throw, w2) => (Throw, w2, [EvEnter "_setup"; EvCall g])
        end
    | _ => (Ok tt, this_put "_setupDone" (VBool true) (unhidden (restored w)),
            [EvEnter "_setup"])
    end.
Proof.
  unfold _setup.
  unfold bind at 1. unfold emit at 1.
  rewrite !bind_gets.
  assert (Hpre :
    when (is_function (ctx_get (context_of w) "preload" w))
      (let* funcs := gets (this_get "_preloadFuncs") in
       forEach funcs
         (fun f => let* orig := gets (fun w => read (assoc f (proto w))) in
                   modify (ctx_put (context_of w) f orig))) w
    = if restore_fails w then (Throw, w, []) else (Ok tt, restored w, [])).
  { unfold restored, restore_fails, loaders.
    destruct (is_function _); cbn [when andb]; [|reflexivity].
    rewrite bind_gets.
    destruct (this_get "_preloadFuncs" w) as [| | | | | | |l|]; try reflexivity.
    cbn [forEach is_array negb items]. apply restore_loop_run. }
  destruct (restore_fails w).
  { unfold bind at 1. rewrite Hpre. reflexivity. }
  rewrite (bind_silent _ _ _ _ _ Hpre), bind_gets.
  destruct (ctx_get (context_of w) "setup" (restored w)) as [| | | | |g| | |];
    cbn [is_function when]; try reflexivity.
  unfold bind, ret, modify. cbn [call_value call].
  destruct (extern g [] (restored w)) as [[v|] w2]; reflexivity.
Qed.

Lemma unhide_from_frame fuel : forall i w,
  this (unhide_from fuel i w) = this w /\
  proto (unhide_from fuel i w) = proto w /\
  window (unhide_from fuel i w) = window w /\
  listeners (unhide_from fuel i w) = listeners w /\
  timers (unhide_from fuel i w) = timers w.
Proof.
  induction fuel as [|fuel IH]; intros i w; cbn [unhide_from]; [auto|].
  destruct (hidden w !! i); [|auto].
  destruct (IH (S i) (set_hidden (List.filter (fun n0 => negb (Nat.eqb n0 n)))
                        (set_visibility (update n "") w)))
    as (-> & -> & -> & -> & ->).
  auto.
Qed.

Lemma filter_out_absent (k : nat) l :
  ~ In k l -> List.filter (fun n => negb (Nat.eqb n k)) l = l.
Proof.
  induction l as [|a l IH]; intros H; [reflexivity|]. cbn.
  destruct (Nat.eqb_spec a k) as [->|_]; cbn.
  - exfalso. apply H. left. reflexivity.
  - rewrite IH; [reflexivity|]. intros Hin. apply H. right. exact Hin.
Qed.

Lemma filter_out_middle (k : nat) pre rest :
  List.NoDup (pre ++ k :: rest) ->
  List.filter (fun n => negb (Nat.eqb n k)) (pre ++ k :: rest) = pre ++ rest.
Proof.
  intros Hnd. apply List.NoDup_remove_2 in Hnd.
  rewrite List.filter_app. cbn. rewrite Nat.eqb_refl. cbn.
  rewrite !filter_out_absent; [reflexivity| |];
    intros Hin; apply Hnd, in_or_app; auto.
Qed.

Lemma unhide_from_done fuel i w :
  (length (hidden w) <= i)%nat -> unhide_from fuel i w = w.
Proof.
  intros H. destruct fuel; cbn [unhide_from]; [reflexivity|].
  rewrite lookup_ge_None_2 by exact H. reflexivity.
Qed.

(** The loop over the live collection handles every other canvas. *)
Lemma unhide_from_spec fuel : forall pre rest w,
  hidden w = pre ++ rest ->
  List.NoDup (hidden w) ->
  (length rest <= fuel)%nat ->
  hidden (unhide_from fuel (length pre) w) = pre ++ skipped rest /\
  (forall k, In k (visited rest) ->
             assoc k (visibility (unhide_from fuel (length pre) w)) = Some "") /\
  (forall k, ~ In k (visited rest) ->
             assoc k (visibility (unhide_from fuel (length pre) w))
             = assoc k (visibility w)).
Proof.
  induction fuel as [|fuel IH]; intros pre rest w Hh Hnd Hlen.
  - destruct rest; [|cbn in Hlen; lia]. cbn. rewrite Hh. repeat split; auto.
    contradiction.
  - destruct rest as [|k rest].
    + rewrite unhide_from_done by (rewrite Hh, app_nil_r; lia).
      cbn. rewrite Hh. repeat split; auto. contradiction.
    + cbn [unhide_from]. rewrite Hh, list_lookup_middle by reflexivity.
      rewrite Hh in Hnd.
      match goal with |- context [unhide_from _ _ ?x] => set (w1 := x) end.
      assert (Hh1 : hidden w1 = pre ++ rest).
      { unfold w1. cbn [hidden set_hidden set_visibility]. rewrite Hh.
        apply filter_out_middle, Hnd. }
      assert (Hnd1 : List.NoDup (hidden w1)).
      { rewrite Hh1. eapply List.NoDup_remove_1. exact Hnd. }
      assert (Hk : assoc k (visibility w1) = Some "").
      { cbn. rewrite assoc_update. destruct (decide (k = k)); [reflexivity|contradiction]. }
      assert (Hother : forall j, j <> k -> assoc j (visibility w1) = assoc j (visibility w)).
      { intros j Hj. cbn. rewrite assoc_update.
        destruct (decide (k = j)); [congruence|reflexivity]. }
      destruct rest as [|b rest].
      * rewrite unhide_from_done by (rewrite Hh1, app_nil_r; lia).
        rewrite Hh1. cbn [skipped visited]. split; [reflexivity|split].
        -- intros j [<-|[]]. exact Hk.
        -- intros j Hj. apply Hother. intros ->. apply Hj. left. reflexivity.
      * destruct (IH (pre ++ [b]) rest w1) as (H1 & H2 & H3).
        -- rewrite Hh1, <- app_assoc. reflexivity.
        -- exact Hnd1.
        -- cbn in Hlen. lia.
        -- rewrite length_app, Nat.add_1_r in H1, H2, H3.
           cbn [skipped visited]. split; [|split].
           ++ rewrite H1, <- app_assoc. reflexivity.
           ++ intros j [<-|Hj]; [|apply H2, Hj].
              destruct (in_dec Nat.eq_dec k (visited rest)) as [Hin|Hout];
                [apply H2, Hin|rewrite H3 by exact Hout; exact Hk].
           ++ intros j Hj. rewrite H3 by (intros Hin; apply Hj; right; exact Hin).
              apply Hother. intros ->. apply Hj. left. reflexivity.
Qed.

Lemma unhidden_spec w :
  List.NoDup (hidden w) ->
  hidden (unhidden w) = skipped (hidden w) /\
  (forall k, In k (visited (hidden w)) -> assoc k (visibility (unhidden w)) = Some "") /\
  (forall k, ~ In k (visited (hidden w)) ->
             assoc k (visibility (unhidden w)) = assoc k (visibility w)).
Proof.
  intros Hnd. apply (unhide_from_spec (length (hidden w)) [] (hidden w) w);
    [reflexivity|exact Hnd|lia].
Qed.

(** X7.  When [_setup] returns, the hook having left the hidden canvases
    alone, the canvases that carried the class [p5_hidden] have been
    handled every other one: the first, the third, ... have lost the class
    and have their visibility reset, the second, the fourth, ... still
    carry the class and keep their visibility, the loop walking by index
    a collection that shrinks as it goes. *)
Theorem setup_unhides_every_other_canvas extern w w' tr :
  List.NoDup (hidden w) ->
  (forall f args w1 r1 w2,
      extern f args w1 = (r1, w2) ->
      hidden w2 = hidden w1 /\ visibility w2 = visibility w1) ->
  _setup extern w = (Ok tt, w', tr) ->
  hidden w' = skipped (hidden w) /\
  (forall k, In k (visited (hidden w)) -> assoc k (visibility w') = Some "") /\
  (forall k, ~ In k (visited (hidden w)) ->
             assoc k (visibility w') = assoc k (visibility w)).
Proof.
  intros Hnd Hkeep Hrun. rewrite setup_unfold in Hrun.
  destruct (restore_fails w); [discriminate Hrun|].
  destruct (restored_frame w) as (_ & Hh & Hv).
  assert (Hgo : exists w2, w' = this_put "_setupDone" (VBool true) (unhidden w2) /\
                           hidden w2 = hidden w /\ visibility w2 = visibility w).
  { destruct (ctx_get (context_of w) "setup" (restored w)) as [| | | | |g| | |];
      try (injection Hrun as <- _; eauto).
    destruct (extern g [] (restored w)) as [[v|] w2] eqn:Eg; [|discriminate Hrun].
    injection Hrun as <- _. destruct (Hkeep _ _ _ _ _ Eg) as [Hh2 Hv2].
    exists w2. rewrite Hh2, Hv2. auto. }
  destruct Hgo as (w2 & -> & Hh2 & Hv2).
  cbn [hidden visibility this_put set_this].
  rewrite <- Hh2, <- Hv2. apply unhidden_spec. rewrite Hh2. exact Hnd.
Qed.

Lemma setup_unhides_every_other_canvas_witness :
  hidden (world_of (_setup Sample.quiet SetupSamples.three_hidden))
  = skipped (hidden SetupSamples.three_hidden) /\
  (forall k, In k (visited (hidden SetupSamples.three_hidden)) ->
             assoc k (visibility (world_of (_setup Sample.quiet SetupSamples.three_hidden)))
             = Some "") /\
  (forall k, ~ In k (visited (hidden SetupSamples.three_hidden)) ->
             assoc k (visibility (world_of (_setup Sample.quiet SetupSamples.three_hidden)))
             = assoc k (visibility SetupSamples.three_hidden)).
Proof.
  apply (setup_unhides_every_other_canvas Sample.quiet SetupSamples.three_hidden
           (world_of (_setup Sample.quiet SetupSamples.three_hidden))
           (trace_of (_setup Sample.quiet SetupSamples.three_hidden))).
  - vm_compute. repeat (apply List.NoDup_cons; [cbn; intuition discriminate|]).
    apply List.NoDup_nil.
  - intros f args w1 r1 w2 E. apply quiet_same in E. subst w2. auto.
  - vm_compute. reflexivity.
Defined.

(** With three hidden canvases, the second one stays hidden. *)
Example second_canvas_stays_hidden :
  let w := world_of (_setup Sample.quiet SetupSamples.three_hidden) in
  hidden w = [2%nat] /\
  visibility w = [(1, ""); (2, "hidden"); (3, "")]%nat.
Proof. vm_compute. split; reflexivity. Qed.



(** The sample sketch has a preload hook and an array of preload
    functions: [_setup] puts them back and calls the setup hook.  Without
    the array it fails before the hook. *)
Example setup_with_and_without_registry :
  restore_fails SetupSamples.three_hidden = false /\
  _setup Sample.quiet SetupSamples.no_registry
  = (Throw, SetupSamples.no_registry, [EvEnter "_setup"]).
Proof. vm_compute. split; reflexivity. Qed.

(** X6.  When [_setup] returns, every registered preload function is, on
    the context, what the prototype holds under its name if the context
    has a [preload] function, and what it was before otherwise (the setup
    hook leaving it alone). *)
Theorem setup_restores_loaders extern w w' tr f :
  In f (loaders w) ->
  f <> "_setupDone" ->
  (forall g args w1 r1 w2,
      extern g args w1 = (r1, w2) ->
      ctx_get (context_of w) f w2 = ctx_get (context_of w) f w1) ->
  _setup extern w = (Ok tt, w', tr) ->
  ctx_get (context_of w) f w' =
  if is_function (ctx_get (context_of w) "preload" w)
  then read (assoc f (proto w))
  else ctx_get (context_of w) f w.
Proof.
  intros Hin Hne Hkeep Hrun. rewrite setup_unfold in Hrun.
  destruct (restore_fails w); [discriminate Hrun|].
  assert (Hres : ctx_get (context_of w) f (restored w) =
                 if is_function (ctx_get (context_of w) "preload" w)
                 then read (assoc f (proto w))
                 else ctx_get (context_of w) f w).
  { unfold restored. destruct (is_function _); [|reflexivity].
    apply restore_all_get_in, Hin. }
  assert (Hun : forall w2, ctx_get (context_of w) f
                             (this_put "_setupDone" (VBool true) (unhidden w2))
                           = ctx_get (context_of w) f w2).
  { intros w2. rewrite ctx_get_this_put by congruence.
    destruct (unhide_from_frame (length (hidden w2)) 0 w2) as (Ht & Hp & Hw & _).
    unfold unhidden. destruct (context_of w); cbn [ctx_get].
    - unfold window_get. rewrite Hw. reflexivity.
    - unfold this_get. rewrite Ht, Hp. reflexivity. }
  destruct (ctx_get (context_of w) "setup" (restored w)) as [| | | | |g| | |];
    try (injection Hrun as <- _; rewrite Hun; exact Hres).
  destruct (extern g [] (restored w)) as [[v|] w2] eqn:Eg; [|discriminate Hrun].
  injection Hrun as <- _. rewrite Hun, (Hkeep _ _ _ _ _ Eg). exact Hres.
Qed.

Lemma setup_restores_loaders_witness :
  ctx_get (context_of SetupSamples.three_hidden) "loadImage"
    (world_of (_setup Sample.quiet SetupSamples.three_hidden))
  = if is_function (ctx_get (context_of SetupSamples.three_hidden) "preload"
                      SetupSamples.three_hidden)
    then read (assoc "loadImage" (proto SetupSamples.three_hidden))
    else ctx_get (context_of SetupSamples.three_hidden) "loadImage"
           SetupSamples.three_hidden.
Proof.
  apply (setup_restores_loaders Sample.quiet SetupSamples.three_hidden
           (world_of (_setup Sample.quiet SetupSamples.three_hidden))
           (trace_of (_setup Sample.quiet SetupSamples.three_hidden)) "loadImage").
  - vm_compute. auto.
  - discriminate.
  - intros g args w1 r1 w2 E. apply quiet_same in E. subst w2. reflexivity.
  - vm_compute. reflexivity.
Defined.

(** ** More on the draw tick *)

Lemma count_zero p t : count p t = 0%nat <-> Forall (fun e => p e = false) t.
Proof.
  induction t as [|e t IH]; cbn; [split; auto|].
  rewrite Forall_cons_iff, <- IH. destruct (p e); split; try lia; intros []; try discriminate; auto.
Qed.

Lemma rearm_events w w' t :
  rearm w = (Ok tt, w', t) ->
  Forall (fun e => is_arm e = true \/ is_clear e = true) t /\ count is_arm t = 1%nat.
Proof.
  unfold rearm, bind, gets, when, setTimeout, arm, bind, gets, emit, modify, ret.
  destruct (truthy (this_get "_drawInterval" w));
    [unfold clearTimer; destruct (handle_of _)|]; cbn; intros [= _ <-];
    (split; [repeat (apply List.Forall_cons; [first [left; reflexivity|right; reflexivity]|]);
             apply List.Forall_nil|reflexivity]).
Qed.

Lemma count_none (Q : event -> Prop) p t :
  Forall Q t -> (forall e, Q e -> p e = false) -> count p t = 0%nat.
Proof.
  intros H Hq. apply count_zero. eapply List.Forall_impl; [exact Hq|exact H].
Qed.

(** What comes before the hook in a draw tick: the time is recorded and,
    the loop flag being set, the timeout is cancelled and armed anew;
    nothing else of the instance changes. *)
Lemma draw_head w w2 t2 :
  (if truthy (this_get "_loop" w) then rearm (stamp w) else (Ok tt, stamp w, []))
  = (Ok tt, w2, t2) ->
  Forall (fun e => is_arm e = true \/ is_clear e = true) t2 /\
  count is_arm t2 = (if truthy (this_get "_loop" w) then 1 else 0)%nat /\
  (forall p, p <> "_drawInterval" -> this_get p w2 = this_get p (stamp w)) /\
  window w2 = window w.
Proof.
  destruct (truthy (this_get "_loop" w)).
  - intros H. destruct (rearm_events _ _ _ H) as [Hev Harm].
    destruct (rearm_spec (stamp w)) as (w2' & t & id & dl & E & _ & _ & _ & Hthis & Hwin).
    rewrite E in H. injection H as <- _. auto.
  - intros [= <- <-]. auto.
Qed.

Lemma stamp_get p w :
  p <> "_frameRate" -> p <> "_lastFrameTime" -> this_get p (stamp w) = this_get p w.
Proof. intros H1 H2. unfold stamp. rewrite !this_get_put_ne by congruence. reflexivity. Qed.

Lemma precedes_here a b t1 t2 t3 : precedes a b (t1 ++ a :: t2 ++ b :: t3).
Proof. exists t1, t2, t3. reflexivity. Qed.

(** X9.  A draw tick that calls the draw hook applies the pixel-density
    scale, between the push and the hook, exactly when neither the instance
    nor the global object defines [setup]; otherwise it applies no scale. *)
Theorem draw_scales_without_setup_hook extern w g r w' tr :
  user_draw w = VFun g ->
  _draw extern w = (r, w', tr) ->
  count is_scale tr = (if is_undefined (user_setup w) then 1 else 0)%nat /\
  (is_undefined (user_setup w) = true ->
   precedes EvPush (EvScale (this_get "_pixelDensity" w) (this_get "_pixelDensity" w)) tr /\
   precedes (EvScale (this_get "_pixelDensity" w) (this_get "_pixelDensity" w))
            (EvCall g) tr).
Proof.
  intros Hd Hrun. rewrite draw_unfold, Hd in Hrun.
  destruct (head_ok w) as (w2 & t2 & E). rewrite E in Hrun.
  destruct (draw_head _ _ _ E) as (Hev & _ & Hget & _).
  assert (H2 : count is_scale t2 = 0%nat).
  { apply (count_none _ _ _ Hev). intros [] [H|H]; try discriminate H; reflexivity. }
  assert (Hpd : this_get "_pixelDensity" (pushed w2) = this_get "_pixelDensity" w).
  { unfold pushed. rewrite this_get_put_ne, Hget, stamp_get by discriminate. reflexivity. }
  rewrite Hpd in Hrun.
  assert (Htr : tr = (EvEnter "_draw" :: t2) ++ EvPush ::
                     (if is_undefined (user_setup w)
                      then [EvScale (this_get "_pixelDensity" w) (this_get "_pixelDensity" w)]
                      else []) ++ EvCall g :: match r with Ok _ => [EvPop] | Throw => [] end).
  { destruct (extern g [] (pushed w2)) as [[v|] w4]; injection Hrun as <- _ <-; reflexivity. }
  rewrite Htr. split.
  - rewrite !count_app. cbn. rewrite H2, count_app.
    destruct (is_undefined (user_setup w)), r; reflexivity.
  - intros ->. split.
    + apply (precedes_here _ _ _ []).
    + exists ((EvEnter "_draw" :: t2) ++ [EvPush]), [], (match r with Ok _ => [EvPop] | Throw => [] end).
      rewrite <- app_assoc. reflexivity.
Qed.

Lemma draw_scales_without_setup_hook_witness :
  count is_scale (trace_of (_draw Sample.quiet TickSamples.no_setup))
  = (if is_undefined (user_setup TickSamples.no_setup) then 1 else 0)%nat /\
  (is_undefined (user_setup TickSamples.no_setup) = true ->
   precedes EvPush
     (EvScale (this_get "_pixelDensity" TickSamples.no_setup)
              (this_get "_pixelDensity" TickSamples.no_setup))
     (trace_of (_draw Sample.quiet TickSamples.no_setup)) /\
   precedes
     (EvScale (this_get "_pixelDensity" TickSamples.no_setup)
              (this_get "_pixelDensity" TickSamples.no_setup))
     (EvCall (User 1)) (trace_of (_draw Sample.quiet TickSamples.no_setup))).
Proof.
  apply (draw_scales_without_setup_hook Sample.quiet TickSamples.no_setup (User 1)
           (outcome_of (_draw Sample.quiet TickSamples.no_setup))
           (world_of (_draw Sample.quiet TickSamples.no_setup))).
  - vm_compute. reflexivity.
  - vm_compute. reflexivity.
Defined.

(** X8.  A draw tick that finds no draw function (on the instance or on
    the global object) returns without calling anything and without
    touching the drawing-state stack; it still records the time and,
    the loop flag being set, still arms the next cycle. *)
Theorem draw_without_hook_only_schedules extern w r w' tr :
  is_function (user_draw w) = false ->
  _draw extern w = (r, w', tr) ->
  r = Ok tt /\
  count is_any_call tr = 0%nat /\
  count is_push tr = 0%nat /\
  styles w' = styles w /\
  this_get "_lastFrameTime" w' = VNum (num (clock w)) /\
  count is_arm tr = (if truthy (this_get "_loop" w) then 1 else 0)%nat.
Proof.
  intros Hd Hrun. rewrite draw_unfold in Hrun.
  destruct (head_ok w) as (w2 & t2 & E). rewrite E in Hrun.
  destruct (draw_head _ _ _ E) as (Hev & Harm & Hget & _).
  assert (Hres : (r, w', tr) = (Ok tt, w2, EvEnter "_draw" :: t2 ++ [])).
  { destruct (user_draw w); try (symmetry; exact Hrun). discriminate Hd. }
  injection Hres as -> -> ->. rewrite app_nil_r.
  split; [reflexivity|]. split; [|split; [|split; [|split]]].
  - cbn. apply (count_none _ _ _ Hev). intros [] [H|H]; try discriminate H; reflexivity.
  - cbn. apply (count_none _ _ _ Hev). intros [] [H|H]; try discriminate H; reflexivity.
  - eapply rearm_keeps_styles. exact E.
  - rewrite Hget by discriminate. unfold stamp. apply this_get_put_eq.
  - cbn. exact Harm.
Qed.

Lemma draw_without_hook_only_schedules_witness :
  outcome_of (_draw Sample.quiet TickSamples.no_draw) = Ok tt /\
  count is_any_call (trace_of (_draw Sample.quiet TickSamples.no_draw)) = 0%nat /\
  count is_push (trace_of (_draw Sample.quiet TickSamples.no_draw)) = 0%nat /\
  styles (world_of (_draw Sample.quiet TickSamples.no_draw)) = styles TickSamples.no_draw /\
  this_get "_lastFrameTime" (world_of (_draw Sample.quiet TickSamples.no_draw))
  = VNum (num (clock TickSamples.no_draw)) /\
  count is_arm (trace_of (_draw Sample.quiet TickSamples.no_draw))
  = (if truthy (this_get "_loop" TickSamples.no_draw) then 1 else 0)%nat.
Proof.
  apply (draw_without_hook_only_schedules Sample.quiet TickSamples.no_draw).
  - vm_compute. reflexivity.
  - vm_compute. reflexivity.
Defined.

(** A draw tick leaves the properties it does not write as the hook
    leaves them: what it records before the hook is what is found after. *)
Lemma draw_stamped extern p w r w' tr :
  p <> "_drawInterval" -> p <> "styles" ->
  (forall f args w1 r1 w2,
      extern f args w1 = (r1, w2) -> this_get p w2 = this_get p w1) ->
  _draw extern w = (r, w', tr) ->
  this_get p w' = this_get p (stamp w).
Proof.
  intros H1 H2 Hkeep Hrun. rewrite draw_unfold in Hrun.
  destruct (head_ok w) as (w2 & t2 & E). rewrite E in Hrun.
  destruct (draw_head _ _ _ E) as (_ & _ & Hget & _). specialize (Hget p H1).
  destruct (user_draw w) as [| | | | |g| | |];
    try (injection Hrun as _ <- _; exact Hget).
  destruct (extern g [] (pushed w2)) as [[v|] w4] eqn:Hg;
    injection Hrun as _ <- _; pose proof (Hkeep _ _ _ _ _ Hg) as Hf.
  - unfold popped. rewrite this_get_put_ne by congruence. rewrite Hf.
    unfold pushed. rewrite this_get_put_ne by congruence. exact Hget.
  - rewrite Hf. unfold pushed. rewrite this_get_put_ne by congruence. exact Hget.
Qed.

(** X11.  A draw tick records the time at which it starts, whether its hook
    returns or throws; so the tick that starts [d] milliseconds after the
    start of the previous one measures a frame rate of 1000/[d], however
    long the previous hook has run. *)
Theorem consecutive_draw_ticks_measure_interval extern w r1 w1 t1 d r2 w2 t2 :
  d <> 0 ->
  (forall f args wa ra wb,
      extern f args wa = (ra, wb) ->
      this_get "_lastFrameTime" wb = this_get "_lastFrameTime" wa /\
      this_get "_frameRate" wb = this_get "_frameRate" wa) ->
  _draw extern w = (r1, w1, t1) ->
  _draw extern (set_clock (clock w + d) w1) = (r2, w2, t2) ->
  this_get "_lastFrameTime" w1 = VNum (num (clock w)) /\
  this_get "_frameRate" w2 = VNum (Fin (Qred (inject_Z 1000 / inject_Z d))).
Proof.
  intros Hd Hkeep Hrun1 Hrun2.
  assert (H1 : this_get "_lastFrameTime" w1 = VNum (num (clock w))).
  { rewrite (draw_stamped extern "_lastFrameTime" w r1 w1 t1) by
      (try discriminate; try exact Hrun1; intros; eapply Hkeep; eassumption).
    unfold stamp. apply this_get_put_eq. }
  split; [exact H1|].
  rewrite (draw_stamped extern "_frameRate" _ r2 w2 t2) by
    (try discriminate; try exact Hrun2; intros; eapply Hkeep; eassumption).
  unfold stamp. rewrite this_get_put_ne, this_get_put_eq by discriminate.
  rewrite (measured_finite _ (clock w)).
  - cbn [clock set_clock]. replace (clock w + d - clock w) with d by lia. reflexivity.
  - exact H1.
  - cbn [clock set_clock]. lia.
Qed.

Lemma consecutive_draw_ticks_measure_interval_witness :
  let first := _draw Sample.quiet Sample.running in
  let second := _draw Sample.quiet (set_clock (clock Sample.running + 16) (world_of first)) in
  this_get "_lastFrameTime" (world_of first) = VNum (num (clock Sample.running)) /\
  this_get "_frameRate" (world_of second)
  = VNum (Fin (Qred (inject_Z 1000 / inject_Z 16))).
Proof.
  cbn zeta.
  apply (consecutive_draw_ticks_measure_interval Sample.quiet Sample.running
           (outcome_of (_draw Sample.quiet Sample.running))
           (world_of (_draw Sample.quiet Sample.running))
           (trace_of (_draw Sample.quiet Sample.running)) 16
           (outcome_of (_draw Sample.quiet
                          (set_clock (clock Sample.running + 16)
                             (world_of (_draw Sample.quiet Sample.running)))))
           (world_of (_draw Sample.quiet
                        (set_clock (clock Sample.running + 16)
                           (world_of (_draw Sample.quiet Sample.running)))))
           (trace_of (_draw Sample.quiet
                        (set_clock (clock Sample.running + 16)
                           (world_of (_draw Sample.quiet Sample.running)))))).
  - discriminate.
  - intros f args wa ra wb E. apply quiet_same in E. subst wb. auto.
  - vm_compute. reflexivity.
  - vm_compute. reflexivity.
Defined.

Lemma drivers_app l1 l2 : drivers (l1 ++ l2) = drivers l1 ++ drivers l2.
Proof. unfold drivers. apply List.filter_app. Qed.

Lemma drivers_In t l : In t (drivers l) <-> In t l /\ t_callback t = DrawCycle.
Proof.
  unfold drivers. rewrite filter_In. split; intros [H1 H2]; split; auto.
  - apply bool_decide_eq_true_1 in H2. exact H2.
  - apply bool_decide_eq_true_2. exact H2.
Qed.

Lemma drivers_none l :
  (forall t, In t l -> t_callback t <> DrawCycle) -> drivers l = [].
Proof.
  induction l as [|t l IH]; intros H; [reflexivity|].
  cbn. rewrite bool_decide_eq_false_2 by (apply H; left; reflexivity).
  apply IH. intros t' Ht'. apply H. right. exact Ht'.
Qed.

Lemma driver_recorded_same w w' :
  timers w' = timers w -> next_timer w' = next_timer w ->
  this_get "_drawInterval" w' = this_get "_drawInterval" w ->
  driver_recorded w -> driver_recorded w'.
Proof. intros Ht Hn Hd. unfold driver_recorded. rewrite Ht, Hn, Hd. auto. Qed.

(** Arming the next cycle: the timeout that was armed is cancelled first,
    then a new one is armed and recorded, and it is the only one armed. *)
Lemma rearm_one_driver w :
  driver_recorded w ->
  exists w' t id,
    rearm w = (Ok tt, w', t) /\
    driver_recorded w' /\
    drivers (timers w')
    = [Timer id false DrawCycle
         (js_div (num 1000) (to_number (this_get "_targetFrameRate" w)))] /\
    this_get "_drawInterval" w' = VNum (num id) /\
    (forall old, In old (drivers (timers w)) -> ~ In old (timers w')).
Proof.
  intros (Hpos & Hrange & Hrec).
  set (d := this_get "_drawInterval" w).
  assert (Hclear : exists w1 t,
    when (truthy d) (clearTimer d) w = (Ok tt, w1, t) /\
    this w1 = this w /\ proto w1 = proto w /\ next_timer w1 = next_timer w /\
    (forall x, In x (timers w1) -> In x (timers w)) /\
    drivers (timers w1) = [] /\
    (forall old, In old (drivers (timers w)) -> ~ In old (timers w1))).
  { assert (Hcases : (forall x, In x (timers w) -> t_callback x <> DrawCycle) \/
                     exists old, In old (timers w) /\ t_callback old = DrawCycle).
    { destruct (drivers (timers w)) as [|old rest] eqn:Hold.
      - left. intros x Hx Hcb.
        assert (In x (drivers (timers w))) as Hin by (apply drivers_In; auto).
        rewrite Hold in Hin. exact Hin.
      - right. exists old. apply drivers_In. rewrite Hold. left. reflexivity. }
    destruct Hcases as [Hnone|(old & Hin & Hcb)].
    - assert (Hno : forall old, In old (drivers (timers w)) -> False).
      { intros old Ho. apply drivers_In in Ho as [Ho Hcb]. exact (Hnone _ Ho Hcb). }
      destruct (truthy d); cbn [when]; [unfold clearTimer; destruct (handle_of d) as [i|]|].
      + exists (set_timers (disarm i) w), [EvClear i]. repeat split.
        * intros x Hx. cbn in Hx. apply disarm_In in Hx. tauto.
        * apply drivers_none. intros x Hx. cbn in Hx. apply disarm_In in Hx.
          apply Hnone. tauto.
        * intros old Ho. destruct (Hno _ Ho).
      + exists w, []. repeat split; auto.
        * apply drivers_none. exact Hnone.
        * intros old Ho. destruct (Hno _ Ho).
      + exists w, []. repeat split; auto.
        * apply drivers_none. exact Hnone.
        * intros old Ho. destruct (Hno _ Ho).
    - pose proof (Hrec _ Hin Hcb) as Hu. fold d in Hu.
      assert (Htr : truthy d = true).
      { rewrite Hu, truthy_num. destruct (Z.eqb_spec (t_id old) 0) as [E|]; [|reflexivity].
        specialize (Hrange _ Hin). lia. }
      rewrite Htr. cbn [when]. unfold clearTimer. rewrite Hu, handle_of_num.
      exists (set_timers (disarm (t_id old)) w), [EvClear (t_id old)].
      assert (Hsame : forall x, In x (timers w) -> t_callback x = DrawCycle ->
                                t_id x = t_id old).
      { intros x Hx Hx'. pose proof (Hrec _ Hx Hx') as Hu'. fold d in Hu'.
        rewrite Hu in Hu'. injection Hu' as Hu'. symmetry. exact Hu'. }
      repeat split.
      + intros x Hx. cbn in Hx. apply disarm_In in Hx. tauto.
      + apply drivers_none. intros x Hx Hx'. cbn in Hx. apply disarm_In in Hx as [Hx Hid].
        apply Hid, Hsame; assumption.
      + intros x Ho. apply drivers_In in Ho as [Hx Hx']. cbn. rewrite disarm_In.
        intros [_ Hne]. apply Hne, Hsame; assumption. }
  destruct Hclear as (w1 & t & E & Hthis & Hproto & Hnext & Hsub & Hnone & Hold).
  assert (Hrate : this_get "_targetFrameRate" w1 = this_get "_targetFrameRate" w).
  { unfold this_get. rewrite Hthis, Hproto. reflexivity. }
  set (delay := js_div (num 1000) (to_number (this_get "_targetFrameRate" w))).
  set (id := next_timer w1).
  exists (this_put "_drawInterval" (VNum (num id))
            (set_next_timer (id + 1)
               (set_timers (fun l => l ++ [Timer id false DrawCycle delay]) w1))),
    (t ++ [EvSetTimeout id]), id.
  split; [|split; [|split; [|split]]].
  - unfold rearm. rewrite bind_gets. fold d. unfold bind at 1. rewrite E.
    rewrite bind_gets, Hrate. reflexivity.
  - unfold driver_recorded. cbn [next_timer timers this_put set_this set_next_timer set_timers].
    subst id. rewrite Hnext. split; [lia|split].
    + intros x Hx. apply in_app_or in Hx as [Hx|[<-|[]]].
      * specialize (Hrange _ (Hsub _ Hx)). lia.
      * cbn. lia.
    + intros x Hx Hcb. rewrite this_get_put_eq. apply in_app_or in Hx as [Hx|[<-|[]]].
      * exfalso. assert (In x (drivers (timers w1))) as Hin by (apply drivers_In; auto).
        rewrite Hnone in Hin. exact Hin.
      * reflexivity.
  - cbn [timers this_put set_this set_next_timer set_timers].
    rewrite drivers_app, Hnone. reflexivity.
  - apply this_get_put_eq.
  - intros old Ho. pose proof (Hold _ Ho) as Hgone.
    cbn [timers this_put set_this set_next_timer set_timers].
    intros Hin. apply in_app_or in Hin as [Hin|[<-|[]]]; [exact (Hgone Hin)|].
    apply drivers_In in Ho as [Ho _].
    specialize (Hrange _ Ho). cbn in Hrange. subst id. lia.
Qed.

(** X10.  A draw tick that runs while the loop flag is set cancels the
    timeout of the previous cycle before it arms the next one: when the
    armed timeouts of the draw cycle are those [_drawInterval] records and
    the hook arms and cancels none, the tick ends with exactly one such
    timeout armed, the new one, recorded in [_drawInterval] and due after
    1000/[_targetFrameRate] milliseconds. *)
Theorem draw_keeps_one_driver extern w r w' tr :
  truthy (this_get "_loop" w) = true ->
  driver_recorded w ->
  (forall f args w1 r1 w2,
      extern f args w1 = (r1, w2) ->
      timers w2 = timers w1 /\ next_timer w2 = next_timer w1 /\
      this_get "_drawInterval" w2 = this_get "_drawInterval" w1) ->
  _draw extern w = (r, w', tr) ->
  driver_recorded w' /\
  (exists id,
     drivers (timers w')
     = [Timer id false DrawCycle
          (js_div (num 1000) (to_number (this_get "_targetFrameRate" w)))] /\
     this_get "_drawInterval" w' = VNum (num id)) /\
  (forall old, In old (drivers (timers w)) -> ~ In old (timers w')).
Proof.
  intros Hloop Hrec Hkeep Hrun. rewrite draw_unfold, Hloop in Hrun.
  assert (Hrec0 : driver_recorded (stamp w)).
  { apply (driver_recorded_same w); [reflexivity|reflexivity| |exact Hrec].
    apply stamp_get; discriminate. }
  destruct (rearm_one_driver _ Hrec0) as (w2 & t2 & id & E & Hrec2 & Hone & Hid & Hold).
  rewrite E in Hrun. rewrite stamp_get in Hone by discriminate.
  assert (Hgoal : forall w3,
    timers w3 = timers w2 -> next_timer w3 = next_timer w2 ->
    this_get "_drawInterval" w3 = this_get "_drawInterval" w2 ->
    driver_recorded w3 /\
    (exists id,
       drivers (timers w3)
       = [Timer id false DrawCycle
            (js_div (num 1000) (to_number (this_get "_targetFrameRate" w)))] /\
       this_get "_drawInterval" w3 = VNum (num id)) /\
    (forall old, In old (drivers (timers w)) -> ~ In old (timers w3))).
  { intros w3 Ht Hn Hd. split; [|split].
    - eapply driver_recorded_same; eassumption.
    - exists id. rewrite Ht, Hd. auto.
    - rewrite Ht. exact Hold. }
  destruct (user_draw w) as [| | | | |g| | |];
    try (injection Hrun as _ <- _; apply Hgoal; reflexivity).
  assert (Hpush : timers (pushed w2) = timers w2 /\ next_timer (pushed w2) = next_timer w2 /\
                  this_get "_drawInterval" (pushed w2) = this_get "_drawInterval" w2).
  { unfold pushed. rewrite this_get_put_ne by discriminate. auto. }
  destruct Hpush as (P1 & P2 & P3).
  destruct (extern g [] (pushed w2)) as [[v|] w4] eqn:Hg;
    injection Hrun as _ <- _; destruct (Hkeep _ _ _ _ _ Hg) as (K1 & K2 & K3).
  - apply Hgoal; unfold popped; cbn [timers next_timer this_put set_this];
      rewrite ?this_get_put_ne by discriminate; congruence.
  - apply Hgoal; congruence.
Qed.

Lemma running_driver_recorded : driver_recorded Sample.running.
Proof.
  unfold driver_recorded. split; [reflexivity|split].
  - intros t Ht. vm_compute in Ht. destruct Ht as [<-|[<-|[]]]; cbn; lia.
  - intros t Ht Hcb. vm_compute in Ht. destruct Ht as [<-|[<-|[]]].
    + discriminate Hcb.
    + reflexivity.
Qed.

Lemma draw_keeps_one_driver_witness :
  driver_recorded (world_of (_draw Sample.quiet Sample.running)) /\
  (exists id,
     drivers (timers (world_of (_draw Sample.quiet Sample.running)))
     = [Timer id false DrawCycle
          (js_div (num 1000) (to_number (this_get "_targetFrameRate" Sample.running)))] /\
     this_get "_drawInterval" (world_of (_draw Sample.quiet Sample.running))
     = VNum (num id)) /\
  (forall old, In old (drivers (timers Sample.running)) ->
               ~ In old (timers (world_of (_draw Sample.quiet Sample.running)))).
Proof.
  apply (draw_keeps_one_driver Sample.quiet Sample.running
           (outcome_of (_draw Sample.quiet Sample.running))
           (world_of (_draw Sample.quiet Sample.running))
           (trace_of (_draw Sample.quiet Sample.running))).
  - reflexivity.
  - exact running_driver_recorded.
  - intros f args w1 r1 w2 E. apply quiet_same in E. subst w2. auto.
  - vm_compute. reflexivity.
Defined.

(** ** More on the start routine *)

(** [_start] first looks up the node named by [_userNode]. *)
Lemma resolve_run w :
  let un := this_get "_userNode" w in
  when (truthy un && is_string un)
    (let* n := gets (fun w => match un with
                              | VStr s => from_option VNode VNull (assoc s (ids w))
                              | _ => VNull
                              end) in
     modify (this_put "_userNode" n)) w
  = (Ok tt, resolved w, []).
Proof.
  cbn zeta. unfold resolved.
  destruct (this_get "_userNode" w) as [| |b|x|s| | | |]; cbn [truthy is_string andb when];
    rewrite ?andb_false_r; try reflexivity.
  destruct (String.eqb s ""); reflexivity.
Qed.

Lemma resolved_get p w : p <> "_userNode" -> this_get p (resolved w) = this_get p w.
Proof.
  intros Hp. unfold resolved. destruct (this_get "_userNode" w); try reflexivity.
  destruct (String.eqb _ _); [reflexivity|]. apply this_get_put_ne. congruence.
Qed.

Lemma resolved_window w : window (resolved w) = window w.
Proof.
  unfold resolved. destruct (this_get "_userNode" w); try reflexivity.
  destruct (String.eqb _ _); reflexivity.
Qed.

(** X1.  The first thing [_start] calls is [createCanvas], with the width
    and height of [_defaultCanvasSize] and [true], in the world where
    [_userNode], when it was a non-empty string, has been replaced by the
    element of that id (or [null]); when [createCanvas] throws, or is not a
    function, [_start] ends there: no hook is called and no timer armed. *)
Theorem start_makes_canvas_first extern calls inline w o r w' tr :
  this_get "_defaultCanvasSize" w = VObj o ->
  _start extern calls inline w = (r, w', tr) ->
  (forall cc, this_get "createCanvas" w = VFun cc ->
     exists t, tr = EvEnter "_start" :: EvCall cc :: t /\
               forall w2, extern cc (canvas_args w) (resolved w) = (Throw, w2) ->
                          r = Throw /\ w' = w2 /\ t = []) /\
  (is_function (this_get "createCanvas" w) = false ->
   r = Throw /\ w' = resolved w /\ tr = [EvEnter "_start"]).
Proof.
  intros Hsize Hrun. unfold _start in Hrun.
  apply bind_inv in Hrun as [([] & w0 & t0 & t1 & E0 & Hrun & ->)|[E0 _]];
    [|discriminate E0].
  injection E0 as <- <-. rewrite bind_gets in Hrun.
  rewrite (bind_silent _ _ _ _ _ (resolve_run w)), bind_gets in Hrun.
  rewrite resolved_get, Hsize in Hrun by discriminate. cbv iota in Hrun.
  assert (Hargs : canvas_args w
                  = [obj_get "width" (entries (VObj o)); obj_get "height" (entries (VObj o));
                     VBool true]).
  { unfold canvas_args. rewrite Hsize. reflexivity. }
  rewrite <- Hargs in Hrun.
  apply bind_inv in Hrun as [(v & w2 & tc & t2 & Ec & Hrun & ->)|[Ec ->]];
    unfold call_method in Ec; rewrite bind_gets, resolved_get in Ec by discriminate.
  - split.
    + intros cc Hcc. rewrite Hcc in Ec. cbn [call_value call] in Ec.
      destruct (extern cc (canvas_args w) (resolved w)) as [[v'|] w2'] eqn:Ecc;
        [|discriminate Ec].
      injection Ec as <- <- <-. exists t2. split; [reflexivity|]. discriminate.
    + intros Hnf. destruct (this_get "createCanvas" w); try discriminate Hnf;
        discriminate Ec.
  - split.
    + intros cc Hcc. rewrite Hcc in Ec. cbn [call_value call] in Ec.
      destruct (extern cc (canvas_args w) (resolved w)) as [[v'|] w2'] eqn:Ecc;
        [discriminate Ec|].
      injection Ec as <- <-. exists []. split; [reflexivity|].
      intros w2 [= <-]. auto.
    + intros Hnf. destruct (this_get "createCanvas" w); try discriminate Hnf;
        injection Ec as <- <-; auto.
Qed.

Lemma start_makes_canvas_first_witness :
  (forall cc, this_get "createCanvas" StartSamples.waiting = VFun cc ->
     exists t,
       trace_of (_start Sample.ext Sample.calls Sample.deferred StartSamples.waiting)
       = EvEnter "_start" :: EvCall cc :: t /\
       forall w2, Sample.ext cc (canvas_args StartSamples.waiting)
                    (resolved StartSamples.waiting) = (Throw, w2) ->
                  outcome_of (_start Sample.ext Sample.calls Sample.deferred
                                StartSamples.waiting) = Throw /\
                  world_of (_start Sample.ext Sample.calls Sample.deferred
                              StartSamples.waiting) = w2 /\
                  t = []) /\
  (is_function (this_get "createCanvas" StartSamples.waiting) = false ->
   outcome_of (_start Sample.ext Sample.calls Sample.deferred StartSamples.waiting) = Throw /\
   world_of (_start Sample.ext Sample.calls Sample.deferred StartSamples.waiting)
   = resolved StartSamples.waiting /\
   trace_of (_start Sample.ext Sample.calls Sample.deferred StartSamples.waiting)
   = [EvEnter "_start"]).
Proof.
  apply (start_makes_canvas_first Sample.ext Sample.calls Sample.deferred
           StartSamples.waiting
           [("width", VNum (num 100)); ("height", VNum (num 100))]).
  - vm_compute. reflexivity.
  - vm_compute. reflexivity.
Defined.

(** Installing the counting wrappers writes the registered names, on the
    context only. *)
Lemma install_wrappers_run c l : forall w,
  exists w',
    for_each (fun f => modify (ctx_put c f (VFun (Wrapper f)))) l w = (Ok tt, w', []) /\
    (forall p, ~ In p l -> ctx_get c p w' = ctx_get c p w) /\
    (forall p, In p l -> ctx_get c p w' = VFun (Wrapper p)) /\
    (forall p, ~ In p l -> this_get p w' = this_get p w).
Proof.
  induction l as [|f l IH]; intros w.
  - exists w. repeat split; auto. contradiction.
  - destruct (IH (ctx_put c f (VFun (Wrapper f)) w)) as (w' & E & Hout & Hin & Hthis).
    exists w'. cbn [for_each]. rewrite bind_modify. split; [exact E|]. split; [|split].
    + intros p Hp. rewrite Hout by (intros H; apply Hp; right; exact H).
      rewrite ctx_get_put. destruct (decide (f = p)) as [->|]; [|reflexivity].
      exfalso. apply Hp. left. reflexivity.
    + intros p Hp. destruct (in_dec string_dec p l) as [Hl|Hl]; [apply Hin, Hl|].
      destruct Hp as [->|Hp]; [|contradiction].
      rewrite Hout by exact Hl. rewrite ctx_get_put.
      destruct (decide (p = p)); [reflexivity|contradiction].
    + intros p Hp. rewrite Hthis by (intros H; apply Hp; right; exact H).
      destruct c; cbn [ctx_put]; [reflexivity|].
      apply this_get_put_ne. intros ->. apply Hp. left. reflexivity.
Qed.

(** X2.  When the preload hook makes no load call, [_start] finds the
    counter at zero after the hook and launches the sketch itself: the
    hook is called, and then [_setup] is entered exactly once. *)
Theorem preload_without_loads_runs_setup_once extern calls inline w h w' tr :
  js_or (this_get "preload" w) (window_get "preload" w) = VFun h ->
  calls h = [] ->
  this_get "_preloadCount" w = VNum (num 0) ->
  ~ In "_preloadCount" (loaders w) ->
  (forall f args w1 r1 w2,
      extern f args w1 = (r1, w2) ->
      this_get "preload" w2 = this_get "preload" w1 /\
      window_get "preload" w2 = window_get "preload" w1 /\
      this_get "_preloadCount" w2 = this_get "_preloadCount" w1 /\
      this_get "_preloadFuncs" w2 = this_get "_preloadFuncs" w1) ->
  _start extern calls inline w = (Ok tt, w', tr) ->
  exists pre post,
    tr = pre ++ EvCall h :: EvEnter "_setup" :: post /\
    count is_setup pre = 0%nat /\ count is_setup post = 0%nat.
Proof.
  intros Hhook Hcalls Hzero Hreg Hkeep Hrun.
  apply start_unfold in Hrun as [[Hr _]|(cc & w2 & v & Hcc & t2 & -> & Hrun)];
    [discriminate Hr|].
  cbn zeta in Hcc, Hrun. destruct Hcc as (w1 & args & Ecc & Hw1).
  destruct (Hkeep _ _ _ _ _ Ecc) as (K1 & K2 & K3 & K4).
  assert (Hsame : forall p, p <> "_userNode" -> this_get p w1 = this_get p w).
  { intros p Hp. destruct Hw1 as [->|[n ->]]; [reflexivity|].
    apply this_get_put_ne. congruence. }
  assert (Hwin : window_get "preload" w1 = window_get "preload" w).
  { destruct Hw1 as [->|[n ->]]; reflexivity. }
  rewrite K1, K2, Hsame, Hwin, Hhook in Hrun by discriminate.
  cbn [truthy] in Hrun.
  apply bind_ok in Hrun as ([] & w3 & t3 & t4 & E3 & Hrun & ->).
  rewrite bind_gets in E3. apply forEach_ok in E3 as [_ E3].
  destruct (install_wrappers_run (context_of w2) (names (items (this_get "_preloadFuncs" w2))) w2)
    as (w3' & E3' & _ & _ & Hthis3).
  rewrite E3' in E3. injection E3 as <- <-.
  apply bind_ok in Hrun as ([] & w4 & t5 & t6 & E5 & Hrun & ->).
  unfold run_preload in E5. rewrite Hcalls in E5. injection E5 as <- <-.
  rewrite bind_gets in Hrun.
  rewrite Hthis3, K3, Hsame, Hzero in Hrun
    by (try discriminate; rewrite K4, Hsame by discriminate; exact Hreg).
  change (is_number_zero (VNum (num 0))) with true in Hrun. cbn [when] in Hrun.
  apply launch_trace in Hrun as (post & -> & Hpost & _).
  exists [EvEnter "_start"; EvCall cc], post. auto.
Qed.

Lemma preload_without_loads_runs_setup_once_witness :
  exists pre post,
    trace_of (_start Sample.quiet Sample.calls Sample.deferred PreloadSamples.idle_hook)
    = pre ++ EvCall (User 6) :: EvEnter "_setup" :: post /\
    count is_setup pre = 0%nat /\ count is_setup post = 0%nat.
Proof.
  apply (preload_without_loads_runs_setup_once Sample.quiet Sample.calls Sample.deferred
           PreloadSamples.idle_hook (User 6)
           (world_of (_start Sample.quiet Sample.calls Sample.deferred
                        PreloadSamples.idle_hook))).
  - vm_compute. reflexivity.
  - reflexivity.
  - vm_compute. reflexivity.
  - vm_compute. intuition discriminate.
  - intros f args w1 r1 w2 E. apply quiet_same in E. subst w2. auto.
  - vm_compute. reflexivity.
Defined.

(** ** More on the teardown *)

Lemma bind_assoc {A B C} (m : M A) (k : A -> M B) (h : B -> M C) w :
  bind (bind m k) h w = bind m (fun a => bind (k a) h) w.
Proof.
  unfold bind. destruct (m w) as [[[a|] w1] t1]; [|reflexivity].
  destruct (k a w1) as [[[b|] w2] t2]; [|reflexivity].
  destruct (h b w2) as [[r w3] t3]. rewrite app_assoc. reflexivity.
Qed.

Lemma bind_ext {A B} (m : M A) (k k' : A -> M B) w :
  (forall a w1, k a w1 = k' a w1) -> bind m k w = bind m k' w.
Proof.
  intros H. unfold bind. destruct (m w) as [[[a|] w1] t1]; [|reflexivity].
  rewrite H. reflexivity.
Qed.

(** [remove] is its three stages, run when there is an active element. *)
Lemma remove_unfold extern w :
  remove extern w =
  if truthy (this_get "_curElement" w)
  then (stop_loop >> unsubscribe_all >> release extern) w
  else (Ok tt, w, []).
Proof.
  unfold remove. rewrite bind_gets. destruct (truthy _); [|reflexivity]. cbn [when].
  unfold stop_loop. rewrite !bind_assoc. apply bind_ext. intros [] w1.
  rewrite !bind_assoc. apply bind_ext. intros d w1'.
  apply bind_ext. intros [] w2.
  rewrite !bind_assoc. apply bind_ext. intros u w2'.
  apply bind_ext. intros [] w3.
  unfold unsubscribe_all. rewrite !bind_assoc. reflexivity.
Qed.

Lemma set_timers_id w : set_timers (fun l => l) w = w.
Proof. destruct w; reflexivity. Qed.

Lemma clear_run v w :
  exists t, when (truthy v) (clearTimer v) w = (Ok tt, set_timers (cleared v) w, t) /\
            Forall (fun e => is_clear e = true) t.
Proof.
  unfold cleared. destruct (truthy v); cbn [when];
    [unfold clearTimer; destruct (handle_of v) as [i|]|].
  - exists [EvClear i]. split; [reflexivity|]. repeat constructor.
  - exists []. split; [|constructor].
    change (set_timers _ w) with (set_timers (fun l => l) w). rewrite set_timers_id. reflexivity.
  - exists []. split; [|constructor].
    change (set_timers _ w) with (set_timers (fun l => l) w). rewrite set_timers_id. reflexivity.
Qed.

Lemma cleared_In v l x : In x (cleared v l) -> In x l.
Proof.
  unfold cleared. destruct (truthy v); [destruct (handle_of v)|]; auto.
  intros H. apply disarm_In in H. tauto.
Qed.

(** Cancelling the handle a property records disarms every timer of the
    kind the property keeps track of. *)
Lemma cleared_recorded cb v l :
  (forall t, In t l -> 0 < t_id t) ->
  (forall t, In t l -> t_callback t = cb -> v = VNum (num (t_id t))) ->
  forall x, In x (cleared v l) -> t_callback x <> cb.
Proof.
  intros Hpos Hrec x Hx Hcb.
  pose proof (cleared_In _ _ _ Hx) as Hin.
  assert (Hv : truthy v = true /\ handle_of v = Some (t_id x)).
  { rewrite (Hrec _ Hin Hcb), truthy_num, handle_of_num.
    split; [|reflexivity]. specialize (Hpos _ Hin).
    destruct (Z.eqb_spec (t_id x) 0); [lia|reflexivity]. }
  destruct Hv as [Htr Hh]. unfold cleared in Hx. rewrite Htr, Hh in Hx.
  apply disarm_In in Hx as [_ Hne]. congruence.
Qed.

(** Stopping the loop lowers the flag and cancels the two handles the
    instance records; it cannot fail. *)
Lemma stop_loop_run w :
  exists t, stop_loop w = (Ok tt, stopped w, t) /\ Forall (fun e => is_clear e = true) t.
Proof.
  unfold stop_loop. rewrite bind_modify.
  set (w1 := this_put "_loop" (VBool false) w).
  assert (Hd : this_get "_drawInterval" w1 = this_get "_drawInterval" w)
    by (apply this_get_put_ne; discriminate).
  assert (Hu : this_get "_updateInterval" w1 = this_get "_updateInterval" w)
    by (apply this_get_put_ne; discriminate).
  destruct (clear_run (this_get "_drawInterval" w1) w1) as (t1 & E1 & P1).
  rewrite (bind_ok_run _ _ _ tt _ t1) by (rewrite bind_gets; exact E1).
  rewrite bind_gets.
  destruct (clear_run (this_get "_updateInterval" w1)
              (set_timers (cleared (this_get "_drawInterval" w1)) w1)) as (t2 & E2 & P2).
  change (this_get "_updateInterval" (set_timers (cleared (this_get "_drawInterval" w1)) w1))
    with (this_get "_updateInterval" w1).
  rewrite E2. exists (t1 ++ t2). split; [|apply Forall_app; auto].
  unfold stopped. rewrite Hd, Hu. reflexivity.
Qed.

Lemma stopped_timers w :
  ticker_recorded w -> driver_recorded w ->
  tickers (timers (stopped w)) = [] /\ drivers (timers (stopped w)) = [].
Proof.
  intros (_ & Hrange & Hrec) (_ & _ & Hrec'). unfold stopped.
  cbn [timers set_timers this_put set_this]. split.
  - apply tickers_none. apply (cleared_recorded FrameTick).
    + intros x Hx. apply Hrange. eapply cleared_In, Hx.
    + intros x Hx Hcb. apply Hrec; [eapply cleared_In, Hx|exact Hcb].
  - apply drivers_none. intros x Hx. apply cleared_In in Hx. revert x Hx.
    apply (cleared_recorded DrawCycle).
    + intros x Hx. apply Hrange, Hx.
    + intros x Hx Hcb. apply Hrec'; assumption.
Qed.

(** *** What the teardown stays within *)

Section Release.
Variable R : World -> World -> Prop.
Hypothesis R_refl : forall w, R w w.
Hypothesis R_trans : forall a b c, R a b -> R b c -> R a c.
Hypothesis R_element : forall n ev f w,
  R w (set_listeners (List.filter (fun l => negb (same_listener (TNode n, ev, f) l))) w).
Hypothesis R_parent : forall f w, R w (set_parentNode f w).
Hypothesis R_window : forall f w, R w (set_window f w).
Variable extern : fn -> list value -> World -> result value * World.
Hypothesis R_extern : forall f args w r w', extern f args w = (r, w') -> R w w'.

Lemma call_value_within v args : within R any_event (call_value extern v args).
Proof.
  destruct v; try within_step.
  intros w r w' t. cbn [call_value call].
  destruct (extern f args w) as [r1 w1] eqn:E. intros [= <- <- <-].
  split; [eapply R_extern; exact E|repeat constructor].
Qed.

Lemma remove_element_within e : within R any_event (remove_element e).
Proof.
  assert (Hgo : forall o, within R any_event
    match obj_get "elt" o with
    | VNode n =>
        let* par := gets (fun w => assoc n (parentNode w)) in
        when (bool_decide (is_Some par)) (removeChild n) >>
        for_each (fun h => removeEventListener (TNode n) (fst h) (snd h))
                 (entries (obj_get "_events" o))
    | _ => throw
    end).
  { intros o. destruct (obj_get "elt" o); repeat within_step.
    - apply R_parent.
    - destruct (snd _); within_step. apply R_element. }
  unfold remove_element. destruct e; try within_step; apply Hgo.
Qed.

Lemma release_within : within R any_event (release extern).
Proof.
  unfold release. repeat within_step.
  - apply remove_element_within.
  - apply call_value_within.
  - apply R_window.
  - apply R_window.
Qed.

(** Unsubscribing the handlers of [this._events] stays within a relation
    that holds of the removal of each of them. *)
Lemma unsubscribe_all_within w r w' t :
  (forall ev f w1, In (ev, VFun f) (entries (this_get "_events" w)) ->
     R w1 (set_listeners (List.filter (fun l => negb (same_listener (TWindow, ev, f) l))) w1)) ->
  unsubscribe_all w = (r, w', t) -> R w w'.
Proof.
  intros Hrm. unfold unsubscribe_all. rewrite bind_gets. intros H.
  eapply (within_for_each R any_event R_refl R_trans); [|exact H].
  intros [ev h] Hin. unfold removeEventListener. cbn [fst snd].
  within_step; [within_step|]. destruct h; within_step. apply Hrm. exact Hin.
Qed.

(** With an active element, [remove] stops the loop and goes on within
    the relation. *)
Lemma remove_within w r w' tr :
  truthy (this_get "_curElement" w) = true ->
  (forall ev f w1, In (ev, VFun f) (entries (this_get "_events" w)) ->
     R w1 (set_listeners (List.filter (fun l => negb (same_listener (TWindow, ev, f) l))) w1)) ->
  remove extern w = (r, w', tr) ->
  R (stopped w) w'.
Proof.
  intros Hcur Hrm Hrun. rewrite remove_unfold, Hcur in Hrun.
  destruct (stop_loop_run w) as (t0 & E0 & _).
  rewrite (bind_ok_run _ _ _ _ _ _ E0) in Hrun.
  destruct ((unsubscribe_all >> release extern) (stopped w)) as [[r1 w1] t1] eqn:E1.
  injection Hrun as <- <- <-.
  assert (Hev : this_get "_events" (stopped w) = this_get "_events" w).
  { unfold stopped.
    change (this_get "_events" (set_timers ?f ?x)) with (this_get "_events" x).
    apply this_get_put_ne. discriminate. }
  apply bind_inv in E1 as [([] & w2 & t2 & t3 & E2 & E3 & ->)|[E2 _]].
  - eapply R_trans.
    + eapply unsubscribe_all_within; [|exact E2]. rewrite Hev. exact Hrm.
    + eapply release_within. exact E3.
  - eapply unsubscribe_all_within; [|exact E2]. rewrite Hev. exact Hrm.
Qed.

End Release.

Lemma stopped_get p w :
  this_get p (stopped w) = if decide (p = "_loop") then VBool false else this_get p w.
Proof.
  unfold stopped.
  change (this_get p (set_timers ?f ?x)) with (this_get p x).
  rewrite this_get_put. destruct (decide ("_loop" = p)), (decide (p = "_loop"));
    congruence.
Qed.

(** X12.  With an active element, however [remove] ends, it has cancelled
    the timers of the sketch: when the armed frame-count tickers and draw
    timeouts are those the instance records and the removal hooks arm no
    timer, none of either kind is armed afterwards. *)
Theorem remove_cancels_timers extern w r w' tr :
  truthy (this_get "_curElement" w) = true ->
  ticker_recorded w ->
  driver_recorded w ->
  (forall f args w1 r1 w2,
      extern f args w1 = (r1, w2) -> forall t, In t (timers w2) -> In t (timers w1)) ->
  remove extern w = (r, w', tr) ->
  tickers (timers w') = [] /\ drivers (timers w') = [].
Proof.
  intros Hcur Hrec Hrec' Hhooks Hrun.
  assert (Hsub : forall t, In t (timers w') -> In t (timers (stopped w))).
  { apply (remove_within (fun a b => forall t, In t (timers b) -> In t (timers a)))
      with (extern := extern) (r := r) (tr := tr); auto. }
  destruct (stopped_timers w Hrec Hrec') as [H1 H2]. split.
  - apply tickers_none. intros t Ht Hcb.
    assert (In t (tickers (timers (stopped w)))) as Hin.
    { unfold tickers. apply filter_In. split; [apply Hsub, Ht|].
      apply bool_decide_eq_true_2, Hcb. }
    rewrite H1 in Hin. exact Hin.
  - apply drivers_none. intros t Ht Hcb.
    assert (In t (drivers (timers (stopped w)))) as Hin
      by (apply drivers_In; split; [apply Hsub, Ht|exact Hcb]).
    rewrite H2 in Hin. exact Hin.
Qed.

Lemma remove_cancels_timers_witness :
  tickers (timers (world_of (remove Sample.quiet Sample.running))) = [] /\
  drivers (timers (world_of (remove Sample.quiet Sample.running))) = [].
Proof.
  apply (remove_cancels_timers Sample.quiet Sample.running
           (outcome_of (remove Sample.quiet Sample.running))
           (world_of (remove Sample.quiet Sample.running))
           (trace_of (remove Sample.quiet Sample.running))).
  - reflexivity.
  - exact running_ticker_recorded.
  - exact running_driver_recorded.
  - intros f args w1 r1 w2 E. apply quiet_same in E. subst w2. auto.
  - vm_compute. reflexivity.
Defined.

(** X13.  With an active element, however [remove] ends, the only
    property of the instance it writes is [_loop], which it sets to
    [false]: every property the removal hooks leave alone reads as before;
    in particular [_curElement] is not reset. *)
Theorem remove_only_lowers_loop_flag extern w r w' tr p :
  truthy (this_get "_curElement" w) = true ->
  (forall f args w1 r1 w2,
      extern f args w1 = (r1, w2) -> this_get p w2 = this_get p w1) ->
  remove extern w = (r, w', tr) ->
  this_get p w' = if decide (p = "_loop") then VBool false else this_get p w.
Proof.
  intros Hcur Hhooks Hrun. rewrite <- stopped_get.
  apply (remove_within (fun a b => this_get p b = this_get p a))
    with (extern := extern) (r := r) (tr := tr); auto.
  intros a b c H1 H2. congruence.
Qed.

Lemma remove_only_lowers_loop_flag_witness :
  this_get "_curElement" (world_of (remove Sample.quiet Sample.running))
  = if decide ("_curElement" = "_loop") then VBool false
    else this_get "_curElement" Sample.running.
Proof.
  apply (remove_only_lowers_loop_flag Sample.quiet Sample.running
           (outcome_of (remove Sample.quiet Sample.running))
           (world_of (remove Sample.quiet Sample.running))
           (trace_of (remove Sample.quiet Sample.running)) "_curElement").
  - reflexivity.
  - intros f args w1 r1 w2 E. apply quiet_same in E. subst w2. reflexivity.
  - vm_compute. reflexivity.
Defined.

(** X14.  [remove] only unsubscribes from the global object the handlers
    [this._events] records: a handler subscribed there that [_events] does
    not record under its event, such as the ones the constructor
    subscribes for [focus] and [blur], is still subscribed afterwards
    (the removal hooks leaving it alone). *)
Theorem remove_keeps_unrecorded_listeners extern w r w' tr ev h :
  In (TWindow, ev, h) (listeners w) ->
  ~ In (ev, VFun h) (entries (this_get "_events" w)) ->
  (forall f args w1 r1 w2,
      extern f args w1 = (r1, w2) ->
      In (TWindow, ev, h) (listeners w1) -> In (TWindow, ev, h) (listeners w2)) ->
  remove extern w = (r, w', tr) ->
  In (TWindow, ev, h) (listeners w').
Proof.
  intros Hin Hout Hhooks Hrun.
  destruct (truthy (this_get "_curElement" w)) eqn:Hcur.
  - assert (Hfilter : forall y ls, y <> (TWindow, ev, h) ->
              In (TWindow, ev, h) ls ->
              In (TWindow, ev, h)
                (List.filter (fun l => negb (same_listener y l)) ls)).
    { intros y ls Hy Hl. apply filter_In. split; [exact Hl|].
      unfold same_listener. rewrite bool_decide_eq_false_2 by exact Hy. reflexivity. }
    apply (remove_within
             (fun a b => In (TWindow, ev, h) (listeners a) -> In (TWindow, ev, h) (listeners b)))
      with (extern := extern) (w := w) (r := r) (tr := tr); auto.
    + intros n ev' f w1. cbn. apply Hfilter. discriminate.
    + intros ev' f w1 Hrec. cbn. apply Hfilter. intros [= -> ->]. exact (Hout Hrec).
  - rewrite remove_unfold, Hcur in Hrun. injection Hrun as _ <- _. exact Hin.
Qed.

Lemma remove_keeps_unrecorded_listeners_witness :
  In (TWindow, "focus", Core "focus")
     (listeners (world_of (remove Sample.quiet Sample.running))).
Proof.
  apply (remove_keeps_unrecorded_listeners Sample.quiet Sample.running
           (outcome_of (remove Sample.quiet Sample.running))
           (world_of (remove Sample.quiet Sample.running))
           (trace_of (remove Sample.quiet Sample.running)) "focus" (Core "focus")).
  - vm_compute. auto.
  - vm_compute. intuition discriminate.
  - intros f args w1 r1 w2 E. apply quiet_same in E. subst w2. auto.
  - vm_compute. reflexivity.
Defined.

(** The number of timers a draw tick arms: one when the loop flag is
    set, none otherwise. *)
Lemma draw_arms extern w r w' tr :
  _draw extern w = (r, w', tr) ->
  count is_arm tr = (if truthy (this_get "_loop" w) then 1 else 0)%nat.
Proof.
  intros Hrun. rewrite draw_unfold in Hrun.
  destruct (head_ok w) as (w2 & t2 & E). rewrite E in Hrun.
  destruct (draw_head _ _ _ E) as (_ & Harm & _).
  destruct (user_draw w) as [| | | | |g| | |];
    try (injection Hrun as _ _ <-; cbn; rewrite count_app, Harm; cbn; lia).
  destruct (extern g [] (pushed w2)) as [[v|] w4]; injection Hrun as _ _ <-;
    cbn; rewrite count_app, Harm; destruct (is_undefined (user_setup w)); cbn; lia.
Qed.

(** X15.  After [remove], with an active element and removal hooks that
    leave the loop flag alone, the flag is [false], so that a draw tick
    that was already under way when the sketch was removed arms no
    timer: the cycle does not start again. *)
Theorem late_tick_after_remove_arms_nothing extern w r w' tr now r2 w2 t2 :
  truthy (this_get "_curElement" w) = true ->
  (forall f args w1 r1 w2,
      extern f args w1 = (r1, w2) -> this_get "_loop" w2 = this_get "_loop" w1) ->
  remove extern w = (r, w', tr) ->
  _draw extern (set_clock now w') = (r2, w2, t2) ->
  this_get "_loop" w' = VBool false /\ count is_arm t2 = 0%nat.
Proof.
  intros Hcur Hhooks Hrun Hdraw.
  assert (Hloop : this_get "_loop" w' = VBool false).
  { change (VBool false) with (if decide ("_loop" = "_loop") then VBool false
                                else this_get "_loop" w).
    rewrite <- stopped_get.
    apply (remove_within (fun a b => this_get "_loop" b = this_get "_loop" a))
      with (extern := extern) (r := r) (tr := tr); auto.
    intros a b c H1 H2. congruence. }
  split; [exact Hloop|].
  rewrite (draw_arms _ _ _ _ _ Hdraw).
  change (this_get "_loop" (set_clock now w')) with (this_get "_loop" w').
  rewrite Hloop. reflexivity.
Qed.

Lemma late_tick_after_remove_arms_nothing_witness :
  let w' := world_of (remove Sample.quiet Sample.running) in
  this_get "_loop" w' = VBool false /\
  count is_arm (trace_of (_draw Sample.quiet (set_clock 2000 w'))) = 0%nat.
Proof.
  cbn zeta.
  apply (late_tick_after_remove_arms_nothing Sample.quiet Sample.running
           (outcome_of (remove Sample.quiet Sample.running))
           (world_of (remove Sample.quiet Sample.running))
           (trace_of (remove Sample.quiet Sample.running)) 2000
           (outcome_of (_draw Sample.quiet
                          (set_clock 2000 (world_of (remove Sample.quiet Sample.running)))))
           (world_of (_draw Sample.quiet
                        (set_clock 2000 (world_of (remove Sample.quiet Sample.running)))))).
  - reflexivity.
  - intros f args w1 r1 w2 E. apply quiet_same in E. subst w2. reflexivity.
  - vm_compute. reflexivity.
  - vm_compute. reflexivity.
Defined.

(** ** The registries *)

Lemma names_app l1 l2 : names (l1 ++ l2) = names l1 ++ names l2.
Proof.
  induction l1 as [|v l1 IH]; [reflexivity|].
  destruct v; cbn; rewrite ?IH; reflexivity.
Qed.

(** Registering a name appends it to the array of the prototype; an
    instance that does not shadow the array reads the longer list. *)
Lemma register_run registry name w0 w :
  assoc registry (this w0) = None ->
  register registry (VStr name) w0 = (Ok tt, w, []) ->
  names (items (this_get registry w)) = names (items (this_get registry w0)) ++ [name] /\
  this w = this w0 /\ window w = window w0 /\
  (forall p, p <> registry -> assoc p (proto w) = assoc p (proto w0)).
Proof.
  intros Hown. unfold register. rewrite bind_gets.
  destruct (read (assoc registry (proto w0))) as [| | | | | | |l|] eqn:Hr;
    try discriminate.
  intros [= <-]. cbn [this window proto set_proto].
  split; [|split; [reflexivity|split; [reflexivity|]]].
  - unfold this_get. cbn [this proto set_proto]. rewrite Hown, assoc_update.
    destruct (decide (registry = registry)); [|contradiction].
    rewrite Hr. change (read (Some (VArr (l ++ [VStr name])))) with (VArr (l ++ [VStr name])).
    cbn [items]. rewrite names_app. reflexivity.
  - intros p Hp. rewrite assoc_update. destruct (decide (registry = p)); congruence.
Qed.

(** The removal hooks, called in turn: each registered name is looked up
    on the instance and called. *)
Lemma call_hooks_calls extern l :
  (forall f args w1 r1 w2,
      extern f args w1 = (r1, w2) -> forall p, this_get p w2 = this_get p w1) ->
  forall w w' tr,
    for_each (fun f => call_method extern f [] >> ret tt) l w = (Ok tt, w', tr) ->
    (forall p, this_get p w' = this_get p w) /\
    forall n, In n l -> exists h, this_get n w = VFun h /\ (1 <= count (is_call h) tr)%nat.
Proof.
  intros Hkeep. induction l as [|f l IH]; intros w w' tr Hrun.
  - injection Hrun as <- _. split; [reflexivity|contradiction].
  - cbn [for_each] in Hrun.
    apply bind_ok in Hrun as ([] & w1 & t1 & t2 & E1 & E2 & ->).
    apply bind_ok in E1 as (v & w1' & t1' & t1'' & E1 & Er & ->).
    injection Er as <- <-. unfold call_method in E1. rewrite bind_gets in E1.
    destruct (this_get f w) as [| | | | |h| | |] eqn:Hf; try discriminate E1.
    cbn [call_value call] in E1.
    destruct (extern h [] w) as [[v'|] w2] eqn:Eh; [|discriminate E1].
    injection E1 as _ <- <-.
    pose proof (Hkeep _ _ _ _ _ Eh) as K.
    destruct (IH _ _ _ E2) as [K2 Hcalls]. split.
    + intros p. rewrite K2. apply K.
    + intros n [<-|Hn].
      * exists h. split; [exact Hf|]. cbn.
        rewrite bool_decide_eq_true_2 by reflexivity. lia.
      * destruct (Hcalls n Hn) as (h' & Hh' & Hc). exists h'.
        rewrite K in Hh'. split; [exact Hh'|]. rewrite !count_app. lia.
Qed.

(** X16.  A removal hook registered with [_registerRemoveFunc] is called
    by the next [remove]: when [remove] returns on an instance with an
    active element, the name that was registered is a method of the
    instance and has been called (the removal hooks leaving the
    properties of the instance alone). *)
Theorem registered_removal_hook_is_called extern name w0 w w' tr :
  assoc "_removeFuncs" (this w0) = None ->
  _registerRemoveFunc (VStr name) w0 = (Ok tt, w, []) ->
  truthy (this_get "_curElement" w) = true ->
  (forall f args w1 r1 w2,
      extern f args w1 = (r1, w2) -> forall p, this_get p w2 = this_get p w1) ->
  remove extern w = (Ok tt, w', tr) ->
  In name (names (items (this_get "_removeFuncs" w))) /\
  exists h, this_get name w = VFun h /\ (1 <= count (is_call h) tr)%nat.
Proof.
  intros Hown Hreg Hcur Hkeep Hrun.
  destruct (register_run _ _ _ _ Hown Hreg) as (Hnames & _).
  assert (Hin : In name (names (items (this_get "_removeFuncs" w)))).
  { rewrite Hnames. apply in_or_app. right. left. reflexivity. }
  split; [exact Hin|].
  rewrite remove_unfold, Hcur in Hrun.
  destruct (stop_loop_run w) as (t0 & E0 & _).
  rewrite (bind_ok_run _ _ _ _ _ _ E0) in Hrun.
  destruct ((unsubscribe_all >> release extern) (stopped w)) as [[r1 w1] t1] eqn:E1.
  injection Hrun as -> -> <-.
  apply bind_ok in E1 as ([] & w2 & t2 & t3 & E2 & E3 & ->).
  unfold unsubscribe_all in E2. rewrite bind_gets in E2.
  apply unsubscribe_all_spec in E2 as [C2 _].
  unfold release in E3. rewrite bind_gets in E3.
  apply bind_ok in E3 as ([] & w3 & t4 & t5 & E4 & E5 & ->).
  apply remove_elements_ok, remove_elements_spec in E4 as [C4 _].
  rewrite bind_gets in E5.
  apply bind_ok in E5 as ([] & w4 & t6 & t7 & E6 & _ & ->).
  apply forEach_ok in E6 as [_ E6].
  assert (Hsame : forall p, p <> "_loop" -> this_get p w3 = this_get p w).
  { intros p Hp. rewrite (calm_this_get _ _ _ C4), (calm_this_get _ _ _ C2), stopped_get.
    destruct (decide (p = "_loop")); [contradiction|reflexivity]. }
  rewrite Hsame in E6 by discriminate.
  destruct (call_hooks_calls extern _ Hkeep _ _ _ E6) as [_ Hcalls].
  destruct (Hcalls name Hin) as (h & Hh & Hc).
  assert (Hne : name <> "_loop").
  { intros ->. rewrite (calm_this_get _ _ _ C4), (calm_this_get _ _ _ C2), stopped_get in Hh.
    discriminate Hh. }
  exists h. rewrite Hsame in Hh by exact Hne. split; [exact Hh|].
  rewrite !count_app. lia.
Qed.

Lemma registered_removal_hook_is_called_witness :
  In "rect" (names (items (this_get "_removeFuncs" RegistrySamples.with_hook))) /\
  exists h, this_get "rect" RegistrySamples.with_hook = VFun h /\
            (1 <= count (is_call h)
                    (trace_of (remove Sample.quiet RegistrySamples.with_hook)))%nat.
Proof.
  apply (registered_removal_hook_is_called Sample.quiet "rect" Sample.running
           RegistrySamples.with_hook
           (world_of (remove Sample.quiet RegistrySamples.with_hook))).
  - reflexivity.
  - vm_compute. reflexivity.
  - reflexivity.
  - intros f args w1 r1 w2 E. apply quiet_same in E. subst w2. reflexivity.
  - vm_compute. reflexivity.
Defined.

Lemma ctx_get_window_put c p q v w :
  q <> p -> ctx_get c p (window_put q v w) = ctx_get c p w.
Proof.
  intros H. destruct c; cbn [ctx_get]; [|reflexivity].
  unfold window_get, window_put, set_window. cbn [window]. rewrite assoc_update.
  destruct (decide (q = p)); [contradiction|reflexivity].
Qed.

Section Counting.
Variable extern : fn -> list value -> World -> result value * World.
Variable inline : string -> value -> bool.
Variable c : ctx.
Variable L : list string.

Hypothesis all_deferred : forall func path, inline func path = false.
Hypothesis extern_neutral :
  forall f args w r w', extern f args w = (r, w') -> gate_neutral w w'.
Hypothesis extern_wrappers :
  forall f args w r w', extern f args w = (r, w') ->
    forall p, ctx_get c p w = VFun (Wrapper p) -> ctx_get c p w' = VFun (Wrapper p).
Hypothesis counter_free : ~ In "_preloadCount" L.

Lemma wrapped_refl w : wrapped c L w w.
Proof. split; auto. Qed.

Lemma wrapped_trans x y z : wrapped c L x y -> wrapped c L y z -> wrapped c L x z.
Proof. intros [H1 H2] [K1 K2]. split; [congruence|auto]. Qed.

Lemma preload_wrapped func path :
  within (wrapped c L) any_event (_preload extern inline func path).
Proof.
  pose proof wrapped_refl as Hrefl. pose proof wrapped_trans as Htrans.
  assert (Hne : forall p, In p L -> "_preloadCount" <> p).
  { intros p Hp E. subst p. exact (counter_free Hp). }
  unfold _preload. rewrite all_deferred. repeat within_step.
  - split; [apply this_get_put_ne; discriminate|].
    intros p Hp. rewrite ctx_get_this_put by (apply Hne, Hp). auto.
  - split; [reflexivity|].
    intros p Hp. rewrite ctx_get_window_put by (apply Hne, Hp). auto.
  - split; [reflexivity|]. destruct c; auto.
  - match goal with |- within _ _ (call_value _ ?v _) => destruct v as [| | | | |f| | |] end;
      try within_step.
    intros w r w' t. cbn [call_value call].
    destruct (extern f [path] w) as [r1 w1] eqn:E. intros [= <- <- <-].
    split; [|repeat constructor]. split.
    + apply (extern_neutral _ _ _ _ _ E).
    + intros p _. apply (extern_wrappers _ _ _ _ _ E).
  - split; [reflexivity|]. destruct c; auto.
Qed.

(** Every call the preload hook makes through a wrapped name starts a
    load and raises the counter. *)
Lemma counted_calls l : forall n w w' t,
  gate n w ->
  context_of w = c ->
  (forall p, In p L -> ctx_get c p w = VFun (Wrapper p)) ->
  (forall x, In x l -> In (fst x) L) ->
  for_each (fun x : string * value =>
              call_capability extern inline (fst x) (snd x) >> ret tt) l w
  = (Ok tt, w', t) ->
  gate (n + length l) w' /\ count is_setup t = 0%nat.
Proof.
  induction l as [|[cap path] l IH]; intros n w w' t G Hc Hw Hl Hrun.
  - injection Hrun as <- <-. rewrite Nat.add_0_r. auto.
  - cbn [for_each] in Hrun.
    apply bind_ok in Hrun as ([] & w1 & t1 & t2 & E1 & E2 & ->).
    apply bind_ok in E1 as (v & w1' & t1' & t1'' & E1 & Er & ->).
    injection Er as -> <-. cbn [fst snd] in E1.
    unfold call_capability in E1. rewrite !bind_gets, Hc in E1.
    rewrite (Hw cap) in E1 by (apply (Hl (cap, path)); left; reflexivity).
    destruct (preload_step extern inline all_deferred extern_neutral _ _ _ _ _ _ _ G E1)
      as (S1 & _ & G1).
    destruct (preload_wrapped _ _ _ _ _ _ E1) as [[Hg Hkeep] _].
    destruct (IH (S n) w1 w' t2) as [G2 S2].
    + apply (G1 v). reflexivity.
    + unfold context_of. rewrite Hg. exact Hc.
    + intros p Hp. apply Hkeep; [exact Hp|apply Hw, Hp].
    + intros x Hx. apply Hl. right. exact Hx.
    + exact E2.
    + split.
      * cbn [length]. replace (n + S (length l))%nat with (S n + length l)%nat by lia.
        exact G2.
      * rewrite !count_app, S1, S2. reflexivity.
Qed.

End Counting.

(** X17.  A loader registered with [_registerPreloadFunc] makes the sketch
    wait: when the preload hook only calls registered names, at least
    once, and every load completes later, [_start] returns without having
    entered [_setup], with one load in flight for each call and the counter
    at that number. *)
Theorem registered_loader_makes_setup_wait extern calls inline name h w0 w w' tr :
  (forall func path, inline func path = false) ->
  (forall f args w1 r1 w2,
      extern f args w1 = (r1, w2) ->
      gate_neutral w1 w2 /\
      this_get "_preloadFuncs" w2 = this_get "_preloadFuncs" w1 /\
      this_get "preload" w2 = this_get "preload" w1 /\
      window_get "preload" w2 = window_get "preload" w1 /\
      forall c p, ctx_get c p w1 = VFun (Wrapper p) -> ctx_get c p w2 = VFun (Wrapper p)) ->
  assoc "_preloadFuncs" (this w0) = None ->
  _registerPreloadFunc (VStr name) w0 = (Ok tt, w, []) ->
  gate 0 w ->
  ~ In "_preloadCount" (loaders w) ->
  ~ In "_isGlobal" (loaders w) ->
  js_or (this_get "preload" w) (window_get "preload" w) = VFun h ->
  calls h <> [] ->
  (forall x, In x (calls h) -> fst x = name \/ In (fst x) (loaders w0)) ->
  _start extern calls inline w = (Ok tt, w', tr) ->
  count is_setup tr = 0%nat /\ gate (length (calls h)) w'.
Proof.
  intros Hdef Hext Hown Hreg G Hc Hg Hhook Hsome Hcalls Hrun.
  destruct (register_run _ _ _ _ Hown Hreg) as (Hnames & _).
  fold (loaders w) in Hnames. fold (loaders w0) in Hnames.
  assert (Hall : forall x, In x (calls h) -> In (fst x) (loaders w)).
  { intros x Hx. rewrite Hnames. apply in_or_app.
    destruct (Hcalls x Hx) as [->|Hin]; [right; left; reflexivity|left; exact Hin]. }
  assert (Hneu : forall f args w1 r1 w2, extern f args w1 = (r1, w2) -> gate_neutral w1 w2).
  { intros f args w1 r1 w2 E. apply (Hext _ _ _ _ _ E). }
  apply start_unfold in Hrun as [[Hr _]|(cc & w2 & v & Hcc & t2 & -> & Hrun)];
    [discriminate Hr|].
  cbn zeta in Hcc, Hrun. destruct Hcc as (w1 & args & Ecc & Hw1).
  destruct (Hext _ _ _ _ _ Ecc) as (N2 & K1 & K2 & K3 & _).
  assert (Hsame : forall p, p <> "_userNode" -> this_get p w1 = this_get p w).
  { intros p Hp. destruct Hw1 as [->|[n ->]]; [reflexivity|].
    apply this_get_put_ne. congruence. }
  assert (Hwin : window w1 = window w) by (destruct Hw1 as [->|[n ->]]; reflexivity).
  assert (N1 : gate_neutral w w1).
  { destruct Hw1 as [->|[n ->]]; [apply gate_neutral_refl|].
    unfold gate_neutral. rewrite !this_get_put_ne by discriminate. auto. }
  assert (G2 : gate 0 w2).
  { eapply gate_neutral_gate; [exact N2|]. eapply gate_neutral_gate; [exact N1|exact G]. }
  assert (Hl2 : names (items (this_get "_preloadFuncs" w2)) = loaders w).
  { rewrite K1, Hsame by discriminate. reflexivity. }
  unfold window_get in K3. unfold window_get in Hrun.
  rewrite K2, K3, Hsame, Hwin in Hrun by discriminate.
  fold (window_get "preload" w) in Hrun. rewrite Hhook in Hrun. cbn [truthy] in Hrun.
  apply bind_ok in Hrun as ([] & w3 & t3 & t4 & E3 & Hrun & ->).
  rewrite bind_gets in E3. apply forEach_ok in E3 as [_ E3]. rewrite Hl2 in E3.
  destruct (install_wrappers_run (context_of w2) (loaders w) w2)
    as (w3' & E3' & _ & Hwrapped & _).
  destruct (install_wrappers_spec (context_of w2) (loaders w) w2 Hc Hg)
    as (w3'' & E3'' & N3).
  rewrite E3' in E3''. injection E3'' as <-. rewrite E3' in E3. injection E3 as -> <-.
  assert (G3 : gate 0 w3) by (eapply gate_neutral_gate; eassumption).
  assert (C3 : context_of w3 = context_of w2) by (apply gate_neutral_context, N3).
  apply bind_ok in Hrun as ([] & w4 & t5 & t6 & E5 & Hrun & ->).
  unfold run_preload in E5.
  apply bind_ok in E5 as ([] & w3' & t7 & t8 & E7 & E8 & ->).
  injection E7 as <- <-.
  destruct (counted_calls extern inline (context_of w2) (loaders w) Hdef Hneu
              (fun f args wa r wb E p => proj2 (proj2 (proj2 (proj2 (Hext f args wa r wb E))))
                                           (context_of w2) p)
              Hc (calls h) 0%nat w3 w4 t8 G3 C3 Hwrapped Hall E8) as [G4 S4].
  cbn [Nat.add] in G4.
  rewrite bind_gets in Hrun. destruct G4 as (Hcount & G4').
  rewrite Hcount, is_number_zero_count in Hrun.
  destruct (calls h) as [|x l] eqn:Hl; [contradiction|].
  cbn [length Nat.eqb when] in Hrun. injection Hrun as <- <-.
  split.
  - rewrite !count_app. cbn. rewrite S4. reflexivity.
  - split; [exact Hcount|exact G4'].
Qed.

Lemma registered_loader_makes_setup_wait_witness :
  let run := _start Sample.quiet RegistrySamples.calls Sample.deferred
               RegistrySamples.registered in
  count is_setup (trace_of run) = 0%nat /\
  gate (length (RegistrySamples.calls (User 8))) (world_of run).
Proof.
  cbn zeta.
  apply (registered_loader_makes_setup_wait Sample.quiet RegistrySamples.calls
           Sample.deferred "rect" (User 8) RegistrySamples.before
           RegistrySamples.registered).
  - reflexivity.
  - intros f args w1 r1 w2 E. apply quiet_same in E. subst w2.
    repeat split; auto.
  - reflexivity.
  - vm_compute. reflexivity.
  - unfold gate. vm_compute. repeat split; try contradiction. constructor.
  - vm_compute. intuition discriminate.
  - vm_compute. intuition discriminate.
  - vm_compute. reflexivity.
  - discriminate.
  - intros x [<-|[]]. left. reflexivity.
  - vm_compute. reflexivity.
Defined.

(** ** More on the constructor *)

Lemma update_keys_In {K V} `{EqDecision K} (k k0 : K) (v : V) d :
  k0 <> k -> In k0 (List.map fst (update k v d)) -> In k0 (List.map fst d).
Proof.
  intros Hne. induction d as [|[k1 v1] d IH]; cbn.
  - intros [<-|[]]. contradiction.
  - destruct (decide (k1 = k)) as [->|]; cbn; intros [<-|Hin]; auto; contradiction.
Qed.

Lemma update_keys {K V} `{EqDecision K} (k : K) (v : V) d :
  List.NoDup (List.map fst d) -> List.NoDup (List.map fst (update k v d)).
Proof.
  induction d as [|[k0 v0] d IH]; intros Hnd; cbn.
  - constructor; [intros []|constructor].
  - destruct (decide (k0 = k)) as [->|Hne]; [exact Hnd|].
    cbn. apply List.NoDup_cons_iff in Hnd as [Hout Hnd].
    apply List.NoDup_cons; [|apply IH, Hnd].
    intros Hin. apply Hout. eapply update_keys_In; eassumption.
Qed.

(** Copying a list of properties with distinct names to the global
    namespace leaves each of them there. *)
Lemma expose_own_all l : forall w,
  List.NoDup (List.map fst l) ->
  exists w' t,
    for_each (fun c : string * value => modify (window_put (fst c) (snd c))) l w
    = (Ok tt, w', t) /\
    this w' = this w /\ proto w' = proto w /\
    forall p v, In (p, v) l -> assoc p (window w') = Some v.
Proof.
  induction l as [|[q v0] l IH]; intros w Hnd.
  - exists w, []. repeat split. intros p v [].
  - cbn [List.map fst] in Hnd. apply List.NoDup_cons_iff in Hnd as [Hout Hnd].
    destruct (IH (window_put q v0 w) Hnd) as (w' & t & E & Hthis & Hproto & Hall).
    destruct (expose_own_spec l (window_put q v0 w)) as (w'' & t'' & E' & Hkeep).
    rewrite E in E'. injection E' as <- <-.
    exists w', t. cbn [for_each fst snd]. rewrite bind_modify.
    split; [exact E|]. split; [exact Hthis|]. split; [exact Hproto|].
    intros p v [[= -> ->]|Hin]; [|apply Hall, Hin].
    rewrite Hkeep.
    + cbn. rewrite assoc_update. destruct (decide (p = p)); [reflexivity|contradiction].
    + intros v' Hin. apply Hout. apply (in_map fst) in Hin. exact Hin.
Qed.

(** X19.  At the end of the Global-mode branch of the constructor, before
    the hooks are bound and the sketch is started, the instance is in
    Global mode and every own property it has is on the global namespace,
    under its name and with its value: the copy comes after the
    capabilities, so an own property takes the place of a capability of the
    same name. *)
Theorem global_mode_exposes_own_properties w :
  this_get "_events" w <> VUndef ->
  this_get "_events" w <> VNull ->
  List.NoDup (List.map fst (this w)) ->
  exists w' t,
    go_global w = (Ok tt, w', t) /\
    this w' = update "_isGlobal" (VBool true) (this w) /\
    forall p v, assoc p (this w') = Some v -> assoc p (window w') = Some v.
Proof.
  intros Hu Hn Hnd. set (w0 := this_put "_isGlobal" (VBool true) w).
  assert (Hev : this_get "_events" w0 = this_get "_events" w).
  { unfold w0. apply this_get_put_ne. discriminate. }
  destruct (expose_capabilities_spec w0) as (w1 & t1 & E1 & Hthis & _);
    [rewrite Hev; exact Hu|rewrite Hev; exact Hn|].
  destruct (expose_own_all (this w1) w1) as (w2 & t2 & E2 & Hthis2 & _ & Hall).
  { rewrite Hthis. unfold w0. cbn [this this_put set_this]. apply update_keys, Hnd. }
  exists w2, (t1 ++ t2). split; [|split].
  - unfold go_global. rewrite bind_modify. fold w0.
    rewrite (bind_ok_run _ _ _ _ _ _ E1). unfold expose_own. rewrite bind_gets, E2.
    reflexivity.
  - rewrite Hthis2, Hthis. reflexivity.
  - intros p v Hp. apply Hall. rewrite <- Hthis2. apply assoc_In, Hp.
Qed.

Lemma global_mode_exposes_own_properties_witness :
  exists w' t,
    go_global GlobalSamples.fresh = (Ok tt, w', t) /\
    this w' = update "_isGlobal" (VBool true) (this GlobalSamples.fresh) /\
    forall p v, assoc p (this w') = Some v -> assoc p (window w') = Some v.
Proof.
  apply (global_mode_exposes_own_properties GlobalSamples.fresh).
  - vm_compute. discriminate.
  - vm_compute. discriminate.
  - vm_compute. repeat (apply List.NoDup_cons; [cbn; intuition discriminate|]).
    apply List.NoDup_nil.
Defined.

Lemma on_name e : ("on" ++ e)%string <> "_events".
Proof. change ("on" ++ e)%string with (String "o"%char (String "n"%char e)). discriminate. Qed.

Lemma bind_ret {A B} (a : A) (k : A -> M B) w : bind (ret a) k w = k a w.
Proof. apply bind_silent. reflexivity. Qed.

Lemma bind_emit {B} e (k : unit -> M B) w :
  bind (emit e) k w = (let '(r, w', t) := k tt w in (r, w', e :: t)).
Proof. unfold bind, emit. destruct (k tt w) as [[r w'] t]. reflexivity. Qed.

(** One turn of the binding loop. *)
Lemma bind_event_run e w w' tr :
  bind_event e w = (Ok tt, w', tr) ->
  (forall p, p <> "_events" -> this_get p w' = this_get p w) /\
  (forall x, In x (listeners w) -> In x (listeners w')) /\
  (forall e', e' <> e -> recorded e' w' = recorded e' w) /\
  match this_get ("on" ++ e)%string w with
  | VFun g => exists k, recorded e w' = VFun (Bound g k) /\
                        In (TWindow, e, Bound g k) (listeners w')
  | _ => recorded e w' = recorded e w
  end.
Proof.
  unfold bind_event. rewrite bind_gets.
  destruct (truthy (this_get ("on" ++ e)%string w)) eqn:Ht; cbn [when].
  - destruct (this_get ("on" ++ e)%string w) as [| |b|x|s|g|n|l|o] eqn:Hf;
      try (intros H; discriminate H).
    unfold bind_this, addEventListener.
    rewrite bind_assoc, bind_gets, bind_assoc, bind_modify, bind_ret.
    rewrite bind_assoc, bind_emit, bind_modify. unfold modify.
    intros [= <- _]. split; [|split; [|split]].
    + intros p Hp. rewrite this_get_put_ne by congruence. reflexivity.
    + intros x Hx. cbn. destruct (existsb _ _); [exact Hx|apply in_or_app; left; exact Hx].
    + intros e' He'. unfold recorded. rewrite this_get_put_eq. cbn [entries].
      unfold obj_get. rewrite assoc_update.
      destruct (decide (e = e')); [congruence|reflexivity].
    + exists (next_bound w). split.
      * unfold recorded. rewrite this_get_put_eq. cbn [entries].
        unfold obj_get. rewrite assoc_update.
        destruct (decide (e = e)); [reflexivity|contradiction].
      * cbn. destruct (existsb _ _) eqn:Hex.
        -- apply existsb_exists in Hex as (y & Hy & Heq).
           unfold same_listener in Heq. apply bool_decide_eq_true_1 in Heq. subst y.
           exact Hy.
        -- apply in_or_app. right. left. reflexivity.
  - intros [= <- _]. repeat split; auto.
    destruct (this_get ("on" ++ e)%string w); try reflexivity. discriminate Ht.
Qed.

Lemma bind_loop l : forall w w' tr,
  for_each (fun c : string * value => bind_event (fst c)) l w = (Ok tt, w', tr) ->
  (forall p, p <> "_events" -> this_get p w' = this_get p w) /\
  (forall x, In x (listeners w) -> In x (listeners w')) /\
  (forall e, ~ In e (List.map fst l) -> recorded e w' = recorded e w) /\
  (forall e, In e (List.map fst l) ->
     match this_get ("on" ++ e)%string w with
     | VFun g => exists k, recorded e w' = VFun (Bound g k) /\
                           In (TWindow, e, Bound g k) (listeners w')
     | _ => recorded e w' = recorded e w
     end).
Proof.
  induction l as [|[e0 v0] l IH]; intros w w' tr Hrun.
  - injection Hrun as <- _. repeat split; auto. intros e [].
  - cbn [for_each fst] in Hrun.
    apply bind_ok in Hrun as ([] & w1 & t1 & t2 & E1 & E2 & _).
    apply bind_event_run in E1 as (P1 & L1 & O1 & H1).
    apply IH in E2 as (P2 & L2 & O2 & H2).
    split; [|split; [|split]].
    + intros p Hp. rewrite P2, P1 by exact Hp. reflexivity.
    + auto.
    + intros e He. rewrite O2, O1; [reflexivity| |].
      * intros ->. apply He. left. reflexivity.
      * intros Hin. apply He. right. exact Hin.
    + intros e He. cbn [List.map fst] in He.
      destruct (in_dec string_dec e (List.map fst l)) as [Hin|Hout].
      * specialize (H2 e Hin). rewrite P1 in H2 by apply on_name.
        destruct (decide (e = e0)) as [->|Hne].
        -- destruct (this_get ("on" ++ e0)%string w); try exact H2; congruence.
        -- destruct (this_get ("on" ++ e)%string w); try exact H2;
             rewrite H2; apply O1; exact Hne.
      * destruct He as [<-|He]; [|contradiction].
        destruct (this_get ("on" ++ e0)%string w);
          try (rewrite O2 by exact Hout; exact H1).
        destruct H1 as (k & Hk & Hl). exists k. rewrite O2 by exact Hout. auto.
Qed.

(** X20.  When the loop of the constructor that binds the [on<event>] hooks
    returns, each event of [this._events] whose hook is a function has a
    handler subscribed on the global object, a function bound to the
    instance made from the hook, and [_events] records that very handler
    under the event, which is what [remove] later unsubscribes; an event
    whose hook is missing keeps the entry it had. *)
Theorem bound_hooks_are_recorded w w' tr :
  bind_events w = (Ok tt, w', tr) ->
  forall e, In e (List.map fst (entries (this_get "_events" w))) ->
    match this_get ("on" ++ e)%string w with
    | VFun g => exists k, recorded e w' = VFun (Bound g k) /\
                          In (TWindow, e, Bound g k) (listeners w')
    | _ => recorded e w' = recorded e w
    end.
Proof.
  unfold bind_events. rewrite bind_gets. intros Hrun.
  apply bind_loop in Hrun as (_ & _ & _ & H). exact H.
Qed.

Lemma bound_hooks_are_recorded_witness :
  match this_get ("on" ++ "mousedown")%string ConstructorSamples.exposed with
  | VFun g =>
      exists k,
        recorded "mousedown" (world_of (bind_events ConstructorSamples.exposed))
        = VFun (Bound g k) /\
        In (TWindow, "mousedown", Bound g k)
           (listeners (world_of (bind_events ConstructorSamples.exposed)))
  | _ => recorded "mousedown" (world_of (bind_events ConstructorSamples.exposed))
         = recorded "mousedown" ConstructorSamples.exposed
  end.
Proof.
  apply (bound_hooks_are_recorded ConstructorSamples.exposed
           (world_of (bind_events ConstructorSamples.exposed))
           (trace_of (bind_events ConstructorSamples.exposed))).
  - vm_compute. reflexivity.
  - vm_compute. auto.
Defined.

(** On the sample page the library defines [onmousedown]: its bound form
    is subscribed and recorded. *)
Example mousedown_is_bound :
  let w := world_of (bind_events ConstructorSamples.exposed) in
  recorded "mousedown" w = VFun (Bound (Lib "onmousedown") 5) /\
  recorded "keyup" w = VNull /\
  listeners w = [(TWindow, "mousedown", Bound (Lib "onmousedown") 5)].
Proof. vm_compute. repeat split. Qed.

(** The constructor is what it does before it looks at
    [document.readyState], then the start or its subscription. *)
Lemma p5_unfold extern calls inline constants sketch node w :
  p5 extern calls inline constants sketch node w
  = (construct extern constants sketch node >> start_when_ready extern calls inline) w.
Proof.
  unfold p5, construct. rewrite ?bind_assoc.
  apply bind_ext. intros [] w1. rewrite ?bind_assoc.
  apply bind_ext. intros [] w2. rewrite ?bind_assoc.
  apply bind_ext. intros [] w3. unfold bind_events. rewrite ?bind_assoc.
  apply bind_ext. intros evs w4. rewrite ?bind_assoc.
  apply bind_ext. intros [] w5. rewrite ?bind_assoc.
  apply bind_ext. intros [] w6.
  apply bind_ext. intros [] w7. reflexivity.
Qed.

(** Until it looks at [document.readyState] the constructor enters no
    routine and arms no timer, and leaves the state of the document to the
    sketch closure. *)
Lemma construct_within extern constants sketch node :
  (forall f args w r w', extern f args w = (r, w') -> ready w' = ready w) ->
  within (fun a b => ready b = ready a)
         (fun e => is_enter "_start" e = false /\ is_setup e = false /\ is_arm e = false)
         (construct extern constants sketch node).
Proof.
  intros Hext.
  assert (Hrefl : forall w : World, ready w = ready w) by reflexivity.
  assert (Htrans : forall a b c : World, ready b = ready a -> ready c = ready b ->
                                         ready c = ready a) by (intros; congruence).
  assert (Hcall : forall v args,
    within (fun a b : World => ready b = ready a)
      (fun e => is_enter "_start" e = false /\ is_setup e = false /\ is_arm e = false)
      (call_value extern v args)).
  { intros v args. destruct v; try within_step.
    intros w r w' t. cbn [call_value call].
    destruct (extern f args w) as [r1 w1] eqn:E. intros [= <- <- <-].
    split; [eapply Hext; exact E|repeat constructor]. }
  unfold construct, init. repeat within_step;
    try reflexivity; try (repeat split; reflexivity).
  - destruct (truthy sketch).
    + within_step; [apply Hcall|within_step].
    + unfold go_global, expose_capabilities, expose_own. repeat within_step;
        try reflexivity.
      match goal with |- within _ _ (match ?v with _ => _ end) => destruct v end;
        cbn zeta; repeat within_step; try reflexivity.
      match goal with |- within _ _ (match ?v with _ => _ end) => destruct v end;
        repeat within_step; reflexivity.
  - match goal with |- within _ _ (match ?v with _ => _ end) => destruct v end;
      repeat within_step; try reflexivity. repeat split; reflexivity.
Qed.

(** X21.  Constructed before the document is complete, the sketch does not
    start: the constructor enters neither [_start] nor [_setup] and arms no
    timer, and when it returns [_start], bound to the instance, is
    subscribed to the [load] event of the global object (the sketch
    closure leaving the state of the document alone). *)
Theorem constructor_waits_for_load extern calls inline constants sketch node w r w' tr :
  ready w = false ->
  (forall f args w1 r1 w2, extern f args w1 = (r1, w2) -> ready w2 = ready w1) ->
  p5 extern calls inline constants sketch node w = (r, w', tr) ->
  count (is_enter "_start") tr = 0%nat /\
  count is_setup tr = 0%nat /\
  count is_arm tr = 0%nat /\
  (r = Ok tt ->
   exists k, In (TWindow, "load", Bound (Core "_start") k) (listeners w')).
Proof.
  intros Hready Hext Hrun. rewrite p5_unfold in Hrun.
  assert (Hquiet : forall t,
    Forall (fun e => is_enter "_start" e = false /\ is_setup e = false /\
                     is_arm e = false) t ->
    count (is_enter "_start") t = 0%nat /\ count is_setup t = 0%nat /\
    count is_arm t = 0%nat).
  { intros t Ht. repeat split; apply (count_none _ _ _ Ht); tauto. }
  apply bind_inv in Hrun as [([] & w1 & t1 & t2 & E1 & E2 & ->)|[E1 ->]].
  - destruct (construct_within extern constants sketch node Hext _ _ _ _ E1) as [R1 P1].
    unfold start_when_ready in E2. rewrite bind_gets, R1, Hready in E2.
    unfold bind_this, addEventListener in E2.
    rewrite bind_assoc, bind_gets, bind_assoc, bind_modify, bind_ret in E2.
    rewrite bind_emit in E2. unfold modify in E2. injection E2 as <- <- <-.
    destruct (Hquiet _ P1) as (Q1 & Q2 & Q3).
    rewrite !count_app, Q1, Q2, Q3. repeat split.
    intros _. exists (next_bound w1). cbn. destruct (existsb _ _) eqn:Hex.
    + apply existsb_exists in Hex as (y & Hy & Heq).
      unfold same_listener in Heq. apply bool_decide_eq_true_1 in Heq. subst y. exact Hy.
    + apply in_or_app. right. left. reflexivity.
  - destruct (construct_within extern constants sketch node Hext _ _ _ _ E1) as [_ P1].
    destruct (Hquiet _ P1) as (Q1 & Q2 & Q3). repeat split; auto. discriminate.
Qed.

Lemma sample_ext_ready f args w r w' : Sample.ext f args w = (r, w') -> ready w' = ready w.
Proof.
  unfold Sample.ext. intros E. repeat case_match; simplify_eq; reflexivity.
Qed.

Lemma constructor_waits_for_load_witness :
  let run := p5 Sample.ext Sample.calls Sample.deferred [] VUndef VUndef
               ConstructorSamples.loading in
  count (is_enter "_start") (trace_of run) = 0%nat /\
  count is_setup (trace_of run) = 0%nat /\
  count is_arm (trace_of run) = 0%nat /\
  (outcome_of run = Ok tt ->
   exists k, In (TWindow, "load", Bound (Core "_start") k) (listeners (world_of run))).
Proof.
  cbn zeta.
  apply (constructor_waits_for_load Sample.ext Sample.calls Sample.deferred [] VUndef VUndef
           ConstructorSamples.loading).
  - reflexivity.
  - exact sample_ext_ready.
  - vm_compute. reflexivity.
Defined.

Lemma assoc_const {V} (v : V) k l :
  is_Some (assoc k (List.map (fun e : string => (e, v)) l)) <-> In k l.
Proof.
  induction l as [|e l IH]; cbn.
  - split; [intros [x Hx]; discriminate Hx|intros []].
  - destruct (decide (e = k)) as [->|Hne].
    + split; [auto|eauto].
    + rewrite IH. split; [auto|intros [?|?]; [contradiction|assumption]].
Qed.

(** With the events of the literal, the test of the constructor holds
    back the names that end in one of them after two characters. *)
Lemma reserved_by_events w p :
  this_get "_events" w = VObj (List.map (fun e => (e, VNull)) event_names) ->
  reserved_hook_name w p = true <-> In (substring2 p) event_names.
Proof.
  intros He. unfold reserved_hook_name, obj_has. rewrite He. cbn [entries].
  rewrite bool_decide_eq_true. apply assoc_const.
Qed.

Lemma own_put_eq p v w : assoc p (this (this_put p v w)) = Some v.
Proof.
  unfold this_put, set_this. cbn [this]. rewrite assoc_update.
  destruct (decide (p = p)); [reflexivity|contradiction].
Qed.

Lemma own_put_ne p q v w :
  p <> q -> assoc q (this (this_put p v w)) = assoc q (this w).
Proof.
  intros H. unfold this_put, set_this. cbn [this]. rewrite assoc_update.
  destruct (decide (p = q)); [contradiction|reflexivity].
Qed.

Lemma init_run node w :
  init node w = (Ok tt, world_of (init node w), []) /\
  window (world_of (init node w)) = window w /\
  proto (world_of (init node w)) = proto w /\
  assoc "_events" (this (world_of (init node w)))
  = Some (VObj (List.map (fun e => (e, VNull)) event_names)).
Proof.
  unfold init. rewrite !bind_modify, bind_gets, !bind_modify, bind_gets.
  rewrite !bind_modify. cbn [for_each]. rewrite !bind_modify.
  unfold ret, world_of. cbn [fst snd]. repeat split.
  rewrite !own_put_ne by discriminate. apply own_put_eq.
Qed.

Lemma constants_run l : forall w,
  exists w',
    for_each (fun c : string * value => modify (set_proto (update (fst c) (snd c)))) l w
    = (Ok tt, w', []) /\
    this w' = this w /\ window w' = window w.
Proof.
  induction l as [|c l IH]; intros w; [exists w; auto|].
  destruct (IH (set_proto (update (fst c) (snd c)) w)) as (w' & E & Ht & Hw).
  exists w'. cbn [for_each]. rewrite bind_modify. auto.
Qed.

Lemma initialised_spec constants node w :
  window (initialised constants node w) = window w /\
  this_get "_events" (initialised constants node w)
  = VObj (List.map (fun e => (e, VNull)) event_names).
Proof.
  unfold initialised. destruct (init_run node w) as (E & Hw & _ & He).
  destruct (constants_run constants (world_of (init node w))) as (w' & E' & Ht' & Hw').
  rewrite (bind_silent _ _ _ _ _ E), E'. unfold world_of. cbn [fst snd].
  split; [congruence|]. unfold this_get. rewrite Ht', He. reflexivity.
Qed.

(** X18.  When the constructor, given no sketch closure, has been through
    the capability table, a function of the table is on the global
    namespace bound to the instance unless its name, less its first two
    code units, is one of the thirteen events of the literal
    [this._events]; such a function has been skipped, the global of that
    name is what it was.  So [onclick] is skipped, and so would be
    [xxclick]. *)
Theorem global_binding_skips_event_endings constants node w0 :
  exists w1 t1,
    expose_capabilities
      (this_put "_isGlobal" (VBool true) (initialised constants node w0))
    = (Ok tt, w1, t1) /\
    forall p f,
      assoc p (proto (initialised constants node w0)) = Some (VFun f) ->
      (In (substring2 p) event_names -> assoc p (window w1) = assoc p (window w0)) /\
      (~ In (substring2 p) event_names ->
       exists k, assoc p (window w1) = Some (VFun (Bound f k))).
Proof.
  destruct (initialised_spec constants node w0) as [Hw He].
  set (w := initialised constants node w0) in *.
  set (wg := this_put "_isGlobal" (VBool true) w).
  assert (Heg : this_get "_events" wg
                = VObj (List.map (fun e => (e, VNull)) event_names)).
  { unfold wg. rewrite this_get_put_ne by discriminate. exact He. }
  destruct (expose_capabilities_spec wg) as (w1 & t1 & E & _ & Hexp);
    [rewrite Heg; discriminate|rewrite Heg; discriminate|].
  exists w1, t1. split; [exact E|]. intros p f Hp.
  destruct (Hexp p (VFun f) Hp) as (Hskip & Hbind & _).
  pose proof (reserved_by_events wg p Heg) as Hres.
  change (window wg) with (window w) in Hskip. rewrite Hw in Hskip. split.
  - intros Hin. apply Hskip; [reflexivity|apply Hres, Hin].
  - intros Hout. apply (Hbind f eq_refl).
    destruct (reserved_hook_name wg p) eqn:Hr; [|reflexivity].
    destruct Hout. apply Hres. reflexivity.
Qed.

(** On the sample page with a function named [xxclick]: the hook of
    [mousedown] and [xxclick] are both left off the global namespace, and
    [rect] is there. *)
Example event_endings_on_sample :
  let w := world_of (go_global (initialised [] VUndef GlobalSamples.lookalike_page)) in
  assoc "onmousedown" (window w) = None /\
  assoc "xxclick" (window w) = None /\
  assoc "rect" (window w) = Some (VFun (Bound (Lib "rect") 4)).
Proof. vm_compute. repeat split. Qed.

(** ** A load that cannot start *)

(** X4.  When the prototype holds no function under the name a counting
    wrapper stands for, the call fails, a TypeError, after the counter has
    been raised: nothing has been called and no load is in flight to lower
    the counter again. *)
Theorem preload_with_missing_loader extern inline func path k w :
  ctx_get (context_of w) "_preloadCount" w = VNum (num k) ->
  is_function (read (assoc func (proto w))) = false ->
  exists w' tr,
    _preload extern inline func path w = (Throw, w', tr) /\
    count is_any_call tr = 0%nat /\
    this_get "_preloadCount" w' = VNum (num (k + 1)) /\
    (truthy (this_get "_isGlobal" w) = true ->
     window_get "_preloadCount" w' = VNum (num (k + 1))) /\
    pending w' = pending w.
Proof.
  intros Hk Hf. unfold _preload. rewrite !bind_gets, Hk. cbn [to_number].
  rewrite js_add_num.
  destruct (setProperty_spec "_preloadCount" (VNum (num (k + 1))) w)
    as (w1 & E & Hthis & Hwin & Hproto & _ & _ & Hpend & _).
  rewrite (bind_silent _ _ _ _ _ E), !bind_gets, bind_modify, bind_emit, Hproto.
  assert (Hnl : next_load w1 = next_load w).
  { revert E. unfold _setProperty, bind, modify, gets, when, ret.
    destruct (truthy _); intros [= <-]; reflexivity. }
  rewrite Hnl.
  exists (set_next_load (S (next_load w)) w1), [EvLoad (next_load w) func].
  split; [|split; [|split; [|split]]].
  - destruct (read (assoc func (proto w))); try discriminate Hf; reflexivity.
  - reflexivity.
  - change (this_get "_preloadCount" (set_next_load (S (next_load w)) w1))
      with (this_get "_preloadCount" w1).
    unfold this_get. rewrite Hthis, assoc_update.
    destruct (decide ("_preloadCount" = "_preloadCount")); [reflexivity|contradiction].
  - intros Hg. change (window_get "_preloadCount" (set_next_load (S (next_load w)) w1))
      with (window_get "_preloadCount" w1).
    unfold window_get. rewrite Hwin, this_get_put_ne, Hg, assoc_update by discriminate.
    destruct (decide ("_preloadCount" = "_preloadCount")); [reflexivity|contradiction].
  - exact Hpend.
Qed.

Lemma preload_with_missing_loader_witness :
  exists w' tr,
    _preload Sample.quiet Sample.deferred "loadXML" (VStr "a.xml") StartSamples.preloading
    = (Throw, w', tr) /\
    count is_any_call tr = 0%nat /\
    this_get "_preloadCount" w' = VNum (num (0 + 1)) /\
    (truthy (this_get "_isGlobal" StartSamples.preloading) = true ->
     window_get "_preloadCount" w' = VNum (num (0 + 1))) /\
    pending w' = pending StartSamples.preloading.
Proof.
  apply (preload_with_missing_loader Sample.quiet Sample.deferred "loadXML" (VStr "a.xml") 0
           StartSamples.preloading).
  - vm_compute. reflexivity.
  - vm_compute. reflexivity.
Defined.

(** ** Instance mode and the global namespace *)

Section InstanceMode.
Variable extern : fn -> list value -> World -> result value * World.
Variable calls : fn -> list (string * value).
Variable inline : string -> value -> bool.

Hypothesis extern_local :
  forall f args w r w',
    extern f args w = (r, w') ->
    window w' = window w /\
    this_get "_isGlobal" w' = this_get "_isGlobal" w /\
    this_get "_preloadFuncs" w' = this_get "_preloadFuncs" w /\
    pending w' = pending w.

Lemma local_refl w : kept_local w w.
Proof. intros (_ & _ & _ & H). auto. Qed.

Lemma local_instance a b : kept_local a b -> in_instance_mode a -> in_instance_mode b.
Proof.
  intros H Ha. destruct (H Ha) as (Hg & Hf & _ & Hp). destruct Ha as (H1 & H2 & H3 & _).
  unfold in_instance_mode, loaders. rewrite Hg, Hf. auto.
Qed.

Lemma local_trans a b c : kept_local a b -> kept_local b c -> kept_local a c.
Proof.
  intros H1 H2 Ha. pose proof (local_instance _ _ H1 Ha) as Hb.
  destruct (H1 Ha) as (A1 & A2 & A3 & _). destruct (H2 Hb) as (B1 & B2 & B3 & B4).
  repeat split; try congruence. exact B4.
Qed.

Lemma all_T t : Forall any_event t.
Proof. induction t; constructor; [exact I|assumption]. Qed.

Lemma local_put p v w : p <> "_isGlobal" -> p <> "_preloadFuncs" -> kept_local w (this_put p v w).
Proof.
  intros H1 H2 (_ & _ & _ & Hp). rewrite !this_get_put_ne by congruence. auto.
Qed.

Lemma local_frame w w' :
  this w' = this w -> proto w' = proto w -> window w' = window w ->
  pending w' = pending w -> kept_local w w'.
Proof.
  intros H1 H2 H3 H4 (_ & _ & _ & Hp). unfold this_get. rewrite H1, H2, H3, H4. auto.
Qed.

Lemma within_context {A} (K : ctx -> M A) :
  within kept_local any_event (K CThis) -> within kept_local any_event (let* c := gets context_of in K c).
Proof.
  intros HK w r w' t H. rewrite bind_gets in H. split; [|apply all_T].
  intros Hi. unfold context_of in H. rewrite (proj1 Hi) in H.
  apply (HK _ _ _ _ H), Hi.
Qed.

Lemma within_loaders (body : string -> M unit) :
  (forall f, f <> "_isGlobal" -> f <> "_preloadFuncs" -> within kept_local any_event (body f)) ->
  within kept_local any_event (let* funcs := gets (this_get "_preloadFuncs") in
                  forEach funcs body).
Proof.
  intros Hbody w r w' t H. rewrite bind_gets in H. split; [|apply all_T].
  intros Hi. eapply (within_forEach kept_local any_event local_refl local_trans); [|exact H|exact Hi].
  destruct Hi as (_ & G1 & G2 & _).
  intros f Hf. apply Hbody; intros ->; [apply G1|apply G2]; exact Hf.
Qed.

Lemma setProperty_local prop v :
  prop <> "_isGlobal" -> prop <> "_preloadFuncs" -> within kept_local any_event (_setProperty prop v).
Proof.
  intros H1 H2 w r w' t H. split; [|apply all_T]. intros Hi.
  unfold _setProperty in H. rewrite bind_modify, bind_gets in H.
  rewrite this_get_put_ne, (proj1 Hi) in H by congruence.
  injection H as _ <- _. apply local_put; assumption.
Qed.

Lemma call_value_local v args : within kept_local any_event (call_value extern v args).
Proof.
  pose proof local_refl. destruct v; try within_step.
  intros w r w' t. cbn [call_value call].
  destruct (extern f args w) as [r1 w1] eqn:E. intros [= <- <- <-].
  split; [|apply all_T]. intros (_ & _ & _ & Hp).
  destruct (extern_local _ _ _ _ _ E) as (H1 & H2 & H3 & H4).
  rewrite H4. auto.
Qed.

Ltac local_world :=
  first [ apply local_put; discriminate
        | apply local_frame; reflexivity ].

Lemma clear_local v : within kept_local any_event (when (truthy v) (clearTimer v)).
Proof.
  pose proof local_refl as Hrefl. pose proof local_trans as Htrans.
  unfold clearTimer. repeat within_shape. local_world.
Qed.

Ltac local_step :=
  first [ apply within_context
        | apply within_loaders; intros ? ? ?
        | apply clear_local
        | apply setProperty_local; discriminate
        | apply call_value_local
        | within_shape ].

Lemma setup_local : within kept_local any_event (_setup extern).
Proof.
  pose proof local_refl as Hrefl. pose proof local_trans as Htrans.
  unfold _setup. repeat local_step; try local_world.
  - apply local_put; assumption.
  - apply local_frame; try apply unhide_from_frame. apply unhide_pending.
Qed.

Lemma runFrames_local : within kept_local any_event _runFrames.
Proof.
  pose proof local_refl as Hrefl. pose proof local_trans as Htrans.
  unfold _runFrames, setInterval, arm. repeat local_step; local_world.
Qed.

Lemma draw_local : within kept_local any_event (_draw extern).
Proof.
  pose proof local_refl as Hrefl. pose proof local_trans as Htrans.
  unfold _draw, setTimeout, arm, push, pop, scale. repeat local_step; local_world.
Qed.

Lemma launch_local : within kept_local any_event (_setup extern >> _runFrames >> _draw extern).
Proof.
  pose proof local_refl as Hrefl. pose proof local_trans as Htrans.
  within_shape; [apply setup_local|]. within_shape; [apply runFrames_local|apply draw_local].
Qed.

Lemma preload_done_local : within kept_local any_event (preload_done extern CThis).
Proof.
  pose proof local_refl as Hrefl. pose proof local_trans as Htrans.
  unfold preload_done. repeat first [apply launch_local|local_step].
Qed.

Lemma preload_local func path : within kept_local any_event (_preload extern inline func path).
Proof.
  pose proof local_refl as Hrefl. pose proof local_trans as Htrans.
  unfold _preload. repeat first [apply preload_done_local|local_step]; try local_world.
  intros (_ & _ & _ & Hp). repeat split; try reflexivity.
  intros x Hx. cbn in Hx. apply in_app_or in Hx as [Hx|[<-|[]]]; auto.
Qed.

Lemma call_capability_local cap path :
  within kept_local any_event (call_capability extern inline cap path).
Proof.
  pose proof local_refl as Hrefl. pose proof local_trans as Htrans.
  unfold call_capability. apply within_context. within_shape; [within_shape|].
  match goal with |- within _ _ (match ?v with _ => _ end) => destruct v as [| | | | |f| | |] end;
    try apply call_value_local.
  destruct f; try apply (call_value_local (VFun _)). apply preload_local.
Qed.

Lemma run_preload_local hook : within kept_local any_event (run_preload extern calls inline hook).
Proof.
  pose proof local_refl as Hrefl. pose proof local_trans as Htrans.
  unfold run_preload. repeat first [apply call_capability_local|local_step].
Qed.

Lemma start_local : within kept_local any_event (_start extern calls inline).
Proof.
  pose proof local_refl as Hrefl. pose proof local_trans as Htrans.
  unfold _start, call_method.
  repeat first [apply launch_local|apply run_preload_local|local_step]; try local_world.
  all: apply local_put; assumption.
Qed.

Lemma fire_local t : within kept_local any_event (fire extern t).
Proof.
  pose proof local_refl as Hrefl. pose proof local_trans as Htrans.
  unfold fire, frame_tick. repeat first [apply draw_local|local_step]; local_world.
Qed.

Lemma complete_local id : within kept_local any_event (complete extern id).
Proof.
  pose proof local_refl as Hrefl. pose proof local_trans as Htrans.
  intros w r w' t H. split; [|apply all_T]. intros Hi.
  unfold complete in H. rewrite bind_gets in H.
  destruct (List.find (fun x => Nat.eqb (l_id x) id) (pending w)) as [x|] eqn:Hfind.
  - pose proof (proj2 (proj2 (proj2 Hi)) x) as Hx.
    rewrite Hx in H by (eapply find_some; exact Hfind).
    assert (Hgo : within kept_local any_event
      (modify (set_pending (List.filter (fun x => negb (Nat.eqb (l_id x) id)))) >>
       preload_done extern CThis)).
    { within_shape; [|apply preload_done_local]. within_shape.
      intros (_ & _ & _ & Hp). repeat split; try reflexivity.
      intros y Hy. cbn in Hy. apply filter_In in Hy as [Hy _]. auto. }
    apply (Hgo _ _ _ _ H), Hi.
  - injection H as _ <- _. apply local_refl, Hi.
Qed.

(** X22.  In Instance mode the routines of the sketch leave the global
    namespace alone: the start routine, with the preload, set-up and first
    draw it runs, a timer of the sketch going off and a load completing
    write nothing on the global object and keep the instance in Instance
    mode, as long as the code they call does. *)
Theorem instance_mode_leaves_globals_alone w r w' tr :
  truthy (this_get "_isGlobal" w) = false ->
  ~ In "_isGlobal" (loaders w) ->
  ~ In "_preloadFuncs" (loaders w) ->
  (forall x, In x (pending w) -> l_context x = CThis) ->
  _start extern calls inline w = (r, w', tr) \/
  (exists t, fire extern t w = (r, w', tr)) \/
  (exists id, complete extern id w = (r, w', tr)) ->
  window w' = window w /\ truthy (this_get "_isGlobal" w') = false.
Proof.
  intros H1 H2 H3 H4 Hrun.
  assert (Hi : in_instance_mode w) by (unfold in_instance_mode; auto).
  assert (Hl : kept_local w w').
  { destruct Hrun as [H|[[t H]|[id H]]].
    - apply (start_local _ _ _ _ H).
    - apply (fire_local _ _ _ _ _ H).
    - apply (complete_local _ _ _ _ _ H). }
  destruct (Hl Hi) as (Hg & _ & Hw & _). rewrite Hg. auto.
Qed.

End InstanceMode.

Lemma instance_mode_leaves_globals_alone_witness :
  let run := _start Sample.quiet Sample.calls Sample.deferred StartSamples.foreign_preload in
  window (world_of run) = window StartSamples.foreign_preload /\
  truthy (this_get "_isGlobal" (world_of run)) = false.
Proof.
  cbn zeta.
  apply (instance_mode_leaves_globals_alone Sample.quiet Sample.calls Sample.deferred)
    with (r := outcome_of (_start Sample.quiet Sample.calls Sample.deferred
                             StartSamples.foreign_preload))
         (tr := trace_of (_start Sample.quiet Sample.calls Sample.deferred
                            StartSamples.foreign_preload)).
  - intros f args w1 r1 w2 E. apply quiet_same in E. subst w2. auto.
  - reflexivity.
  - vm_compute. intuition discriminate.
  - vm_compute. intuition discriminate.
  - vm_compute. contradiction.
  - left. vm_compute. reflexivity.
Defined.
